(** * ChRIS backend: lineage, pipeline trees and the Swift storage manager

    A shallow embedding of
    - [plugininstances/models.py] (class [PluginInstance]),
    - [pipelines/models.py] (class [Pipeline]),
    - [core/storage/swiftmanager.py] (class [SwiftManager]),
    followed by the properties established for them.

    Conventions.  Python [int] is [Z]; [str] is [string]; a [dict] used as a
    map is a [gmap]; a [dict] whose iteration order is observed is an
    association list; a [while] loop is a [Fixpoint] on a number of
    iterations (fuel) and returns [OutOfFuel] when the iterations allowed do
    not suffice, so that a loop that never exits is one that is [OutOfFuel]
    for every fuel. *)

From Stdlib Require Import ZArith List String Ascii Lia Bool.
From stdpp Require Import base option list gmap strings pretty.

Open Scope Z_scope.
Open Scope string_scope.
Open Scope list_scope.

(** ** Python values shared by the three modules *)

(** The exceptions the embedded code can raise.  [LineageCycleDetected] and
    [BrokenLineage] are the names the specification uses; no statement of the
    source raises them.  [OverflowError] and [DataError] are raised by the
    database for a value a column cannot hold. *)
Inductive exn : Type :=
| AttributeError
| IndexError
| KeyError
| ValueError
| IntegrityError
| DoesNotExist
| RelatedObjectDoesNotExist
| ClientException (http_status : Z)
| LineageCycleDetected
| BrokenLineage
| OverflowError
| DataError.

(** What a call does: return, raise, or still be running when the fuel is
    spent. *)
Inductive outcome (A : Type) : Type :=
| Returned (a : A)
| Raised (e : exn)
| OutOfFuel.
Arguments Returned {A} a.
Arguments Raised {A} e.
Arguments OutOfFuel {A}.

(** [str(n)] for a Python [int]. *)
Definition py_str (n : Z) : string := pretty n.

(** A character that [str(n)] can produce: a digit or the sign. *)
Definition numeral_char (c : ascii) : Prop :=
  c = "-"%char \/ exists d, (d < 10)%N /\ c = pretty_N_char d.

(** [l.pop()] on a non-empty Python list: the last element and the rest. *)
Fixpoint pop_last {A : Type} (l : list A) : option (A * list A) :=
  match l with
  | [] => None
  | x :: t =>
      match pop_last t with
      | None => Some (x, [])
      | Some (y, t') => Some (y, x :: t')
      end
  end.

(** *** Strings

    A [str] is modelled by its UTF-8 encoding: a character below U+0080 is
    one [ascii], every other character two to four, the first of which is
    not below 194 and the others between 128 and 191. *)

(** [c.isspace()] for a character of one byte: U+0009 to U+000D and U+001C
    to U+0020. *)
Definition py_isspace (c : ascii) : bool :=
  let n := nat_of_ascii c in
  ((9 <=? n) && (n <=? 13) || (28 <=? n) && (n <=? 32))%nat.

(** The same for a character of two bytes: U+0085 and U+00A0. *)
Definition py_isspace2 (c1 c2 : ascii) : bool :=
  let n1 := nat_of_ascii c1 in
  let n2 := nat_of_ascii c2 in
  ((n1 =? 194) && ((n2 =? 133) || (n2 =? 160)))%nat.

(** The same for a character of three bytes: U+1680, U+2000 to U+200A,
    U+2028, U+2029, U+202F, U+205F and U+3000.  No character of four bytes
    is a blank. *)
Definition py_isspace3 (c1 c2 c3 : ascii) : bool :=
  let n1 := nat_of_ascii c1 in
  let n2 := nat_of_ascii c2 in
  let n3 := nat_of_ascii c3 in
  ((n1 =? 225) && (n2 =? 154) && (n3 =? 128)
   || (n1 =? 226) && (n2 =? 128)
      && ((128 <=? n3) && (n3 <=? 138) || (n3 =? 168) || (n3 =? 169)
          || (n3 =? 175))
   || (n1 =? 226) && (n2 =? 129) && (n3 =? 159)
   || (n1 =? 227) && (n2 =? 128) && (n3 =? 128))%nat.

(** [s.lstrip()] *)
Fixpoint py_lstrip (s : string) : string :=
  match s with
  | "" => ""
  | String c1 s1 =>
      if py_isspace c1 then py_lstrip s1
      else
        match s1 with
        | "" => s
        | String c2 s2 =>
            if py_isspace2 c1 c2 then py_lstrip s2
            else
              match s2 with
              | "" => s
              | String c3 s3 =>
                  if py_isspace3 c1 c2 c3 then py_lstrip s3 else s
              end
        end
  end.

(** [s.rstrip()]: the blanks at the end are dropped, that is, the longest
    suffix that [lstrip] empties.  No blank starts inside a character, so
    such a suffix starts where a character does. *)
Fixpoint py_rstrip (s : string) : string :=
  match s with
  | "" => ""
  | String c s' =>
      if String.eqb (py_lstrip s) "" then "" else String c (py_rstrip s')
  end.

(** [s.strip()] *)
Definition py_strip (s : string) : string := py_rstrip (py_lstrip s).

(** [s.split(sep)] for a separator of one character. *)
Fixpoint py_split (sep : ascii) (s : string) : list string :=
  match s with
  | "" => [""]
  | String c s' =>
      if Ascii.eqb c sep then "" :: py_split sep s'
      else
        match py_split sep s' with
        | h :: t => String c h :: t
        | [] => [String c ""]
        end
  end.

(** [sep.join(l)] *)
Definition py_join (sep : string) (l : list string) : string :=
  String.concat sep l.

(** [s.replace(c, '')] for a character [c]. *)
Fixpoint py_remove (c : ascii) (s : string) : string :=
  match s with
  | "" => ""
  | String c' s' =>
      if Ascii.eqb c' c then py_remove c s' else String c' (py_remove c s')
  end.

Definition digit_of (c : ascii) : option Z :=
  let n := nat_of_ascii c in
  if ((48 <=? n) && (n <=? 57))%nat then Some (Z.of_nat n - 48) else None.

(** The digits of an [int] literal, in which single underscores may separate
    digits. *)
Fixpoint digits_value (acc : Z) (after_underscore : bool) (s : string) : option Z :=
  match s with
  | "" => if after_underscore then None else Some acc
  | String c s' =>
      if Ascii.eqb c "_"
      then if after_underscore then None else digits_value acc true s'
      else
        match digit_of c with
        | Some d => digits_value (10 * acc + d) false s'
        | None => None
        end
  end.

Definition unsigned_value (s : string) : option Z :=
  match s with
  | "" => None
  | String c _ => if Ascii.eqb c "_" then None else digits_value 0 false s
  end.

(** [int(s)] in base ten; [None] stands for [ValueError]. *)
Definition py_int (s : string) : option Z :=
  match py_strip s with
  | String "-" r => Z.opp <$> unsigned_value r
  | String "+" r => unsigned_value r
  | r => unsigned_value r
  end.

(** ** plugininstances/models.py *)

Module PluginInstances.

Record User : Type := { username : string }.

Record Feed : Type := {
  feed_id : Z;
  feed_name : string;
  feed_owner : list User
}.

Record Plugin : Type := {
  plugin_name : string;
  plugin_type : string
}.

(** A row of the [PluginInstance] table.  [previous] is the foreign key to the
    parent row ([None] is SQL NULL); [feed] is [None] while the attribute is
    not set on the object, which is what [hasattr(self, 'feed')] tests.  The
    primary key the database hands out on insert is carried by the record. *)
Record PluginInstance : Type := {
  id : Z;
  previous : option Z;
  plugin : Plugin;
  feed : option Feed;
  owner : User
}.

(** The table, in the order [Meta.ordering] lists it. *)
Definition table : Type := list PluginInstance.

(** [PluginInstance.objects.get(pk=k)], which is what following a foreign key
    does. *)
Definition get_pk (db : table) (k : Z) : option PluginInstance :=
  List.find (fun r => Z.eqb (id r) k) db.

Definition is_fs (x : PluginInstance) : bool :=
  String.eqb (plugin_type (plugin x)) "fs".

(** [current = current.previous], then the evaluation of [current.plugin] by
    the loop test: on [None] the attribute access raises. *)
Definition follow_previous (db : table) (current : PluginInstance)
  : outcome PluginInstance :=
  match previous current with
  | None => Raised AttributeError
  | Some k =>
      match get_pk db k with
      | None => Raised DoesNotExist
      | Some p => Returned p
      end
  end.

(** [get_root_instance]: [fuel] bounds the number of executions of the loop
    body. *)
Fixpoint get_root_instance (fuel : nat) (db : table) (current : PluginInstance)
  : outcome PluginInstance :=
  if is_fs current then Returned current
  else
    match fuel with
    | O => OutOfFuel
    | S fuel' =>
        match follow_previous db current with
        | Returned p => get_root_instance fuel' db p
        | Raised e => Raised e
        | OutOfFuel => OutOfFuel
        end
    end.

(** ['/{0}_{1}'.format(current.plugin.name, current.id)] *)
Definition segment (x : PluginInstance) : string :=
  "/" +:+ plugin_name (plugin x) +:+ "_" +:+ py_str (id x).

(** The [while] loop of [get_output_path], on the pair [(current, path)]. *)
Fixpoint output_path_loop (fuel : nat) (db : table) (current : PluginInstance)
  (path : string) : outcome (PluginInstance * string) :=
  if is_fs current then Returned (current, path)
  else
    match fuel with
    | O => OutOfFuel
    | S fuel' =>
        match follow_previous db current with
        | Returned p => output_path_loop fuel' db p (segment p +:+ path)
        | Raised e => Raised e
        | OutOfFuel => OutOfFuel
        end
    end.

Definition get_output_path (fuel : nat) (db : table) (self : PluginInstance)
  : outcome string :=
  match output_path_loop fuel db self (segment self +:+ "/data") with
  | Returned (current, path) =>
      let username := username (owner self) in
      match feed current with
      | None => Raised RelatedObjectDoesNotExist
      | Some f => Returned (username +:+ "/feed_" +:+ py_str (feed_id f) +:+ path)
      end
  | Raised e => Raised e
  | OutOfFuel => OutOfFuel
  end.

(** The segments of a list of rows, written one after the other. *)
Fixpoint join_segments (rows : list PluginInstance) : string :=
  match rows with
  | [] => ""
  | x :: rows' => segment x +:+ join_segments rows'
  end.

(** [visited.next.all()]: the rows whose [previous] is [visited]. *)
Definition next_all (db : table) (visited : PluginInstance) : list PluginInstance :=
  List.filter
    (fun r => match previous r with Some k => Z.eqb k (id visited) | None => false end)
    db.

(** The [while len(queue) > 0] loop of [get_descendant_instances]. *)
Fixpoint descendants_loop (fuel : nat) (db : table)
  (queue descendant_instances : list PluginInstance)
  : outcome (list PluginInstance) :=
  match pop_last queue with
  | None => Returned descendant_instances
  | Some (visited, queue') =>
      match fuel with
      | O => OutOfFuel
      | S fuel' =>
          descendants_loop fuel' db (queue' ++ next_all db visited)
            (descendant_instances ++ [visited])
      end
  end.

Definition get_descendant_instances (fuel : nat) (db : table)
  (self : PluginInstance) : outcome (list PluginInstance) :=
  descendants_loop fuel db [self] [].

(** *** Lineages *)

(** [lineage db x chain]: [chain] is [x], its parent, ... up to the first row
    of type "fs", which ends it. *)
Inductive lineage (db : table) : PluginInstance -> list PluginInstance -> Prop :=
| lineage_root x :
    is_fs x = true -> lineage db x [x]
| lineage_step x p chain :
    is_fs x = false ->
    previous x = Some (id p) ->
    get_pk db (id p) = Some p ->
    lineage db p chain ->
    lineage db x (x :: chain).

(** A chain of rows, none of type "fs", that ends at a row without parent. *)
Inductive broken_lineage (db : table) : PluginInstance -> list PluginInstance -> Prop :=
| broken_end x :
    is_fs x = false -> previous x = None -> broken_lineage db x [x]
| broken_step x p chain :
    is_fs x = false ->
    previous x = Some (id p) ->
    get_pk db (id p) = Some p ->
    broken_lineage db p chain ->
    broken_lineage db x (x :: chain).

(** A set of primary keys of rows, none of type "fs", that is closed under
    [previous]: the rows of a cycle and of the chains that lead into it. *)
Definition closed_cycle (db : table) (ids : list Z) : bool :=
  forallb
    (fun k =>
       match get_pk db k with
       | None => false
       | Some p =>
           negb (is_fs p) &&
           match previous p with
           | None => false
           | Some k' => existsb (Z.eqb k') ids
           end
       end)
    ids.

(** *** The next-graph *)

(** The row [n] links of [previous] above [x], when there is one. *)
Fixpoint ancestor_at (db : table) (n : nat) (x : PluginInstance)
  : option PluginInstance :=
  match n with
  | O => Some x
  | S n' =>
      match previous x with
      | None => None
      | Some k =>
          match get_pk db k with
          | None => None
          | Some p => ancestor_at db n' p
          end
      end
  end.

(** The rows met on the way up, the starting row first. *)
Fixpoint way_up (db : table) (n : nat) (x : PluginInstance)
  : list PluginInstance :=
  x :: match n with
       | O => []
       | S n' =>
           match previous x with
           | None => []
           | Some k =>
               match get_pk db k with
               | None => []
               | Some p => way_up db n' p
               end
           end
       end.

(** The primary key is unique. *)
Definition keys_unique (db : table) : Prop := List.NoDup (map id db).

(** No row is above itself: the graph of [next] has no cycle. *)
Definition acyclic (db : table) : Prop :=
  forall x n, In x db -> ancestor_at db (S n) x <> Some x.

(** The same, as a test: no chain of [previous] has as many links as the
    table has rows. *)
Definition acyclicb (db : table) : bool :=
  forallb
    (fun x => match ancestor_at db (length db) x with None => true | Some _ => false end)
    db.

(** [y] is a row that is reached from [x] by following [next]. *)
Definition descends (db : table) (x y : PluginInstance) : Prop :=
  In y db /\ exists n, ancestor_at db n y = Some x.

(** The order of the traversal, written as a recursion on the subtree: the
    row itself, then the subtrees of its children, last child first.  [depth]
    bounds the height of the subtree. *)
Fixpoint subtree (db : table) (depth : nat) (x : PluginInstance)
  : list PluginInstance :=
  match depth with
  | O => [x]
  | S depth' => x :: flat_map (subtree db depth') (rev (next_all db x))
  end.

(** *** Saving *)

(** The part of the database [save] touches: the instance and feed tables and
    the next key of the feed sequence. *)
Record database : Type := {
  instances : table;
  feeds : list Feed;
  next_feed_id : Z
}.

Definition set_feed (self : PluginInstance) (f : Feed) : PluginInstance :=
  {| id := id self; previous := previous self; plugin := plugin self;
     feed := Some f; owner := owner self |}.

(** [_save_feed]: a feed named after the plugin is inserted, then its owners
    are set to [[self.owner]]. *)
Definition _save_feed (self : PluginInstance) (d : database) : Feed * database :=
  let feed := {| feed_id := next_feed_id d;
                 feed_name := plugin_name (plugin self);
                 feed_owner := [owner self] |} in
  (feed, {| instances := instances d;
            feeds := (feeds d ++ [feed])%list;
            next_feed_id := next_feed_id d + 1 |}).

(** [models.Model.save] for this model (Django, not part of the repository):
    the [feed] column is declared without [null=True], so a row without feed
    is refused by the database; otherwise the row replaces the one with its
    key or is appended. *)
Definition super_save (self : PluginInstance) (d : database)
  : outcome PluginInstance * database :=
  match feed self with
  | None => (Raised IntegrityError, d)
  | Some _ =>
      (Returned self,
       {| instances :=
            match get_pk (instances d) (id self) with
            | Some _ =>
                List.map (fun r => if Z.eqb (id r) (id self) then self else r)
                  (instances d)
            | None => (instances d ++ [self])%list
            end;
          feeds := feeds d;
          next_feed_id := next_feed_id d |})
  end.

(** [self.previous.feed] *)
Definition previous_feed (self : PluginInstance) (d : database) : outcome Feed :=
  match previous self with
  | None => Raised AttributeError
  | Some k =>
      match get_pk (instances d) k with
      | None => Raised DoesNotExist
      | Some p =>
          match feed p with
          | None => Raised RelatedObjectDoesNotExist
          | Some f => Returned f
          end
      end
  end.

(** [save]: returns the object as it is after the call. *)
Definition save (self : PluginInstance) (d : database)
  : outcome PluginInstance * database :=
  match feed self with
  | Some _ => super_save self d
  | None =>
      let '(self1, d1) :=
        if String.eqb (plugin_type (plugin self)) "fs"
        then let '(f, d') := _save_feed self d in (set_feed self f, d')
        else (self, d) in
      if String.eqb (plugin_type (plugin self)) "ds"
      then
        match previous_feed self1 d1 with
        | Returned f => super_save (set_feed self1 f) d1
        | Raised e => (Raised e, d1)
        | OutOfFuel => (OutOfFuel, d1)
        end
      else super_save self1 d1
  end.

End PluginInstances.

(** *** Output registration *)

Module OutputRegistration.
Import PluginInstances.

(** A row of the [PluginInstanceFile] table. *)
Record PluginInstanceFile : Type := {
  plugin_inst : Z;
  fname : string
}.

(** The dictionary returned. *)
Record registration : Type := {
  status : bool;
  l_object : list string;
  total : Z;
  outputPath : string;
  pollLoop : Z
}.

Definition maxPolls : Z := 20.

(** The polling loop.  [listing k] is what the request number [k] (from 0)
    for the names under the output path does: it returns the list of the
    names, which is the second component of what [conn.get_container]
    returns, or it raises, and then so does the loop, which calls it in no
    [try]; each iteration also sleeps 0.2 s. *)
Fixpoint poll (fuel : nat) (listing : nat -> outcome (list string))
  (objectsReportedInSwift : Z) (object_list : list string) (pollLoop : Z)
  : outcome (list string * Z) :=
  if (Z.of_nat (length object_list) <=? objectsReportedInSwift)%Z
     && (pollLoop <? maxPolls)%Z
  then
    match fuel with
    | O => OutOfFuel
    | S fuel' =>
        match listing (Z.to_nat pollLoop) with
        | Returned l =>
            poll fuel' listing objectsReportedInSwift l (pollLoop + 1)
        | Raised e => Raised e
        | OutOfFuel => OutOfFuel
        end
    end
  else Returned (object_list, pollLoop).

(** The loop [for object in object_list].  [saved f] is what
    [plg_inst_file.save()] does for the row [f]: the database stores it or
    refuses it, and a refusal ends the loop, the rows stored before it
    staying.  Returns the outcome and the rows stored. *)
Fixpoint save_files (saved : PluginInstanceFile -> outcome unit) (self_id : Z)
  (object_list : list string) : outcome unit * list PluginInstanceFile :=
  match object_list with
  | [] => (Returned tt, [])
  | object :: object_list' =>
      let plg_inst_file := {| plugin_inst := self_id; fname := object |} in
      match saved plg_inst_file with
      | Returned _ =>
          let '(r, files) := save_files saved self_id object_list' in
          (r, plg_inst_file :: files)
      | Raised e => (Raised e, [])
      | OutOfFuel => (OutOfFuel, [])
      end
  end.

(** [register_output_files]: [d_swiftstore] is
    [swiftState['d_swiftstore']['filesPushed']] when the keyword argument has
    the key, [store prefix] is the sequence of the answers to the listing
    requests under [prefix].  Returns the dictionary, or what was raised,
    and the rows created. *)
Definition register_output_files (fuel : nat) (db : table)
  (store : string -> nat -> outcome (list string))
  (saved : PluginInstanceFile -> outcome unit) (self : PluginInstance)
  (d_swiftstore : option Z)
  : outcome registration * list PluginInstanceFile :=
  match get_output_path fuel db self with
  | Returned output_path =>
      let objectsReportedInSwift :=
        match d_swiftstore with Some filesPushed => filesPushed | None => 0 end in
      match poll fuel (store output_path) objectsReportedInSwift [] 0 with
      | Returned (object_list, pollLoop) =>
          match save_files saved (id self) object_list with
          | (Returned _, files) =>
              (Returned
                 {| status := true;
                    l_object := object_list;
                    total := Z.of_nat (length object_list);
                    outputPath := output_path;
                    pollLoop := pollLoop |},
               files)
          | (Raised e, files) => (Raised e, files)
          | (OutOfFuel, files) => (OutOfFuel, files)
          end
      | Raised e => (Raised e, [])
      | OutOfFuel => (OutOfFuel, [])
      end
  | Raised e => (Raised e, [])
  | OutOfFuel => (OutOfFuel, [])
  end.

(** A store whose listings are never refused, and a database that stores
    every row. *)
Definition lists (names : string -> nat -> list string)
  : string -> nat -> outcome (list string) :=
  fun prefix k => Returned (names prefix k).

Definition stores_all : PluginInstanceFile -> outcome unit :=
  fun _ => Returned tt.

End OutputRegistration.

(** *** Tables that are well formed *)

Module TableInvariants.
Import PluginInstances.

(** Every reference [previous] is to a stored row, and a row without
    [previous] is of type "fs". *)
Definition references_stored (db : table) (y : PluginInstance) : Prop :=
  match previous y with
  | Some k => In k (map id db)
  | None => is_fs y = true
  end.

(** The primary key is unique, no row is above itself and no reference
    dangles. *)
Definition well_formed (db : table) : Prop :=
  keys_unique db /\ acyclic db /\
  forall y, In y db -> references_stored db y.

End TableInvariants.

(** *** Filtering by root *)

Module InstanceFilters.
Import PluginInstances.

(** The column of the primary key.  [key_fits k] tells whether the column
    can hold the integer [k].  What a lookup by an integer it cannot hold
    does is decided by the database and its driver, not by the repository
    (the SQLite driver raises [OverflowError]; PostgreSQL answers with an
    error or, through a later Django, with no row): it is [key_refused]. *)
Record key_column : Type := {
  key_fits : Z -> bool;
  key_refused : outcome (list PluginInstance)
}.

(** [PluginInstanceFilter.filter_by_root_id]: [value] is the text of the
    query parameter, which the lookup [pk=value] converts with [int] and
    hands to the database; [queryset] is the list of the rows the filter
    receives, and [db] the table, which [visited.next.all()] reads. *)
Definition filter_by_root_id (fuel : nat) (column : key_column)
  (db queryset : table) (value : string) : outcome (list PluginInstance) :=
  match py_int value with
  | None => Raised ValueError
  | Some pk =>
      if key_fits column pk
      then
        match List.filter (fun r => Z.eqb (id r) pk) queryset with
        | [] => Returned []
        | root :: _ => descendants_loop fuel db [root] []
        end
      else key_refused column
  end.

(** A key column of 64 bits, as SQLite has it. *)
Definition sqlite_key : key_column :=
  {| key_fits := fun k => (- 2 ^ 63 <=? k)%Z && (k <? 2 ^ 63)%Z;
     key_refused := Raised OverflowError |}.

End InstanceFilters.

(** *** Sample tables *)

Module LineageSamples.
Import PluginInstances.

Definition alice : User := {| username := "alice" |}.
Definition feed7 : Feed := {| feed_id := 7; feed_name := "dircopy"; feed_owner := [alice] |}.
Definition dircopy : Plugin := {| plugin_name := "dircopy"; plugin_type := "fs" |}.
Definition simpledsapp : Plugin := {| plugin_name := "simpledsapp"; plugin_type := "ds" |}.
Definition topologicalcopy : Plugin := {| plugin_name := "topologicalcopy"; plugin_type := "ts" |}.

(** A feed with root 1, its child 2, and the children 3 and 4 of 2. *)
Definition n1 : PluginInstance :=
  {| id := 1; previous := None; plugin := dircopy; feed := Some feed7; owner := alice |}.
Definition n2 : PluginInstance :=
  {| id := 2; previous := Some 1; plugin := simpledsapp; feed := Some feed7; owner := alice |}.
Definition n3 : PluginInstance :=
  {| id := 3; previous := Some 2; plugin := simpledsapp; feed := Some feed7; owner := alice |}.
Definition n4 : PluginInstance :=
  {| id := 4; previous := Some 2; plugin := simpledsapp; feed := Some feed7; owner := alice |}.
Definition feed_table : table := [n4; n3; n2; n1].

(** A root of another table whose plugin name has slashes and underscores,
    so that its output path is the one of [n3]. *)
Definition lone_root : PluginInstance :=
  {| id := 3; previous := None;
     plugin := {| plugin_name := "dircopy_1/simpledsapp_2/simpledsapp";
                  plugin_type := "fs" |};
     feed := Some feed7; owner := alice |}.

(** Two rows of type "ds" that are each other's parent. *)
Definition c1 : PluginInstance :=
  {| id := 1; previous := Some 2; plugin := simpledsapp; feed := Some feed7; owner := alice |}.
Definition c2 : PluginInstance :=
  {| id := 2; previous := Some 1; plugin := simpledsapp; feed := Some feed7; owner := alice |}.
Definition cyclic_table : table := [c2; c1].

(** A row of type "ds" without parent, and its child. *)
Definition b1 : PluginInstance :=
  {| id := 1; previous := None; plugin := simpledsapp; feed := Some feed7; owner := alice |}.
Definition b2 : PluginInstance :=
  {| id := 2; previous := Some 1; plugin := simpledsapp; feed := Some feed7; owner := alice |}.
Definition broken_table : table := [b2; b1].

(** Nodes that are not saved yet, and the database they are saved to. *)
Definition new_fs : PluginInstance :=
  {| id := 5; previous := None; plugin := dircopy; feed := None; owner := alice |}.
Definition new_ds : PluginInstance :=
  {| id := 5; previous := Some 2; plugin := simpledsapp; feed := None; owner := alice |}.
Definition new_ts : PluginInstance :=
  {| id := 5; previous := Some 2; plugin := topologicalcopy; feed := None; owner := alice |}.
Definition stored : database :=
  {| instances := feed_table; feeds := [feed7]; next_feed_id := 8 |}.

End LineageSamples.

(** ** pipelines/models.py *)

Module Pipelines.

Record PluginMeta : Type := { meta_type : string }.

Record Plugin : Type := {
  plugin_pk : Z;
  meta : PluginMeta
}.

(** A piping with the pipings above it: [previous] is the object the foreign
    key loads, [None] for the root. *)
#[warnings="-register-all"]
Inductive PluginPiping : Type := Build_PluginPiping {
  id : Z;
  title : string;
  plugin : Plugin;
  previous : option PluginPiping
}.

(** *** [get_pipings_tree] *)

(** A value of the dictionary [tree]. *)
Record tree_entry : Type := {
  piping : PluginPiping;
  child_ids : list Z
}.

Record pipings_tree : Type := {
  root_id : Z;
  tree : gmap Z tree_entry
}.

(** The body of the loop [for pip in pipings]. *)
Definition visit_piping (tree : gmap Z tree_entry) (pip : PluginPiping)
  : outcome (gmap Z tree_entry) :=
  match tree !! id pip with
  | Some _ => Returned tree
  | None =>
      let tree := <[id pip := {| piping := pip; child_ids := [] |}]> tree in
      match previous pip with
      | None => Raised AttributeError
      | Some prev =>
          let prev_id := id prev in
          match tree !! prev_id with
          | Some e =>
              Returned (<[prev_id := {| piping := piping e;
                                        child_ids := child_ids e ++ [id pip] |}]> tree)
          | None =>
              Returned (<[prev_id := {| piping := prev; child_ids := [id pip] |}]> tree)
          end
      end
  end.

Fixpoint visit_pipings (tree : gmap Z tree_entry) (pipings : list PluginPiping)
  : outcome (gmap Z tree_entry) :=
  match pipings with
  | [] => Returned tree
  | pip :: pipings' =>
      match visit_piping tree pip with
      | Returned tree' => visit_pipings tree' pipings'
      | Raised e => Raised e
      | OutOfFuel => OutOfFuel
      end
  end.

Definition is_root (pip : PluginPiping) : bool :=
  match previous pip with None => true | Some _ => false end.

(** [pipings] is [list(self.plugin_pipings.all())]. *)
Definition get_pipings_tree (pipings : list PluginPiping) : outcome pipings_tree :=
  match List.filter is_root pipings with
  | [] => Raised IndexError
  | root_pip :: _ =>
      let root_id := id root_pip in
      let tree := {[ root_id := {| piping := root_pip; child_ids := [] |} ]} in
      match visit_pipings tree pipings with
      | Returned tree' => Returned {| root_id := root_id; tree := tree' |}
      | Raised e => Raised e
      | OutOfFuel => OutOfFuel
      end
  end.

(** The children registered for a piping id, as a set. *)
Definition child_set (t : pipings_tree) (k : Z) : option (gset Z) :=
  (fun e => list_to_set (child_ids e)) <$> (tree t !! k).

(** The ids of the pipings of [pipings] whose [previous] is [pip], in the
    order of the list. *)
Definition children_of (pipings : list PluginPiping) (pip : PluginPiping) : list Z :=
  map id
    (List.filter
       (fun c => match previous c with
                 | Some q => Z.eqb (id q) (id pip)
                 | None => false
                 end)
       pipings).

(** The pipings come parent first: the root is the first of the list, and
    the [previous] of every other piping is a piping that comes before it.
    [seen] is the part of the list already passed. *)
Fixpoint parent_first (seen pipings : list PluginPiping) : Prop :=
  match pipings with
  | [] => True
  | pip :: pipings' =>
      match previous pip with
      | None => seen = []
      | Some prev => In prev seen
      end /\ parent_first (seen ++ [pip]) pipings'
  end.

(** What the loop has built once it has passed the pipings of [seen]. *)
Definition built (seen : list PluginPiping) (tree : gmap Z tree_entry) : Prop :=
  (forall pip, In pip seen ->
     tree !! id pip = Some {| piping := pip; child_ids := children_of seen pip |}) /\
  (forall k, ~ In k (map id seen) -> tree !! k = None).

(** *** [get_plugin_tree] *)

(** The value of a default: the four parameter tables hold [str], [int],
    [float] and [bool] values, each nullable.  A [float] is carried as the 64
    bits of its IEEE 754 representation. *)
Inductive py_value : Type :=
| VNone
| VStr (s : string)
| VInt (n : Z)
| VFloat (bits : Z)
| VBool (b : bool).

(** The bit patterns of [0.0] and [-0.0]. *)
Definition is_float_zero (bits : Z) : bool :=
  (bits =? 0)%Z || (bits =? 2 ^ 63)%Z.

(** [bool(v)] *)
Definition truthy (v : py_value) : bool :=
  match v with
  | VNone => false
  | VStr s => negb (String.eqb s "")
  | VInt n => negb (Z.eqb n 0)
  | VFloat bits => negb (is_float_zero bits)
  | VBool b => b
  end.

Record PluginParameter : Type := { param_name : string }.

(** A row of one of the four [DefaultPiping...Parameter] tables. *)
Record DefaultPipingParameter : Type := {
  value : py_value;
  plugin_piping : PluginPiping;
  plugin_param : PluginParameter
}.

(** The rows of the four tables that belong to the pipeline. *)
Record default_tables : Type := {
  string_param : list DefaultPipingParameter;
  integer_param : list DefaultPipingParameter;
  float_param : list DefaultPipingParameter;
  boolean_param : list DefaultPipingParameter
}.

Definition get_default_parameters (t : default_tables)
  : list DefaultPipingParameter :=
  string_param t ++ integer_param t ++ float_param t ++ boolean_param t.

(** [{'name': ..., 'default': ...}] *)
Record parameter_default : Type := {
  name : string;
  default : py_value
}.

(** A value of [tree_nodes_dict], which is also an element of the list
    returned. *)
Record tree_node : Type := {
  plugin_id : Z;
  node_previous : option string;
  node_title : string;
  plugin_parameter_defaults : list parameter_default
}.

(** A dictionary whose iteration order is observed: the keys in the order of
    their insertion. *)
Definition odict (V : Type) : Type := list (string * V).

Definition odict_get {V : Type} (d : odict V) (k : string) : option V :=
  snd <$> List.find (fun kv => String.eqb (fst kv) k) d.

Definition odict_keys {V : Type} (d : odict V) : list string := map fst d.

(** [d[k] = f(d[k])] for a key that is present. *)
Definition odict_update {V : Type} (f : V -> V) (k : string) (d : odict V) : odict V :=
  map (fun kv => if String.eqb (fst kv) k then (fst kv, f (snd kv)) else kv) d.

Definition add_default (d : parameter_default) (n : tree_node) : tree_node :=
  {| plugin_id := plugin_id n; node_previous := node_previous n;
     node_title := node_title n;
     plugin_parameter_defaults := plugin_parameter_defaults n ++ [d] |}.

Definition set_defaults (l : list parameter_default) (n : tree_node) : tree_node :=
  {| plugin_id := plugin_id n; node_previous := node_previous n;
     node_title := node_title n; plugin_parameter_defaults := l |}.

(** The three dictionaries the first loop fills. *)
Record node_dicts : Type := {
  tree_nodes_dict : odict tree_node;
  id_to_title : gmap Z string;
  is_ts_dict : gmap string bool
}.

(** The body of the loop [for default_param in pipeline_default_parameters]. *)
Definition record_default (st : node_dicts) (default_param : DefaultPipingParameter)
  : node_dicts :=
  let piping := plugin_piping default_param in
  let previous := previous piping in
  let st1 :=
    match odict_get (tree_nodes_dict st) (title piping) with
    | Some _ => st
    | None =>
        {| tree_nodes_dict :=
             tree_nodes_dict st ++
             [(title piping,
               {| plugin_id := plugin_pk (plugin piping);
                  node_previous := title <$> previous;
                  node_title := title piping;
                  plugin_parameter_defaults := [] |})];
           id_to_title := <[id piping := title piping]> (id_to_title st);
           is_ts_dict :=
             <[title piping := String.eqb (meta_type (meta (plugin piping))) "ts"]>
               (is_ts_dict st) |}
    end in
  {| tree_nodes_dict :=
       odict_update
         (add_default {| name := param_name (plugin_param default_param);
                         default := value default_param |})
         (title piping) (tree_nodes_dict st1);
     id_to_title := id_to_title st1;
     is_ts_dict := is_ts_dict st1 |}.

(** [[id_to_title[int(pip_id)] for pip_id in default.split(',')]] *)
Fixpoint parent_titles (id_to_title : gmap Z string) (pip_ids : list string)
  : outcome (list string) :=
  match pip_ids with
  | [] => Returned []
  | pip_id :: rest =>
      match py_int pip_id with
      | None => Raised ValueError
      | Some k =>
          match id_to_title !! k with
          | None => Raised KeyError
          | Some t =>
              match parent_titles id_to_title rest with
              | Returned ts => Returned (t :: ts)
              | Raised e => Raised e
              | OutOfFuel => OutOfFuel
              end
          end
      end
  end.

(** The loop over the defaults of a 'ts' piping: the first default named
    [plugininstances] is rewritten when it is not empty, and ends the loop. *)
Fixpoint rewrite_plugininstances (id_to_title : gmap Z string)
  (defaults : list parameter_default) : outcome (list parameter_default) :=
  match defaults with
  | [] => Returned []
  | default_d :: rest =>
      if String.eqb (name default_d) "plugininstances"
      then
        if truthy (default default_d)
        then
          match default default_d with
          | VStr s =>
              match parent_titles id_to_title (py_split "," s) with
              | Returned ts =>
                  Returned ({| name := name default_d;
                               default := VStr (py_join "," ts) |} :: rest)
              | Raised e => Raised e
              | OutOfFuel => OutOfFuel
              end
          | _ => Raised AttributeError
          end
        else Returned (default_d :: rest)
      else
        match rewrite_plugininstances id_to_title rest with
        | Returned rest' => Returned (default_d :: rest')
        | Raised e => Raised e
        | OutOfFuel => OutOfFuel
        end
  end.

(** The second half of the body of [for title in tree_nodes_dict.keys()]:
    [tree] maps a title (or [None], the [previous] of a root) to the list of
    the titles of its children. *)
Definition link_title (nodes : odict tree_node)
  (tree : gmap (option string) (list string)) (title : string)
  : outcome (gmap (option string) (list string)) :=
  match tree !! Some title with
  | Some _ => Returned tree
  | None =>
      let tree := <[Some title := []]> tree in
      match odict_get nodes title with
      | None => Raised KeyError
      | Some n =>
          let prev_title := node_previous n in
          match tree !! prev_title with
          | Some children => Returned (<[prev_title := children ++ [title]]> tree)
          | None => Returned (<[prev_title := [title]]> tree)
          end
      end
  end.

(** The first half of that body: the defaults of a 'ts' piping are rewritten
    in place. *)
Definition process_ts (st : node_dicts) (nodes : odict tree_node) (title : string)
  : outcome (odict tree_node) :=
  match (is_ts_dict st !! title : option bool) with
  | None => Raised KeyError
  | Some false => Returned nodes
  | Some true =>
      match odict_get nodes title with
      | None => Raised KeyError
      | Some n =>
          match rewrite_plugininstances (id_to_title st) (plugin_parameter_defaults n) with
          | Returned defaults => Returned (odict_update (set_defaults defaults) title nodes)
          | Raised e => Raised e
          | OutOfFuel => OutOfFuel
          end
      end
  end.

Fixpoint link_titles (st : node_dicts) (nodes : odict tree_node)
  (tree : gmap (option string) (list string)) (titles : list string)
  : outcome (odict tree_node * gmap (option string) (list string)) :=
  match titles with
  | [] => Returned (nodes, tree)
  | title :: titles' =>
      match process_ts st nodes title with
      | Returned nodes' =>
          match link_title nodes' tree title with
          | Returned tree' => link_titles st nodes' tree' titles'
          | Raised e => Raised e
          | OutOfFuel => OutOfFuel
          end
      | Raised e => Raised e
      | OutOfFuel => OutOfFuel
      end
  end.

(** The breadth-first loop [while len(queue)]. *)
Fixpoint traverse (fuel : nat) (nodes : odict tree_node)
  (tree : gmap (option string) (list string)) (queue : list string)
  (plugin_tree : list tree_node) : outcome (list tree_node) :=
  match queue with
  | [] => Returned plugin_tree
  | curr_title :: queue' =>
      match fuel with
      | O => OutOfFuel
      | S fuel' =>
          match odict_get nodes curr_title, tree !! Some curr_title with
          | Some n, Some children =>
              traverse fuel' nodes tree (queue' ++ children) (plugin_tree ++ [n])
          | _, _ => Raised KeyError
          end
      end
  end.

Definition has_no_previous (kv : string * tree_node) : bool :=
  match node_previous (snd kv) with None => true | Some _ => false end.

Definition get_plugin_tree (fuel : nat) (t : default_tables)
  : outcome (list tree_node) :=
  let pipeline_default_parameters := get_default_parameters t in
  let st :=
    fold_left record_default pipeline_default_parameters
      {| tree_nodes_dict := []; id_to_title := ∅; is_ts_dict := ∅ |} in
  match List.filter has_no_previous (tree_nodes_dict st) with
  | [] => Raised IndexError
  | (root_title, _) :: _ =>
      match
        link_titles st (tree_nodes_dict st) {[ Some root_title := [] ]}
          (odict_keys (tree_nodes_dict st))
      with
      | Returned (nodes, tree) =>
          match odict_get nodes root_title, tree !! Some root_title with
          | Some root, Some children => traverse fuel nodes tree children [root]
          | _, _ => Raised KeyError
          end
      | Raised e => Raised e
      | OutOfFuel => OutOfFuel
      end
  end.

(** The title and the [previous] of every entry of [tree_nodes_dict]. *)
Definition prev_of (nodes : odict tree_node) : list (string * option string) :=
  map (fun kv => (fst kv, node_previous (snd kv))) nodes.

(** Every entry is filed under its own title. *)
Definition titled (nodes : odict tree_node) : Prop :=
  forall k n, In (k, n) nodes -> node_title n = k.

(** A plan without forward reference: the [previous] of each descriptor,
    when it has one, is the title of a descriptor that comes before it
    ([seen] holds the titles already passed). *)
Fixpoint no_forward_from (seen : list string) (plan : list tree_node) : Prop :=
  match plan with
  | [] => True
  | n :: plan' =>
      match node_previous n with
      | None => True
      | Some p => In p seen
      end /\ no_forward_from (seen ++ [node_title n]) plan'
  end.

Definition no_forward (plan : list tree_node) : Prop := no_forward_from [] plan.

(** What the second loop keeps true of [tree], for the titles and parents
    [P] of the descriptors: the root is a key; a list of children has no
    repetition; and a title listed under a key has that key as [previous], is
    a key itself, and is not the root. *)
Definition linked (P : list (string * option string)) (root : string)
  (tree : gmap (option string) (list string)) : Prop :=
  is_Some (tree !! Some root) /\
  forall k cs, tree !! k = Some cs ->
    List.NoDup cs /\
    forall c, In c cs -> In (c, k) P /\ is_Some (tree !! Some c) /\ c <> root.

(** What the breadth-first loop keeps true of the plan so far and of the
    queue: no title is met twice; a title in the queue is a key of [tree] and
    its [previous] is in the plan; the plan has no forward reference. *)
Definition walked (tree : gmap (option string) (list string))
  (P : list (string * option string))
  (acc : list tree_node) (queue : list string) : Prop :=
  List.NoDup (map node_title acc ++ queue) /\
  (forall c, In c queue ->
     is_Some (tree !! Some c) /\
     exists p, In (c, Some p) P /\ In p (map node_title acc)) /\
  no_forward acc /\
  (forall n, In n acc -> In (node_title n, node_previous n) P) /\
  (forall n p, In n acc -> node_previous n = Some p -> In p (map node_title acc)).

End Pipelines.

(** *** Sample pipelines *)

Module PipelineSamples.
Import Pipelines.

Definition ds_plugin : Plugin := {| plugin_pk := 10; meta := {| meta_type := "ds" |} |}.
Definition fs_plugin : Plugin := {| plugin_pk := 11; meta := {| meta_type := "fs" |} |}.

(** A chain of three pipings: 1 is the root, 2 follows 1, 3 follows 2. *)
Definition pip1 : PluginPiping :=
  {| id := 1; title := "root"; plugin := fs_plugin; previous := None |}.
Definition pip2 : PluginPiping :=
  {| id := 2; title := "mid"; plugin := ds_plugin; previous := Some pip1 |}.
Definition pip3 : PluginPiping :=
  {| id := 3; title := "leaf"; plugin := ds_plugin; previous := Some pip2 |}.

(** Its defaults: the root and the leaf have a string parameter, the piping
    between them an integer parameter. *)
Definition chain_defaults : default_tables :=
  {| string_param :=
       [ {| value := VStr "/in"; plugin_piping := pip1;
            plugin_param := {| param_name := "dir" |} |};
         {| value := VStr "x"; plugin_piping := pip3;
            plugin_param := {| param_name := "prefix" |} |} ];
     integer_param :=
       [ {| value := VInt 3; plugin_piping := pip2;
            plugin_param := {| param_name := "sleepLength" |} |} ];
     float_param := [];
     boolean_param := [] |}.

(** The same pipeline when the piping in the middle has a string parameter
    too: the defaults then come parent first. *)
Definition parent_first_defaults : default_tables :=
  {| string_param :=
       [ {| value := VStr "/in"; plugin_piping := pip1;
            plugin_param := {| param_name := "dir" |} |};
         {| value := VStr "fast"; plugin_piping := pip2;
            plugin_param := {| param_name := "mode" |} |};
         {| value := VStr "x"; plugin_piping := pip3;
            plugin_param := {| param_name := "prefix" |} |} ];
     integer_param :=
       [ {| value := VInt 3; plugin_piping := pip2;
            plugin_param := {| param_name := "sleepLength" |} |} ];
     float_param := [];
     boolean_param := [] |}.

(** The titles of a plan. *)
Definition plan_titles (plan : outcome (list tree_node)) : outcome (list string) :=
  match plan with
  | Returned l => Returned (map node_title l)
  | Raised e => Raised e
  | OutOfFuel => OutOfFuel
  end.

End PipelineSamples.

(** ** core/storage/swiftmanager.py *)

Module Swift.

(** *** The storage service and the client connection

    One call of a method of [swiftclient.Connection] is one request.  The
    world holds the container the manager is bound to, and a script of
    transport faults: each request consumes the head of [faults], and is
    answered by [ClientException(status)] when that head is [Some status]. *)

Inductive request : Type :=
| GetContainer (prefix : string) (full_listing : bool)
| HeadObject (obj : string)
| CopyObject (obj dest : string)
| DeleteObject (obj : string).

Record world : Type := {
  container_name : string;
  objects : list (string * string);  (* name and contents, in listing order *)
  faults : list (option Z);
  connect_faults : list (option Z);  (* the same, for [Connection(...)] *)
  _conn : bool;                      (* [self._conn is not None] *)
  requests : list request;
  sleeps : list Z                    (* milliseconds slept, oldest first *)
}.

(** Computations that read and change the world and may raise. *)
Definition M (A : Type) : Type := world -> outcome A * world.

Definition ret {A : Type} (a : A) : M A := fun w => (Returned a, w).

Definition raise {A : Type} (e : exn) : M A := fun w => (Raised e, w).

Definition bind {A B : Type} (c : M A) (k : A -> M B) : M B :=
  fun w =>
    match c w with
    | (Returned a, w') => k a w'
    | (Raised e, w') => (Raised e, w')
    | (OutOfFuel, w') => (OutOfFuel, w')
    end.

Notation "x <- c ;; k" := (bind c (fun x => k))
  (at level 100, c at next level, right associativity).
Notation "c ;;; k" := (bind c (fun _ => k))
  (at level 100, right associativity).

(** [try: c  except ClientException as e: handler(e.http_status)  else: k] *)
Definition try_except {A B : Type} (c : M A) (handler : Z -> M B) (k : A -> M B)
  : M B :=
  fun w =>
    match c w with
    | (Returned a, w') => k a w'
    | (Raised (ClientException status), w') => handler status w'
    | (Raised e, w') => (Raised e, w')
    | (OutOfFuel, w') => (OutOfFuel, w')
    end.

Definition set_objects (w : world) (objs : list (string * string)) : world :=
  {| container_name := container_name w; objects := objs; faults := faults w;
     connect_faults := connect_faults w; _conn := _conn w;
     requests := requests w; sleeps := sleeps w |}.

(** [time.sleep(0.4)] *)
Definition sleep (ms : Z) : M unit :=
  fun w =>
    (Returned tt,
     {| container_name := container_name w; objects := objects w;
        faults := faults w; connect_faults := connect_faults w;
        _conn := _conn w; requests := requests w;
        sleeps := sleeps w ++ [ms] |}).

(** A request is logged and takes the next fault of the script; without
    fault, the service answers it. *)
Definition send {A : Type} (r : request) (answer : world -> outcome A * world) : M A :=
  fun w =>
    let w' := {| container_name := container_name w; objects := objects w;
                 faults := tail (faults w); connect_faults := connect_faults w;
                 _conn := _conn w; requests := requests w ++ [r];
                 sleeps := sleeps w |} in
    match faults w with
    | Some status :: _ => (Raised (ClientException status), w')
    | _ => answer w'
    end.

Definition lookup_object (w : world) (obj : string) : option string :=
  snd <$> List.find (fun kv => String.eqb (fst kv) obj) (objects w).

(** The number of names a listing that is not full returns at most. *)
Definition page_size : nat := Z.to_nat 10000.

(** [conn.get_container(container, prefix=..., full_listing=...)[1]], as the
    list of the names *)
Definition get_container (prefix : string) (full_listing : bool) : M (list string) :=
  send (GetContainer prefix full_listing)
    (fun w =>
       let names :=
         List.filter (String.prefix prefix) (map fst (objects w)) in
       (Returned (if full_listing then names else take page_size names), w)).

(** [conn.head_object(container, obj)] *)
Definition head_object (obj : string) : M unit :=
  send (HeadObject obj)
    (fun w =>
       match lookup_object w obj with
       | Some _ => (Returned tt, w)
       | None => (Raised (ClientException 404), w)
       end).

(** Writing an object: in place when the name exists, at the end otherwise. *)
Fixpoint store (name contents : string) (objs : list (string * string))
  : list (string * string) :=
  match objs with
  | [] => [(name, contents)]
  | (n, c) :: objs' =>
      if String.eqb n name then (name, contents) :: objs'
      else (n, c) :: store name contents objs'
  end.

(** The object name a destination ["/container/name"] designates in the
    container of the world. *)
Definition dest_name (w : world) (dest : string) : option string :=
  let pre := "/" +:+ container_name w +:+ "/" in
  if String.prefix pre dest
  then Some (String.substring (String.length pre)
               (String.length dest - String.length pre) dest)
  else None.

(** [conn.copy_object(container, obj, dest)] *)
Definition copy_object (obj dest : string) : M unit :=
  send (CopyObject obj dest)
    (fun w =>
       match lookup_object w obj with
       | None => (Raised (ClientException 404), w)
       | Some contents =>
           match dest_name w dest with
           | Some name => (Returned tt, set_objects w (store name contents (objects w)))
           | None => (Returned tt, w)
           end
       end).

(** [conn.delete_object(container, obj)] *)
Definition delete_object (obj : string) : M unit :=
  send (DeleteObject obj)
    (fun w =>
       match lookup_object w obj with
       | None => (Raised (ClientException 404), w)
       | Some _ =>
           (Returned tt,
            set_objects w
              (List.filter (fun kv => negb (String.eqb (fst kv) obj)) (objects w)))
       end).

(** The constructor call [Connection(...)], whose result is kept in
    [self._conn]. *)
Definition connect : M unit :=
  fun w =>
    let w' conn :=
      {| container_name := container_name w; objects := objects w;
         faults := faults w; connect_faults := tail (connect_faults w);
         _conn := conn; requests := requests w; sleeps := sleeps w |} in
    match connect_faults w with
    | Some status :: _ => (Raised (ClientException status), w' (_conn w))
    | _ => (Returned tt, w' true)
    end.

(** *** [SwiftManager]

    Every method runs [for i in range(5)]: [n] counts the iterations left and
    [i] is the loop variable.  A method whose loop ends without [return]
    returns Python's [None]. *)

Fixpoint get_connection_loop (n : nat) (i : Z) : M unit :=
  match n with
  | O => ret tt
  | S n' =>
      try_except connect
        (fun status =>
           if (i =? 4)%Z then raise (ClientException status)
           else sleep 400 ;;; get_connection_loop n' (i + 1))
        (fun _ => ret tt)
  end.

Definition __get_connection : M unit :=
  fun w => if _conn w then (Returned tt, w) else get_connection_loop 5 0 w.

Fixpoint ls_loop (n : nat) (i : Z) (path : string) (b_full_listing : bool)
  : M (list string) :=
  match n with
  | O => ret []
  | S n' =>
      try_except (get_container path b_full_listing)
        (fun status =>
           if (i =? 4)%Z then raise (ClientException status)
           else sleep 400 ;;; ls_loop n' (i + 1) path b_full_listing)
        (fun ld_obj => ret ld_obj)
  end.

Definition _ls (path : string) (b_full_listing : bool) : M (list string) :=
  if String.eqb path "" then ret []
  else __get_connection ;;; ls_loop 5 0 path b_full_listing.

Definition ls (path : string) : M (list string) := _ls path true.

Definition path_exists (path : string) : M bool :=
  l <- _ls path false ;; ret (0 <? length l)%nat.

Fixpoint obj_exists_loop (n : nat) (i : Z) (obj_path : string) : M (option bool) :=
  match n with
  | O => ret None
  | S n' =>
      try_except (head_object obj_path)
        (fun status =>
           if (status =? 404)%Z then ret (Some false)
           else if (i =? 4)%Z then raise (ClientException status)
           else sleep 400 ;;; obj_exists_loop n' (i + 1) obj_path)
        (fun _ => ret (Some true))
  end.

Definition obj_exists (obj_path : string) : M (option bool) :=
  __get_connection ;;; obj_exists_loop 5 0 obj_path.

(** [s.lstrip('/')] *)
Fixpoint lstrip_slash (s : string) : string :=
  match s with
  | String "/" s' => lstrip_slash s'
  | _ => s
  end.

(** [os.path.join(a, b)] (posix) *)
Definition os_path_join (a b : string) : string :=
  match b with
  | String "/" _ => b
  | _ =>
      match String.rev a with
      | "" => b
      | String "/" _ => a +:+ b
      | _ => a +:+ "/" +:+ b
      end
  end.

Fixpoint copy_obj_loop (n : nat) (i : Z) (obj_path dest : string) : M unit :=
  match n with
  | O => ret tt
  | S n' =>
      try_except (copy_object obj_path dest)
        (fun status =>
           if (i =? 4)%Z then raise (ClientException status)
           else sleep 400 ;;; copy_obj_loop n' (i + 1) obj_path dest)
        (fun _ => ret tt)
  end.

Definition copy_obj (obj_path dest_path : string) : M unit :=
  __get_connection ;;;
  fun w =>
    let dest := os_path_join ("/" +:+ container_name w) (lstrip_slash dest_path) in
    copy_obj_loop 5 0 obj_path dest w.

Fixpoint delete_obj_loop (n : nat) (i : Z) (obj_path : string) : M unit :=
  match n with
  | O => ret tt
  | S n' =>
      try_except (delete_object obj_path)
        (fun status =>
           if (i =? 4)%Z then raise (ClientException status)
           else sleep 400 ;;; delete_obj_loop n' (i + 1) obj_path)
        (fun _ => ret tt)
  end.

Definition delete_obj (obj_path : string) : M unit :=
  __get_connection ;;; delete_obj_loop 5 0 obj_path.

(** *** States of the world the properties speak of *)

(** The connection is there, or the next call of the constructor succeeds. *)
Definition connected (w : world) : Prop :=
  _conn w = true \/
  match connect_faults w with Some _ :: _ => False | _ => True end.

(** The next request is answered by the service, not by a fault. *)
Definition answered (script : list (option Z)) : Prop :=
  match script with Some _ :: _ => False | _ => True end.

(** The answer of the service to [head_object], as [obj_exists] reads it. *)
Definition present (obj_path : string) (w : world) : bool :=
  match lookup_object w obj_path with Some _ => true | None => false end.

(** *** [pathlib.Path] (a pure posix path)

    A path is its anchor (none, ["/"] or ["//"]) and the names after it;
    Python's [parts] is the anchor, when there is one, followed by the
    names. *)

Record Path : Type := {
  anchor : string;
  names : list string
}.

Fixpoint leading_slashes (s : string) : nat :=
  match s with
  | String "/" s' => S (leading_slashes s')
  | _ => O
  end.

Definition is_name (part : string) : bool :=
  negb (String.eqb part "") && negb (String.eqb part ".").

(** [Path(s)] *)
Definition Path_of (s : string) : Path :=
  {| anchor :=
       match leading_slashes s with
       | O => ""
       | 2%nat => "//"
       | _ => "/"
       end;
     names := List.filter is_name (py_split "/" s) |}.

(** [Path] applied to the elements of [args]: they are joined as
    [os.path.join] does, and the result is parsed. *)
Definition Path_of_args (args : list string) : Path :=
  match args with
  | [] => Path_of ""
  | a :: rest => Path_of (fold_left os_path_join rest a)
  end.

(** [p.name] *)
Definition Path_name (p : Path) : string :=
  match last (names p) with
  | Some n => n
  | None => ""
  end.

Fixpoint strip_prefix (pre l : list string) : option (list string) :=
  match pre, l with
  | [], _ => Some l
  | x :: pre', y :: l' => if String.eqb x y then strip_prefix pre' l' else None
  | _ :: _, [] => None
  end.

(** [p.relative_to(other)]; [None] stands for [ValueError]. *)
Definition relative_to (p other : Path) : option Path :=
  if String.eqb (anchor p) (anchor other)
  then (fun rest => {| anchor := ""; names := rest |})
         <$> strip_prefix (names other) (names p)
  else None.

(** [p / q] *)
Definition Path_div (p q : Path) : Path :=
  if String.eqb (anchor q) ""
  then {| anchor := anchor p; names := names p ++ names q |}
  else q.

(** [str(p)] *)
Definition Path_str (p : Path) : string :=
  match names p with
  | [] => if String.eqb (anchor p) "" then "." else anchor p
  | _ => anchor p +:+ py_join "/" (names p)
  end.

(** [p == q] *)
Definition Path_eqb (p q : Path) : bool :=
  String.eqb (anchor p) (anchor q)
  && bool_decide (names p = names q).

(** *** [sanitize_obj_names] *)

(** The inner loop [for part in p_obj.relative_to(p).parts]. *)
Fixpoint new_parts (parts : list string) : list string :=
  match parts with
  | [] => []
  | part :: parts' =>
      let new_part := py_remove "," part in
      if negb (String.eqb (py_strip new_part) "")
      then new_part :: new_parts parts'
      else new_parts parts'
  end.

(** The body of the loop [for obj_path in l_ls]. *)
Definition sanitize_obj (p : Path) (new_obj_paths : gmap string string)
  (obj_path : string) : M (gmap string string) :=
  let p_obj := Path_of obj_path in
  if String.eqb (py_strip (py_remove "," (Path_name p_obj))) ""
  then
    delete_obj obj_path ;;;
    ret (<[obj_path := ""]> new_obj_paths)
  else
    match relative_to p_obj p with
    | None => raise ValueError
    | Some rel =>
        let new_p_obj := Path_div p (Path_of_args (new_parts (names rel))) in
        if negb (Path_eqb new_p_obj p_obj)
        then
          let new_obj_path := Path_str new_p_obj in
          copy_obj obj_path new_obj_path ;;;
          delete_obj obj_path ;;;
          ret (<[obj_path := new_obj_path]> new_obj_paths)
        else ret new_obj_paths
    end.

Fixpoint sanitize_objs (p : Path) (new_obj_paths : gmap string string)
  (l_ls : list string) : M (gmap string string) :=
  match l_ls with
  | [] => ret new_obj_paths
  | obj_path :: l_ls' =>
      new_obj_paths' <- sanitize_obj p new_obj_paths obj_path ;;
      sanitize_objs p new_obj_paths' l_ls'
  end.

(** [len(l_ls) != 1 or l_ls[0] != path] *)
Definition is_prefix_listing (l_ls : list string) (path : string) : bool :=
  match l_ls with
  | [obj] => negb (String.eqb obj path)
  | _ => true
  end.

Definition sanitize_obj_names (path : string) : M (gmap string string) :=
  l_ls <- ls path ;;
  if is_prefix_listing l_ls path
  then sanitize_objs (Path_of path) ∅ l_ls
  else ret ∅.

End Swift.

(** *** Sample containers *)

Module SwiftSamples.
Import Swift.

Definition empty_world : world :=
  {| container_name := "users"; objects := []; faults := [];
     connect_faults := []; _conn := false; requests := []; sleeps := [] |}.

(** The container of the sanitization example. *)
Definition pipelines_world : world :=
  set_objects empty_world
    [("PIPELINES/a,b/ ,,/x.txt", "x"); ("PIPELINES/a,b/c, .txt", "c")].

(** A container whose single object has commas and a blank component. *)
Definition single_object_world : world :=
  set_objects empty_world [("a,b/ ,/c, .txt", "c")].

(** A container with an object whose leaf name is made of commas and blanks. *)
Definition blank_leaf_world : world :=
  set_objects empty_world [("PIPELINES/a/ ,, ", "z"); ("PIPELINES/a/b.txt", "b")].

(** A connected world with one object and a script of faults. *)
Definition faulty_world (script : list (option Z)) : world :=
  {| container_name := "users"; objects := [("home/alice/f.txt", "f")];
     faults := script; connect_faults := []; _conn := true;
     requests := []; sleeps := [] |}.

End SwiftSamples.

(** *** Paths as prefixes: [copy_path], [move_path], [delete_path] *)

Module SwiftPaths.
Import Swift.

(** What is left of [s] after the prefix [old], when [s] starts with it. *)
Fixpoint strip_start (old s : string) : option string :=
  match old, s with
  | "", _ => Some s
  | String a old', String b s' =>
      if Ascii.eqb a b then strip_start old' s' else None
  | String _ _, "" => None
  end.

(** [s.replace(old, new, 1)] *)
Fixpoint py_replace_first (old new s : string) : string :=
  match strip_start old s with
  | Some rest => new +:+ rest
  | None =>
      match s with
      | "" => ""
      | String c s' => String c (py_replace_first old new s')
      end
  end.

(** The loop [for obj_path in l_ls] of [copy_path]. *)
Fixpoint copy_objs (src dst : string) (l_ls : list string) : M unit :=
  match l_ls with
  | [] => ret tt
  | obj_path :: l_ls' =>
      let new_obj_path := py_replace_first src dst obj_path in
      copy_obj obj_path new_obj_path ;;;
      copy_objs src dst l_ls'
  end.

Definition copy_path (src dst : string) : M unit :=
  l_ls <- ls src ;; copy_objs src dst l_ls.

(** The loop of [move_path]. *)
Fixpoint move_objs (src dst : string) (l_ls : list string) : M unit :=
  match l_ls with
  | [] => ret tt
  | obj_path :: l_ls' =>
      let new_obj_path := py_replace_first src dst obj_path in
      copy_obj obj_path new_obj_path ;;;
      delete_obj obj_path ;;;
      move_objs src dst l_ls'
  end.

Definition move_path (src dst : string) : M unit :=
  l_ls <- ls src ;; move_objs src dst l_ls.

(** The loop of [delete_path]. *)
Fixpoint delete_objs (l_ls : list string) : M unit :=
  match l_ls with
  | [] => ret tt
  | obj_path :: l_ls' => delete_obj obj_path ;;; delete_objs l_ls'
  end.

Definition delete_path (path : string) : M unit :=
  l_ls <- ls path ;; delete_objs l_ls.

(** The names of the objects of the container, in listing order. *)
Definition object_names (w : world) : list string := map fst (objects w).

(** A request that removes no object. *)
Definition keeps_objects (r : request) : bool :=
  match r with
  | DeleteObject _ => false
  | _ => true
  end.

(** The connection is there and no fault is scripted. *)
Definition calm (w : world) : Prop := _conn w = true /\ faults w = [].

(** From [w] to [w'] no object name is lost and no request sent removes an
    object. *)
Definition extends (w w' : world) : Prop :=
  incl (object_names w) (object_names w') /\
  exists sent,
    requests w' = requests w ++ sent /\ forallb keeps_objects sent = true.

(** From [w] to [w'] no object is lost whose name does not start with
    [path]. *)
Definition keeps_outside (path : string) (w w' : world) : Prop :=
  forall name,
    In name (object_names w) -> String.prefix path name = false ->
    In name (object_names w').

End SwiftPaths.

(** *** What sanitization decides for an object *)

Module SanitizePlan.
Import Swift.

(** The four ways through the body of the loop [for obj_path in l_ls] of
    [sanitize_obj_names]. *)
Inductive fate : Type :=
| Kept                              (* the final path is the same *)
| Deleted                           (* the leaf name is left blank *)
| Renamed (new_obj_path : string)   (* copied to the new path, then deleted *)
| NotBelow.                         (* [relative_to] raises [ValueError] *)

(** The way the body takes for [obj_path]: the tests of the body, which read
    nothing but the two paths. *)
Definition fate_of (p : Path) (obj_path : string) : fate :=
  let p_obj := Path_of obj_path in
  if String.eqb (py_strip (py_remove "," (Path_name p_obj))) "" then Deleted
  else
    match relative_to p_obj p with
    | None => NotBelow
    | Some rel =>
        let new_p_obj := Path_div p (Path_of_args (new_parts (names rel))) in
        if negb (Path_eqb new_p_obj p_obj)
        then Renamed (Path_str new_p_obj)
        else Kept
    end.

(** The value [new_obj_paths] gets for the object, when it gets one. *)
Definition entry_of (f : fate) : option string :=
  match f with
  | Deleted => Some ""
  | Renamed new_obj_path => Some new_obj_path
  | Kept | NotBelow => None
  end.

(** The requests [delete_obj] and [copy_obj] send on that way when none of
    them fails. *)
Definition requests_of (container obj_path : string) (f : fate) : list request :=
  match f with
  | Deleted => [DeleteObject obj_path]
  | Renamed new_obj_path =>
      [CopyObject obj_path
         (os_path_join ("/" +:+ container) (lstrip_slash new_obj_path));
       DeleteObject obj_path]
  | Kept | NotBelow => []
  end.

End SanitizePlan.

(** *** Names of parameters, required defaults and access to pipelines *)

Module PipelineQueries.
Import Pipelines.

(** [pip.previous.id if pip.previous else 'null'], as ['%s'] formats it *)
Definition prev_pip_id (pip : PluginPiping) : string :=
  match previous pip with
  | Some prev => py_str (id prev)
  | None => "null"
  end.

(** ['%s_%s_%s_%s' % (plg.id, pip.id, prev_pip_id, param.name)] *)
Definition param_full_name (pip : PluginPiping) (param : PluginParameter)
  : string :=
  py_str (plugin_pk (plugin pip)) +:+ "_" +:+ py_str (id pip) +:+ "_"
  +:+ prev_pip_id pip +:+ "_" +:+ param_name param.

(** [get_pipings_parameters_names]: [parameters plg] is
    [plg.parameters.all()] and [pipings] is [self.plugin_pipings.all()]. *)
Definition get_pipings_parameters_names
  (parameters : Plugin -> list PluginParameter) (pipings : list PluginPiping)
  : list string :=
  flat_map (fun pip => map (param_full_name pip) (parameters (plugin pip)))
    pipings.

(** [typed_parameters.all()]: the rows of a table whose piping is [pip]. *)
Definition typed_parameters (pip : PluginPiping)
  (rows : list DefaultPipingParameter) : list DefaultPipingParameter :=
  List.filter (fun r => Z.eqb (id (plugin_piping r)) (id pip)) rows.

(** The loop [for parameter in typed_parameters.all()]. *)
Fixpoint check_values (rows : list DefaultPipingParameter) : outcome unit :=
  match rows with
  | [] => Returned tt
  | parameter :: rows' =>
      match value parameter with
      | VNone => Raised ValueError
      | _ => check_values rows'
      end
  end.

(** The loop [for type in DEFAULT_PIPING_PARAMETER_MODELS], on the tables in
    the order of the keys of the dictionary. *)
Fixpoint check_tables (pip : PluginPiping)
  (tables : list (list DefaultPipingParameter)) : outcome unit :=
  match tables with
  | [] => Returned tt
  | rows :: tables' =>
      match check_values (typed_parameters pip rows) with
      | Returned _ => check_tables pip tables'
      | r => r
      end
  end.

(** [PluginPiping.check_parameter_defaults] *)
Definition piping_check_parameter_defaults (t : default_tables)
  (pip : PluginPiping) : outcome unit :=
  check_tables pip [string_param t; integer_param t; float_param t; boolean_param t].

(** [Pipeline.check_parameter_defaults] *)
Fixpoint check_parameter_defaults (t : default_tables)
  (pipings : list PluginPiping) : outcome unit :=
  match pipings with
  | [] => Returned tt
  | piping :: pipings' =>
      match piping_check_parameter_defaults t piping with
      | Returned _ => check_parameter_defaults t pipings'
      | r => r
      end
  end.

(** The user of a request: [is_authenticated] is [False] for Django's
    anonymous user. *)
Record User : Type := {
  user_id : Z;
  username : string;
  is_authenticated : bool
}.

Record Pipeline : Type := {
  pipeline_name : string;
  locked : bool;
  owner : option Z
}.

(** [Q(owner=user)]: a pipeline without owner matches no user. *)
Definition owned_by (user : User) (p : Pipeline) : bool :=
  match owner p with
  | Some k => Z.eqb k (user_id user)
  | None => false
  end.

(** [get_accesible_pipelines]; [queryset] is [Pipeline.objects.all()]. *)
Definition get_accesible_pipelines (queryset : list Pipeline) (user : User)
  : list Pipeline :=
  if is_authenticated user then
    if String.eqb (username user) "chris" then queryset
    else List.filter (fun p => negb (locked p) || owned_by user p) queryset
  else List.filter (fun p => negb (locked p)) queryset.

End PipelineQueries.

(** *** The storage of a deleted source file *)

Module SourceFiles.
Import Swift.

(** [auto_delete_file_from_storage], for a storage manager that is a
    [SwiftManager]: the body of the [try], then the handler of
    [except Exception], which logs the error and goes on. *)
Definition auto_delete_file_from_storage (storage_path : string) : M unit :=
  fun w =>
    match
      (found <- obj_exists storage_path ;;
       match found with
       | Some true => delete_obj storage_path
       | _ => ret tt
       end) w
    with
    | (Raised _, w') => (Returned tt, w')
    | r => r
    end.

End SourceFiles.

(** *** The defaults a piping is saved with *)

Module PipingDefaults.
Import Pipelines.

(** A parameter of the plugin of the piping.  [plugin_default] is the value
    of [parameter.get_default()], [None] when the parameter has no
    default. *)
Record TypedParameter : Type := {
  param_pk : Z;
  parameter_name : string;
  parameter_type : string;
  plugin_default : option py_value
}.

(** The classes of the four tables of defaults. *)
Inductive model_class : Type := StrModel | IntModel | FloatModel | BoolModel.

#[export] Instance model_class_eq_dec : EqDecision model_class.
Proof. solve_decision. Defined.

(** [DEFAULT_PIPING_PARAMETER_MODELS[type]]; [None] stands for [KeyError]. *)
Definition DEFAULT_PIPING_PARAMETER_MODELS (type : string) : option model_class :=
  if String.eqb type "string" then Some StrModel
  else if String.eqb type "integer" then Some IntModel
  else if String.eqb type "float" then Some FloatModel
  else if String.eqb type "boolean" then Some BoolModel
  else None.

(** The four tables.  Each declares [unique_together] on the piping and the
    parameter, so a table is a map from that pair of keys to the value. *)
Record default_rows : Type := {
  string_rows : gmap (Z * Z) py_value;
  integer_rows : gmap (Z * Z) py_value;
  float_rows : gmap (Z * Z) py_value;
  boolean_rows : gmap (Z * Z) py_value
}.

(** [default_model_class.objects] *)
Definition rows_of (c : model_class) (db : default_rows) : gmap (Z * Z) py_value :=
  match c with
  | StrModel => string_rows db
  | IntModel => integer_rows db
  | FloatModel => float_rows db
  | BoolModel => boolean_rows db
  end.

Definition set_rows (c : model_class) (m : gmap (Z * Z) py_value)
  (db : default_rows) : default_rows :=
  match c with
  | StrModel =>
      {| string_rows := m; integer_rows := integer_rows db;
         float_rows := float_rows db; boolean_rows := boolean_rows db |}
  | IntModel =>
      {| string_rows := string_rows db; integer_rows := m;
         float_rows := float_rows db; boolean_rows := boolean_rows db |}
  | FloatModel =>
      {| string_rows := string_rows db; integer_rows := integer_rows db;
         float_rows := m; boolean_rows := boolean_rows db |}
  | BoolModel =>
      {| string_rows := string_rows db; integer_rows := integer_rows db;
         float_rows := float_rows db; boolean_rows := m |}
  end.

(** [[d for d in param_defaults if d['name'] == parameter.name]] *)
Definition named (param_defaults : list parameter_default)
  (parameter : TypedParameter) : list parameter_default :=
  List.filter (fun d => String.eqb (name d) (parameter_name parameter))
    param_defaults.

(** What the column [value] of a table does with the value a row is saved
    with: it stores it, or the value it converts it to (['3'] becomes [3]
    in an integer column), or it refuses it.  These conversions are those of
    Django's fields and of the database, not of the repository. *)
Definition column : Type := model_class -> py_value -> outcome py_value.

(** [default_piping_param.save()], for the value of the row: [None] is
    stored as NULL, the four columns being declared [null=True]. *)
Definition to_column (prep : column) (c : model_class) (value : py_value)
  : outcome py_value :=
  match value with
  | VNone => Returned VNone
  | _ => prep c value
  end.

(** The body of the loop [for parameter in parameters] of
    [PluginPiping.save]; [self] is the key of the piping. *)
Definition save_parameter (prep : column) (self : Z)
  (param_defaults : list parameter_default)
  (db : default_rows) (parameter : TypedParameter) : outcome default_rows :=
  let param := named param_defaults parameter in
  match DEFAULT_PIPING_PARAMETER_MODELS (parameter_type parameter) with
  | None => Raised KeyError
  | Some default_model_class =>
      let key := (self, param_pk parameter) in
      let objects := rows_of default_model_class db in
      let save_row value :=
        match to_column prep default_model_class value with
        | Returned stored =>
            Returned (set_rows default_model_class (<[key := stored]> objects) db)
        | Raised e => Raised e
        | OutOfFuel => OutOfFuel
        end in
      match objects !! key with
      | None =>
          save_row
            match param with
            | d :: _ => default d
            | [] =>
                match plugin_default parameter with
                | Some v => v
                | None => VNone
                end
            end
      | Some _ =>
          match param with
          | d :: _ => save_row (default d)
          | [] => Returned db
          end
      end
  end.

(** [PluginPiping.save], after the row of the piping itself is saved:
    [parameters] is [plugin.parameters.all()] and [param_defaults] the
    keyword argument [parameter_defaults], [[]] when it is not given. *)
Fixpoint save (prep : column) (self : Z)
  (param_defaults : list parameter_default)
  (parameters : list TypedParameter) (db : default_rows) : outcome default_rows :=
  match parameters with
  | [] => Returned db
  | parameter :: parameters' =>
      match save_parameter prep self param_defaults db parameter with
      | Returned db' => save prep self param_defaults parameters' db'
      | r => r
      end
  end.

(** The value the default of [parameter] has after a save, in the table of
    class [c]: what the column makes of the one given for its name, else the
    one it had, else what the column makes of the default of the plugin
    parameter, or of [None]. *)
Definition saved_value (prep : column) (self : Z)
  (param_defaults : list parameter_default)
  (db : default_rows) (c : model_class) (parameter : TypedParameter)
  : outcome py_value :=
  match named param_defaults parameter with
  | d :: _ => to_column prep c (default d)
  | [] =>
      match rows_of c db !! (self, param_pk parameter) with
      | Some v => Returned v
      | None =>
          to_column prep c
            match plugin_default parameter with
            | Some v => v
            | None => VNone
            end
      end
  end.

(** What the body does for [parameter]: [KeyError] when its type has no
    table, the value saved otherwise. *)
Definition step_of (prep : column) (self : Z)
  (param_defaults : list parameter_default)
  (db : default_rows) (parameter : TypedParameter) : outcome py_value :=
  match DEFAULT_PIPING_PARAMETER_MODELS (parameter_type parameter) with
  | None => Raised KeyError
  | Some c => saved_value prep self param_defaults db c parameter
  end.

End PipingDefaults.

Module PipingSamples.
Import Pipelines PipingDefaults.

Definition dir_param : TypedParameter :=
  {| param_pk := 1; parameter_name := "dir"; parameter_type := "string";
     plugin_default := Some (VStr "/") |}.
Definition n_param : TypedParameter :=
  {| param_pk := 2; parameter_name := "n"; parameter_type := "integer";
     plugin_default := None |}.
Definition no_rows : default_rows :=
  {| string_rows := ∅; integer_rows := ∅; float_rows := ∅; boolean_rows := ∅ |}.
Definition n_given : list parameter_default := [ {| name := "n"; default := VStr "3" |} ].

(** Columns for the examples: each takes the values of its own type as they
    are, the integer column an [int] of 64 bits only, and the numeral of
    such an [int] as that [int]; the other values are not used in the
    examples, where the columns refuse them. *)
Definition fits_64 (n : Z) : bool := (- 2 ^ 63 <=? n)%Z && (n <? 2 ^ 63)%Z.

Definition example_columns : column :=
  fun c value =>
    match c, value with
    | StrModel, VStr _ => Returned value
    | IntModel, VInt n => if fits_64 n then Returned value else Raised OverflowError
    | IntModel, VStr s =>
        match py_int s with
        | Some n => if fits_64 n then Returned (VInt n) else Raised OverflowError
        | None => Raised ValueError
        end
    | FloatModel, VFloat _ => Returned value
    | BoolModel, VBool _ => Returned value
    | _, _ => Raised ValueError
    end.

End PipingSamples.

(** * Properties *)

(** ** Lineage walks: [get_root_instance] and [get_output_path] *)

Module LineageFacts.
Import PluginInstances.

Lemma append_assoc (a b c : string) : (a +:+ b) +:+ c = a +:+ (b +:+ c).
Proof.
  induction a as [|ch a IH]; [reflexivity |].
  change (String ch ((a +:+ b) +:+ c) = String ch (a +:+ (b +:+ c))).
  now rewrite IH.
Qed.

Lemma join_segments_app (l1 l2 : list PluginInstance) :
  join_segments (l1 ++ l2) = join_segments l1 +:+ join_segments l2.
Proof.
  induction l1 as [|x l1 IH]; [reflexivity |].
  cbn [join_segments app]. rewrite IH. symmetry. apply append_assoc.
Qed.

Lemma append_empty_r (s : string) : s +:+ "" = s.
Proof.
  induction s as [|c s IH]; [reflexivity |].
  change (String c (s +:+ "") = String c s). now rewrite IH.
Qed.

Lemma join_segments_snoc (l : list PluginInstance) (x : PluginInstance) :
  join_segments (l ++ [x]) = join_segments l +:+ segment x.
Proof.
  rewrite join_segments_app. cbn [join_segments].
  now rewrite append_empty_r.
Qed.

Lemma follow_previous_parent (db : table) (x p : PluginInstance) :
  previous x = Some (id p) -> get_pk db (id p) = Some p ->
  follow_previous db x = Returned p.
Proof. intros Hprev Hget. unfold follow_previous. now rewrite Hprev, Hget. Qed.

Lemma lineage_nonempty (db : table) (x : PluginInstance) (chain : list PluginInstance) :
  lineage db x chain -> exists rest, chain = x :: rest.
Proof. intros H; destruct H; eauto. Qed.

(** The root walk along a lineage ends at the last row of the chain. *)
Lemma get_root_instance_lineage (db : table) (x : PluginInstance)
  (chain : list PluginInstance) :
  lineage db x chain ->
  exists root,
    last chain = Some root /\ is_fs root = true /\
    forall fuel, (length chain <= S fuel)%nat ->
      get_root_instance fuel db x = Returned root.
Proof.
  induction 1 as [x Hfs | x p chain Hfs Hprev Hget Hlin IH].
  - exists x. repeat split; [assumption |].
    intros fuel _. destruct fuel; simpl; now rewrite Hfs.
  - destruct IH as (root & Hlast & Hroot & Hrun).
    exists root. repeat split; [| assumption |].
    + destruct (lineage_nonempty _ _ _ Hlin) as [rest ->]. exact Hlast.
    + intros fuel Hlen.
      destruct (lineage_nonempty _ _ _ Hlin) as [rest Hrest].
      rewrite Hrest in Hlen. simpl in Hlen.
      destruct fuel as [|fuel]; [lia |].
      simpl. rewrite Hfs, (follow_previous_parent db x p Hprev Hget).
      apply Hrun. rewrite Hrest. simpl. lia.
Qed.

(** The loop of [get_output_path] along a lineage: one segment is put in
    front of the path for each proper ancestor, the root's first. *)
Lemma output_path_loop_lineage (db : table) (x : PluginInstance)
  (chain : list PluginInstance) :
  lineage db x chain ->
  exists root,
    last chain = Some root /\
    forall fuel path, (length chain <= S fuel)%nat ->
      output_path_loop fuel db x path
      = Returned (root, join_segments (rev (tail chain)) +:+ path).
Proof.
  induction 1 as [x Hfs | x p chain Hfs Hprev Hget Hlin IH].
  - exists x. split; [reflexivity |].
    intros fuel path _. destruct fuel; simpl; now rewrite Hfs.
  - destruct IH as (root & Hlast & Hrun).
    exists root. split.
    + destruct (lineage_nonempty _ _ _ Hlin) as [rest ->]. exact Hlast.
    + intros fuel path Hlen.
      destruct (lineage_nonempty _ _ _ Hlin) as [rest Hrest].
      rewrite Hrest in Hlen. simpl in Hlen.
      destruct fuel as [|fuel]; [lia |].
      simpl output_path_loop.
      rewrite Hfs, (follow_previous_parent db x p Hprev Hget).
      rewrite Hrun by (rewrite Hrest; simpl; lia).
      rewrite Hrest. cbn [tail rev].
      now rewrite join_segments_snoc, append_assoc.
Qed.

(** C1. For a node of a well-formed lineage (its chain of [previous] links
    ends at a row of type "fs" whose feed is set), [get_output_path] returns
    [{owner.username}/feed_{feed.id}], then one [/{plugin.name}_{id}] segment
    per row of the chain from the root down to the queried node, whose segment
    comes last, then [/data]; and every call that is given enough iterations
    returns that same string. *)
Theorem get_output_path_of_lineage (db : table) (self root : PluginInstance)
  (chain : list PluginInstance) (f : Feed) :
  lineage db self chain ->
  last chain = Some root ->
  feed root = Some f ->
  (exists ancestors, rev chain = ancestors ++ [self]) /\
  forall fuel, (length chain <= S fuel)%nat ->
    get_output_path fuel db self
    = Returned (username (owner self) +:+ "/feed_" +:+ py_str (feed_id f)
                +:+ join_segments (rev chain) +:+ "/data")
    /\ forall fuel', (length chain <= S fuel')%nat ->
         get_output_path fuel' db self = get_output_path fuel db self.
Proof.
  intros Hlin Hlast Hfeed.
  destruct (lineage_nonempty _ _ _ Hlin) as [rest Hchain].
  split.
  { exists (rev rest). now rewrite Hchain. }
  destruct (output_path_loop_lineage db self chain Hlin) as (root' & Hlast' & Hrun).
  assert (root' = root) as -> by congruence.
  assert (Hval : forall fuel, (length chain <= S fuel)%nat ->
    get_output_path fuel db self
    = Returned (username (owner self) +:+ "/feed_" +:+ py_str (feed_id f)
                +:+ join_segments (rev chain) +:+ "/data")).
  { intros fuel Hlen. unfold get_output_path.
    rewrite Hrun by assumption. rewrite Hfeed.
    do 4 f_equal. rewrite Hchain. cbn [tail rev].
    now rewrite join_segments_snoc, append_assoc. }
  intros fuel Hlen. split; [now apply Hval |].
  intros fuel' Hlen'. now rewrite !Hval.
Qed.

(** A closed set of rows that are not of type "fs" is never left: the walk
    is still running whatever the number of iterations. *)
Lemma get_root_instance_cycle (db : table) (ids : list Z) :
  closed_cycle db ids = true ->
  forall fuel x,
    get_pk db (id x) = Some x -> In (id x) ids ->
    get_root_instance fuel db x = OutOfFuel.
Proof.
  intros Hclosed. unfold closed_cycle in Hclosed.
  rewrite forallb_forall in Hclosed.
  induction fuel as [|fuel IH]; intros x Hx Hin.
  - specialize (Hclosed _ Hin). rewrite Hx in Hclosed.
    apply andb_prop in Hclosed as [Hfs _].
    simpl. now destruct (is_fs x).
  - pose proof (Hclosed _ Hin) as Hc. rewrite Hx in Hc.
    apply andb_prop in Hc as [Hfs Hprev].
    destruct (previous x) as [k'|] eqn:Hp; [| discriminate].
    apply existsb_exists in Hprev as (k'' & Hin' & Heq).
    apply Z.eqb_eq in Heq. subst k''.
    pose proof (Hclosed _ Hin') as Hc'.
    destruct (get_pk db k') as [p|] eqn:Hget; [| discriminate].
    assert (Hid : id p = k').
    { unfold get_pk in Hget. apply find_some in Hget as [_ Hk]. now apply Z.eqb_eq. }
    simpl. destruct (is_fs x); [discriminate |].
    unfold follow_previous. rewrite Hp, Hget.
    apply IH; rewrite Hid; assumption.
Qed.

(** A chain that runs into a row without parent before any row of type "fs":
    the loop test is evaluated on [None]. *)
Lemma get_root_instance_broken (db : table) (x : PluginInstance)
  (chain : list PluginInstance) :
  broken_lineage db x chain ->
  forall fuel, (length chain <= fuel)%nat ->
    get_root_instance fuel db x = Raised AttributeError.
Proof.
  induction 1 as [x Hfs Hnone | x p chain Hfs Hprev Hget Hbr IH];
    intros fuel Hlen; simpl in Hlen;
    (destruct fuel as [|fuel]; [lia |]); simpl; rewrite Hfs.
  - unfold follow_previous. now rewrite Hnone.
  - rewrite (follow_previous_parent db x p Hprev Hget). apply IH. lia.
Qed.

(** C2, as the code has it.  On a well-formed lineage the walk returns, after
    at most one iteration per link, a row of type "fs".  On rows that lie on a
    cycle without any row of type "fs" it never returns and never raises: no
    bound is kept.  On a chain that reaches a row without parent before any
    row of type "fs" it raises [AttributeError]. *)
Theorem get_root_instance_walk (db : table) (x : PluginInstance) :
  (forall chain, lineage db x chain ->
     exists root, last chain = Some root /\ is_fs root = true /\
       forall fuel, (length chain <= S fuel)%nat ->
         get_root_instance fuel db x = Returned root) /\
  (forall ids, closed_cycle db ids = true ->
     get_pk db (id x) = Some x -> In (id x) ids ->
     forall fuel, get_root_instance fuel db x = OutOfFuel) /\
  (forall chain, broken_lineage db x chain ->
     forall fuel, (length chain <= fuel)%nat ->
       get_root_instance fuel db x = Raised AttributeError).
Proof.
  split; [| split].
  - intros chain Hlin. now apply get_root_instance_lineage.
  - intros ids Hclosed Hx Hin fuel. now apply (get_root_instance_cycle db ids).
  - intros chain Hbr fuel Hlen. now apply (get_root_instance_broken db x chain).
Qed.

Import LineageSamples.

Lemma get_output_path_of_lineage_witness :
  get_output_path 2 feed_table n3
  = Returned "alice/feed_7/dircopy_1/simpledsapp_2/simpledsapp_3/data".
Proof.
  assert (Hlin : lineage feed_table n3 [n3; n2; n1]).
  { apply (lineage_step feed_table n3 n2); [reflexivity | reflexivity | reflexivity |].
    apply (lineage_step feed_table n2 n1); [reflexivity | reflexivity | reflexivity |].
    apply lineage_root. reflexivity. }
  destruct (get_output_path_of_lineage feed_table n3 n1 [n3; n2; n1] feed7
              Hlin eq_refl eq_refl) as [_ Hrun].
  destruct (Hrun 2%nat ltac:(simpl; lia)) as [Hval _].
  exact Hval.
Defined.

Lemma get_root_instance_walk_witness :
  get_root_instance 2 feed_table n3 = Returned n1 /\
  get_root_instance 5 cyclic_table c1 = OutOfFuel /\
  get_root_instance 2 broken_table b2 = Raised AttributeError.
Proof.
  split; [| split].
  - destruct (get_root_instance_walk feed_table n3) as [Hwell _].
    assert (Hlin : lineage feed_table n3 [n3; n2; n1]).
    { apply (lineage_step feed_table n3 n2); [reflexivity | reflexivity | reflexivity |].
      apply (lineage_step feed_table n2 n1); [reflexivity | reflexivity | reflexivity |].
      apply lineage_root. reflexivity. }
    destruct (Hwell _ Hlin) as (root & Hlast & _ & Hrun).
    injection Hlast as <-. apply Hrun. simpl. lia.
  - destruct (get_root_instance_walk cyclic_table c1) as (_ & Hcyc & _).
    apply (Hcyc [1; 2]); [reflexivity | reflexivity | simpl; tauto].
  - destruct (get_root_instance_walk broken_table b2) as (_ & _ & Hbroken).
    apply (Hbroken [b2; b1]); [| simpl; lia].
    apply (broken_step broken_table b2 b1); [reflexivity | reflexivity | reflexivity |].
    apply broken_end; reflexivity.
Defined.

(** C2 as stated fails on the code: on the two-row cycle the walk is still
    running after three iterations, no number of iterations ends it with
    [LineageCycleDetected], and the chain without root ends with
    [AttributeError], not [BrokenLineage]. *)
Lemma get_root_instance_no_cycle_guard :
  get_root_instance 3 cyclic_table c1 = OutOfFuel /\
  ~ (exists fuel, get_root_instance fuel cyclic_table c1 = Raised LineageCycleDetected) /\
  get_root_instance 2 broken_table b2 <> Raised BrokenLineage.
Proof.
  split; [reflexivity | split].
  - intros [fuel Hraise].
    rewrite (get_root_instance_cycle cyclic_table [1; 2]) in Hraise;
      [discriminate | reflexivity | reflexivity | simpl; tauto].
  - discriminate.
Qed.

End LineageFacts.

(** ** The traversal of [get_descendant_instances] *)

Module DescendantFacts.
Import PluginInstances.

Lemma pop_last_snoc {A : Type} (l : list A) (x : A) :
  pop_last (l ++ [x]) = Some (x, l).
Proof.
  induction l as [|y l IH]; [reflexivity |].
  cbn [app pop_last]. now rewrite IH.
Qed.

Lemma pop_last_inv {A : Type} (l : list A) :
  match pop_last l with
  | None => l = []
  | Some (x, l') => l = l' ++ [x]
  end.
Proof.
  induction l as [|y l IH]; [reflexivity |].
  cbn [pop_last]. destruct (pop_last l) as [[x l']|].
  - now rewrite IH.
  - now rewrite IH.
Qed.

Section Table.
Variable db : table.

Lemma get_pk_some (k : Z) (p : PluginInstance) :
  get_pk db k = Some p -> In p db /\ id p = k.
Proof.
  unfold get_pk. intros H. apply find_some in H as [Hin Hk].
  split; [assumption | now apply Z.eqb_eq].
Qed.

Lemma get_pk_row :
  keys_unique db -> forall x, In x db -> get_pk db (id x) = Some x.
Proof.
  unfold keys_unique, get_pk. induction db as [|r rows IH]; intros Hnd x Hin.
  - destruct Hin.
  - cbn [map] in Hnd. apply List.NoDup_cons_iff in Hnd as [Hnotin Hnd].
    cbn [find]. destruct Hin as [-> | Hin].
    + now rewrite Z.eqb_refl.
    + destruct (Z.eqb_spec (id r) (id x)) as [Heq | Hne].
      * exfalso. apply Hnotin. rewrite Heq. now apply in_map.
      * now apply IH.
Qed.

Lemma next_all_spec (x y : PluginInstance) :
  In y (next_all db x) <-> In y db /\ previous y = Some (id x).
Proof.
  unfold next_all. rewrite List.filter_In. split; intros [Hin H]; split; try assumption.
  - destruct (previous y) as [k|]; [| discriminate].
    apply Z.eqb_eq in H. now subst.
  - rewrite H. apply Z.eqb_refl.
Qed.

Lemma ancestor_at_add (i j : nat) (x : PluginInstance) :
  ancestor_at db (i + j) x
  = match ancestor_at db i x with
    | Some y => ancestor_at db j y
    | None => None
    end.
Proof.
  revert x. induction i as [|i IH]; intros x; [reflexivity |].
  cbn [Nat.add ancestor_at].
  destruct (previous x) as [k|]; [| reflexivity].
  destruct (get_pk db k) as [p|]; [apply IH | reflexivity].
Qed.

Lemma ancestor_at_in (n : nat) (x y : PluginInstance) :
  In x db -> ancestor_at db n x = Some y -> In y db.
Proof.
  revert x. induction n as [|n IH]; intros x Hin H; cbn [ancestor_at] in H.
  - now injection H as <-.
  - destruct (previous x) as [k|]; [| discriminate].
    destruct (get_pk db k) as [p|] eqn:Hget; [| discriminate].
    apply (IH p); [| assumption]. now apply get_pk_some in Hget.
Qed.

Lemma ancestor_at_none_le (i j : nat) (x : PluginInstance) :
  (i <= j)%nat -> ancestor_at db i x = None -> ancestor_at db j x = None.
Proof.
  intros Hle Hnone. replace j with (i + (j - i))%nat by lia.
  now rewrite ancestor_at_add, Hnone.
Qed.

(** A child is one link below its parent. *)
Lemma ancestor_at_child (n : nat) (x y : PluginInstance) :
  get_pk db (id x) = Some x -> In y (next_all db x) ->
  ancestor_at db (S n) y = ancestor_at db n x.
Proof.
  intros Hx Hy. apply next_all_spec in Hy as [_ Hprev].
  cbn [ancestor_at]. now rewrite Hprev, Hx.
Qed.

Lemma way_up_in (n : nat) (x y : PluginInstance) :
  In y (way_up db n x) -> exists i, ancestor_at db i x = Some y.
Proof.
  revert x. induction n as [|n IH]; intros x Hin.
  - destruct Hin as [<- | []]. now exists 0%nat.
  - cbn [way_up] in Hin. destruct Hin as [<- | Hin]; [now exists 0%nat |].
    destruct (previous x) as [k|] eqn:Hp; [| destruct Hin].
    destruct (get_pk db k) as [p|] eqn:Hget; [| destruct Hin].
    destruct (IH p Hin) as [i Hi]. exists (S i).
    cbn [ancestor_at]. now rewrite Hp, Hget.
Qed.

Lemma way_up_length (n : nat) (x : PluginInstance) :
  ancestor_at db n x <> None -> length (way_up db n x) = S n.
Proof.
  revert x. induction n as [|n IH]; intros x H; [reflexivity |].
  cbn [ancestor_at] in H. cbn [way_up length].
  destruct (previous x) as [k|]; [| contradiction].
  destruct (get_pk db k) as [p|]; [| contradiction].
  now rewrite IH.
Qed.

Lemma way_up_incl (n : nat) (x : PluginInstance) :
  In x db -> incl (way_up db n x) db.
Proof.
  intros Hx y Hy. apply way_up_in in Hy as [i Hi].
  now apply (ancestor_at_in i x).
Qed.

Lemma way_up_nodup (n : nat) (x : PluginInstance) :
  acyclic db -> In x db -> List.NoDup (way_up db n x).
Proof.
  intros Hacyc. revert x. induction n as [|n IH]; intros x Hx.
  - cbn [way_up]. constructor; [intros [] | constructor].
  - cbn [way_up].
    destruct (previous x) as [k|] eqn:Hp; [| constructor; [intros [] | constructor]].
    destruct (get_pk db k) as [p|] eqn:Hget; [| constructor; [intros [] | constructor]].
    constructor.
    + intros Hin. apply way_up_in in Hin as [i Hi].
      apply (Hacyc x i Hx). cbn [ancestor_at]. now rewrite Hp, Hget.
    + apply IH. now apply get_pk_some in Hget.
Qed.

(** Without cycle, no chain has as many links as the table has rows. *)
Lemma acyclic_bounded (x : PluginInstance) :
  acyclic db -> In x db -> ancestor_at db (length db) x = None.
Proof.
  intros Hacyc Hx.
  destruct (ancestor_at db (length db) x) as [z|] eqn:Hz; [| reflexivity].
  exfalso.
  pose proof (List.NoDup_incl_length (way_up_nodup (length db) x Hacyc Hx)
                (way_up_incl (length db) x Hx)) as Hlen.
  rewrite way_up_length in Hlen by (rewrite Hz; discriminate). lia.
Qed.

Lemma ancestor_at_loop (n k : nat) (x : PluginInstance) :
  ancestor_at db (S n) x = Some x -> ancestor_at db (k * S n) x = Some x.
Proof.
  intros Hloop. induction k as [|k IH]; [reflexivity |].
  cbn [Nat.mul]. now rewrite ancestor_at_add, Hloop.
Qed.

Lemma acyclicb_sound : acyclicb db = true -> acyclic db.
Proof.
  unfold acyclicb. rewrite forallb_forall. intros Hb x n Hx Hloop.
  specialize (Hb x Hx).
  destruct (ancestor_at db (length db) x) as [z|] eqn:Hz; [discriminate |].
  pose proof (ancestor_at_loop n (length db) x Hloop) as Hfar.
  rewrite (ancestor_at_none_le (length db) (length db * S n) x) in Hfar;
    [discriminate | nia | assumption].
Qed.

Lemma acyclicb_complete : acyclic db -> acyclicb db = true.
Proof.
  intros Hacyc. unfold acyclicb. apply forallb_forall. intros x Hx.
  now rewrite acyclic_bounded.
Qed.

Hypothesis Hkeys : keys_unique db.
Hypothesis Hacyc : acyclic db.

Lemma flat_map_ext_in {A B : Type} (f g : A -> list B) (l : list A) :
  (forall a, In a l -> f a = g a) -> flat_map f l = flat_map g l.
Proof.
  induction l as [|a l IH]; intros H; [reflexivity |].
  cbn [flat_map]. rewrite (H a) by now left.
  rewrite IH; [reflexivity |]. intros b Hb. apply H. now right.
Qed.

Lemma childless_at_bottom (j : nat) (x : PluginInstance) :
  In x db -> ancestor_at db j x <> None -> (length db <= j + 1)%nat ->
  next_all db x = [].
Proof.
  intros Hx Hj Hlen.
  destruct (next_all db x) as [|y l] eqn:Hnext; [reflexivity |]. exfalso.
  assert (Hy : In y (next_all db x)) by (rewrite Hnext; now left).
  pose proof (ancestor_at_child j x y (get_pk_row Hkeys x Hx) Hy) as Hup.
  apply next_all_spec in Hy as [Hy _].
  rewrite (ancestor_at_none_le (length db) (S j) y) in Hup;
    [| lia | now apply acyclic_bounded].
  now rewrite <- Hup in Hj.
Qed.

(** Once [depth] covers what is below [x], a larger [depth] changes nothing. *)
Lemma subtree_stable (m : nat) :
  forall (j : nat) (x : PluginInstance),
    In x db -> ancestor_at db j x <> None -> (length db <= j + m + 1)%nat ->
    subtree db (S m) x = subtree db m x.
Proof.
  induction m as [|m IH]; intros j x Hx Hj Hlen.
  - cbn [subtree]. rewrite (childless_at_bottom j x) by (assumption || lia).
    reflexivity.
  - change (x :: flat_map (subtree db (S m)) (rev (next_all db x))
            = x :: flat_map (subtree db m) (rev (next_all db x))).
    f_equal. apply flat_map_ext_in. intros c Hc. apply in_rev in Hc.
    apply (IH (S j)).
    + now apply next_all_spec in Hc.
    + rewrite (ancestor_at_child j x c); [assumption | | assumption].
      now apply get_pk_row.
    + lia.
Qed.

(** The traversal order of a row of the table, by its children. *)
Lemma subtree_unfold (x : PluginInstance) :
  In x db ->
  subtree db (length db) x
  = x :: flat_map (subtree db (length db)) (rev (next_all db x)).
Proof.
  intros Hx. destruct (length db) as [|n] eqn:Hn.
  - destruct db; [destruct Hx | discriminate].
  - change (x :: flat_map (subtree db n) (rev (next_all db x))
            = x :: flat_map (subtree db (S n)) (rev (next_all db x))).
    f_equal. apply flat_map_ext_in. intros c Hc. apply in_rev in Hc.
    symmetry. apply (subtree_stable n 1).
    + now apply next_all_spec in Hc.
    + rewrite (ancestor_at_child 0 x c); [discriminate | | assumption].
      now apply get_pk_row.
    + lia.
Qed.

Lemma subtree_descends (m : nat) :
  forall x y, In x db -> In y (subtree db m x) -> descends db x y.
Proof.
  induction m as [|m IH]; intros x y Hx Hy.
  - destruct Hy as [<- | []]. split; [assumption | now exists 0%nat].
  - cbn [subtree] in Hy. destruct Hy as [<- | Hy].
    + split; [assumption | now exists 0%nat].
    + apply in_flat_map in Hy as (c & Hc & Hy). apply in_rev in Hc.
      assert (Hcdb : In c db) by now apply next_all_spec in Hc.
      destruct (IH c y Hcdb Hy) as [Hydb [n Hn]].
      split; [assumption |]. exists (n + 1)%nat.
      rewrite ancestor_at_add, Hn.
      rewrite (ancestor_at_child 0 x c); [reflexivity | | assumption].
      now apply get_pk_row.
Qed.

Lemma subtree_child (m : nat) :
  forall x p c, In p (subtree db m x) -> In c (next_all db p) ->
    In c (subtree db (S m) x).
Proof.
  induction m as [|m IH]; intros x p c Hp Hc.
  - destruct Hp as [<- | []]. cbn [subtree]. right.
    apply in_flat_map. exists c. split; [now apply in_rev in Hc | now left].
  - cbn [subtree] in Hp. destruct Hp as [<- | Hp].
    + change (In c (x :: flat_map (subtree db (S m)) (rev (next_all db x)))).
      right. apply in_flat_map. exists c.
      split; [now apply in_rev in Hc | now left].
    + apply in_flat_map in Hp as (c' & Hc' & Hp).
      change (In c (x :: flat_map (subtree db (S m)) (rev (next_all db x)))).
      right. apply in_flat_map. exists c'. split; [assumption |].
      now apply (IH c' p c).
Qed.

Lemma descends_subtree (x y : PluginInstance) :
  In x db -> descends db x y -> In y (subtree db (length db) x).
Proof.
  intros Hx [Hy [n Hn]]. revert y Hy Hn.
  induction n as [|n IH]; intros y Hy Hn.
  - injection Hn as ->. rewrite subtree_unfold by assumption. now left.
  - cbn [ancestor_at] in Hn.
    destruct (previous y) as [k|] eqn:Hprev; [| discriminate].
    destruct (get_pk db k) as [p|] eqn:Hget; [| discriminate].
    apply get_pk_some in Hget as [Hp Hk].
    rewrite <- (subtree_stable (length db) 0 x Hx) by (discriminate || lia).
    apply (subtree_child (length db) x p y); [now apply IH |].
    apply next_all_spec. split; [assumption | now rewrite Hk].
Qed.

Lemma NoDup_flat_map {A B : Type} (f : A -> list B) (l : list A) :
  List.NoDup l ->
  (forall a, In a l -> List.NoDup (f a)) ->
  (forall a b y, In a l -> In b l -> In y (f a) -> In y (f b) -> a = b) ->
  List.NoDup (flat_map f l).
Proof.
  induction l as [|a l IH]; intros Hnd Heach Hdisj; [constructor |].
  apply List.NoDup_cons_iff in Hnd as [Ha Hnd].
  cbn [flat_map]. apply List.NoDup_app.
  - apply Heach. now left.
  - apply IH; [assumption | |].
    + intros b Hb. apply Heach. now right.
    + intros b c y Hb Hc. apply Hdisj; now right.
  - intros y Hy Hy'. apply in_flat_map in Hy' as (b & Hb & Hy').
    apply Ha. rewrite (Hdisj a b y); [assumption | now left | now right | assumption | assumption].
Qed.

(** A row is not below one of its own children. *)
Lemma not_below_child (x c : PluginInstance) (n : nat) :
  In x db -> In c (next_all db x) -> ancestor_at db n x <> Some c.
Proof.
  intros Hx Hc Hn. apply (Hacyc x n Hx).
  replace (S n) with (n + 1)%nat by lia.
  rewrite ancestor_at_add, Hn.
  rewrite (ancestor_at_child 0 x c); [reflexivity | | assumption].
  now apply get_pk_row.
Qed.

(** Two children of [x] above the same row are the same child. *)
Lemma one_child_above (x c1 c2 y : PluginInstance) (n1 d : nat) :
  In x db -> In c1 (next_all db x) -> In c2 (next_all db x) ->
  ancestor_at db n1 y = Some c1 -> ancestor_at db (n1 + d) y = Some c2 ->
  c1 = c2.
Proof.
  intros Hx Hc1 Hc2 H1 H2. rewrite ancestor_at_add, H1 in H2.
  destruct d as [|d]; [now injection H2 |]. exfalso.
  rewrite (ancestor_at_child d x c1) in H2;
    [| now apply get_pk_row | assumption].
  now apply (not_below_child x c2 d).
Qed.

Lemma subtree_nodup (m : nat) :
  forall x, In x db -> List.NoDup (subtree db m x).
Proof.
  induction m as [|m IH]; intros x Hx.
  - cbn [subtree]. constructor; [intros [] | constructor].
  - cbn [subtree]. constructor.
    + intros Hin. apply in_flat_map in Hin as (c & Hc & Hin).
      apply in_rev in Hc.
      assert (Hcdb : In c db) by now apply next_all_spec in Hc.
      destruct (subtree_descends m c x Hcdb Hin) as [_ [n Hn]].
      now apply (not_below_child x c n).
    + apply NoDup_flat_map.
      * apply List.NoDup_rev. unfold next_all. apply List.NoDup_filter.
        now apply (List.NoDup_map_inv id).
      * intros c Hc. apply in_rev in Hc. apply IH.
        now apply next_all_spec in Hc.
      * intros c1 c2 y Hc1 Hc2 Hy1 Hy2.
        apply in_rev in Hc1. apply in_rev in Hc2.
        assert (Hdb1 : In c1 db) by now apply next_all_spec in Hc1.
        assert (Hdb2 : In c2 db) by now apply next_all_spec in Hc2.
        destruct (subtree_descends m c1 y Hdb1 Hy1) as [_ [n1 Hn1]].
        destruct (subtree_descends m c2 y Hdb2 Hy2) as [_ [n2 Hn2]].
        destruct (Nat.le_ge_cases n1 n2) as [Hle | Hle].
        -- apply (one_child_above x c1 c2 y n1 (n2 - n1)); try assumption.
           now replace (n1 + (n2 - n1))%nat with n2 by lia.
        -- symmetry.
           apply (one_child_above x c2 c1 y n2 (n1 - n2)); try assumption.
           now replace (n2 + (n1 - n2))%nat with n1 by lia.
Qed.

(** The loop empties its stack in the order of [subtree]. *)
Lemma descendants_loop_subtree (fuel : nat) :
  forall queue acc,
    (forall q, In q queue -> In q db) ->
    (length (flat_map (subtree db (length db)) (rev queue)) <= fuel)%nat ->
    descendants_loop fuel db queue acc
    = Returned (acc ++ flat_map (subtree db (length db)) (rev queue)).
Proof.
  induction fuel as [|fuel IH]; intros queue acc Hin Hlen;
    pose proof (pop_last_inv queue) as Hpop;
    cbn [descendants_loop];
    destruct (pop_last queue) as [[v q']|]; subst queue;
    try (cbn [rev flat_map]; now rewrite app_nil_r).
  - exfalso. rewrite rev_app_distr in Hlen. cbn [rev app flat_map] in Hlen.
    rewrite subtree_unfold in Hlen by (apply Hin, in_or_app; right; now left).
    cbn [app length] in Hlen. lia.
  - assert (Hv : In v db) by (apply Hin, in_or_app; right; now left).
    rewrite rev_app_distr in Hlen |- *. cbn [rev app flat_map] in Hlen |- *.
    rewrite subtree_unfold in Hlen |- * by assumption.
    cbn [app length] in Hlen.
    rewrite IH.
    + rewrite rev_app_distr, flat_map_app, <- app_assoc. reflexivity.
    + intros q Hq. apply in_app_or in Hq as [Hq | Hq].
      * apply Hin, in_or_app. now left.
      * now apply next_all_spec in Hq.
    + rewrite rev_app_distr, flat_map_app. lia.
Qed.

End Table.

Lemma descendants_loop_head (db : table) (fuel : nat) :
  forall queue acc l,
    acc <> [] ->
    descendants_loop fuel db queue acc = Returned l -> head l = head acc.
Proof.
  induction fuel as [|fuel IH]; intros queue acc l Hacc Hrun;
    cbn [descendants_loop] in Hrun;
    destruct (pop_last queue) as [[v q']|].
  - discriminate.
  - now injection Hrun as <-.
  - apply IH in Hrun.
    + rewrite Hrun. destruct acc; [contradiction | reflexivity].
    + destruct acc; discriminate.
  - now injection Hrun as <-.
Qed.

(** A row on a cycle of [previous] has a child that is on the cycle too. *)
Lemma cycle_child (db : table) (x : PluginInstance) (n : nat) :
  In x db -> ancestor_at db (S n) x = Some x ->
  exists y, In y (next_all db x) /\ ancestor_at db (S n) y = Some y.
Proof.
  intros Hx Hloop.
  replace (S n) with (n + 1)%nat in Hloop by lia.
  rewrite ancestor_at_add in Hloop.
  destruct (ancestor_at db n x) as [y|] eqn:Hy; [| discriminate].
  assert (Hydb : In y db) by now apply (ancestor_at_in db n x y).
  cbn [ancestor_at] in Hloop.
  destruct (previous y) as [k|] eqn:Hprev; [| discriminate].
  destruct (get_pk db k) as [q|] eqn:Hget; [| discriminate].
  injection Hloop as ->. apply get_pk_some in Hget as Hk. destruct Hk as [_ Hk].
  exists y. split.
  - apply next_all_spec. split; [exact Hydb | now rewrite Hk].
  - cbn [ancestor_at]. now rewrite Hprev, Hget.
Qed.

(** While a row of a cycle is in the queue the loop goes on: the queue is
    never empty. *)
Lemma descendants_loop_cycle (db : table) (n : nat) (fuel : nat) :
  forall queue acc,
    (exists c, In c queue /\ In c db /\ ancestor_at db (S n) c = Some c) ->
    descendants_loop fuel db queue acc = OutOfFuel.
Proof.
  induction fuel as [|fuel IH]; intros queue acc (c & Hc & Hdb & Hloop);
    pose proof (pop_last_inv queue) as Hpop;
    cbn [descendants_loop];
    destruct (pop_last queue) as [[v q']|]; subst queue;
    try (now destruct Hc); [reflexivity |].
  apply IH. apply in_app_or in Hc as [Hc | [<- | []]].
  - exists c. split; [apply in_or_app; now left | now split].
  - destruct (cycle_child db v n Hdb Hloop) as (y & Hy & Hyloop).
    exists y. split; [apply in_or_app; now right |].
    split; [now apply next_all_spec in Hy | exact Hyloop].
Qed.

(** The loop raises nothing. *)
Lemma descendants_loop_no_raise (db : table) (fuel : nat) :
  forall queue acc e, descendants_loop fuel db queue acc <> Raised e.
Proof.
  induction fuel as [|fuel IH]; intros queue acc e;
    cbn [descendants_loop]; destruct (pop_last queue) as [[v q']|];
    try discriminate.
  apply IH.
Qed.

(** C10, as the code has it.  For a node without children
    [get_descendant_instances] returns the one-element list of that node.
    For a stored node of a table with unique keys whose next-graph has no
    cycle it returns, within one iteration per row of the table, a list
    that starts with the node and holds every row reached from it by [next]
    exactly once (and nothing else).  For a stored node that lies on a cycle
    of [previous] it never returns: the loop is still running whatever the
    number of iterations.  It raises nothing, and a list it returns starts
    with the node. *)
Theorem get_descendant_instances_traversal (db : table) (self : PluginInstance) :
  (next_all db self = [] ->
   forall fuel, (1 <= fuel)%nat ->
     get_descendant_instances fuel db self = Returned [self]) /\
  (keys_unique db -> acyclic db -> In self db ->
   exists l,
     (forall fuel, (length db <= fuel)%nat ->
        get_descendant_instances fuel db self = Returned l) /\
     head l = Some self /\
     List.NoDup l /\
     (forall y, In y l <-> descends db self y)) /\
  (In self db -> (exists n, ancestor_at db (S n) self = Some self) ->
   forall fuel, get_descendant_instances fuel db self = OutOfFuel) /\
  (forall fuel e, get_descendant_instances fuel db self <> Raised e) /\
  (forall fuel l,
     get_descendant_instances fuel db self = Returned l -> head l = Some self).
Proof.
  split; [| split; [| split; [| split]]].
  - intros Hnone fuel Hfuel. unfold get_descendant_instances.
    destruct fuel as [|fuel]; [lia |].
    cbn [descendants_loop pop_last app]. rewrite Hnone.
    destruct fuel; reflexivity.
  - intros Hkeys Hacyc Hself.
    exists (subtree db (length db) self).
    assert (Hnd : List.NoDup (subtree db (length db) self))
      by now apply subtree_nodup.
    assert (Hsub : forall y, In y (subtree db (length db) self) <-> descends db self y).
    { intros y. split.
      - now apply subtree_descends.
      - now apply descends_subtree. }
    split; [| split; [| split; assumption]].
    + intros fuel Hfuel. unfold get_descendant_instances.
      rewrite (descendants_loop_subtree db Hkeys Hacyc fuel).
      * cbn [rev app flat_map]. now rewrite app_nil_r.
      * intros q [<- | []]. assumption.
      * cbn [rev app flat_map]. rewrite app_nil_r.
        transitivity (length db); [| assumption].
        apply List.NoDup_incl_length; [assumption |].
        intros y Hy. now apply Hsub in Hy as [Hy _].
    + now rewrite subtree_unfold.
  - intros Hself [n Hloop] fuel. unfold get_descendant_instances.
    apply (descendants_loop_cycle db n). exists self.
    split; [now left | now split].
  - intros fuel e. apply descendants_loop_no_raise.
  - intros fuel l Hrun. unfold get_descendant_instances in Hrun.
    destruct fuel as [|fuel]; [discriminate |].
    cbn [descendants_loop pop_last app] in Hrun.
    apply descendants_loop_head in Hrun; [exact Hrun | discriminate].
Qed.

Import LineageSamples.

Lemma get_descendant_instances_traversal_witness :
  (exists l,
     get_descendant_instances 4 feed_table n1 = Returned l /\
     head l = Some n1 /\ List.NoDup l /\ In n4 l) /\
  get_descendant_instances 1 feed_table n3 = Returned [n3].
Proof.
  split.
  - destruct (get_descendant_instances_traversal feed_table n1) as (_ & Htotal & _).
    assert (Hkeys : keys_unique feed_table).
    { unfold keys_unique. cbn. repeat constructor; cbn; intuition discriminate. }
    assert (Hacyc : acyclic feed_table) by (apply acyclicb_sound; reflexivity).
    assert (Hin : In n1 feed_table) by (cbn; tauto).
    destruct (Htotal Hkeys Hacyc Hin) as (l & Hrun & Hhead & Hnd & Hall).
    exists l. repeat split; try assumption.
    + apply Hrun. cbn. lia.
    + apply Hall. split; [cbn; tauto | now exists 2%nat].
  - destruct (get_descendant_instances_traversal feed_table n3) as (Hleaf & _).
    apply Hleaf; [reflexivity | lia].
Defined.

(** C10 as stated fails on the code: it does not hold for every node.  On
    the two-row cycle the traversal from a row is still running after four
    iterations, and no number of iterations makes it return a list. *)
Lemma get_descendant_instances_loops_on_cycle :
  get_descendant_instances 4 cyclic_table c1 = OutOfFuel /\
  ~ (exists fuel l, get_descendant_instances fuel cyclic_table c1 = Returned l).
Proof.
  split; [reflexivity |].
  intros (fuel & l & Hrun). unfold get_descendant_instances in Hrun.
  rewrite (descendants_loop_cycle cyclic_table 1) in Hrun; [discriminate |].
  exists c1. split; [now left |]. split; [cbn; tauto | reflexivity].
Qed.

End DescendantFacts.

(** ** Feed assignment in [save] *)

Module SaveFacts.
Import PluginInstances LineageSamples.

(** C8. A node saved while its feed is not set: if its plugin type is "fs", a
    new feed named after the plugin and owned by the node's owner is inserted
    and assigned; if it is "ds" (and its parent is a stored row with a feed),
    the parent's feed is assigned and no feed is inserted; for every other
    type no feed is inserted and none assigned, and the save is refused,
    leaving the database as it was.  A feed is inserted only for type "fs". *)
Theorem save_assigns_feed (self : PluginInstance) (d : database) :
  feed self = None ->
  (plugin_type (plugin self) = "fs" ->
   let f := {| feed_id := next_feed_id d;
               feed_name := plugin_name (plugin self);
               feed_owner := [owner self] |} in
   fst (save self d) = Returned (set_feed self f) /\
   feeds (snd (save self d)) = feeds d ++ [f]) /\
  (plugin_type (plugin self) = "ds" ->
   forall p f,
     previous self = Some (id p) ->
     get_pk (instances d) (id p) = Some p ->
     feed p = Some f ->
     fst (save self d) = Returned (set_feed self f) /\
     feeds (snd (save self d)) = feeds d) /\
  (plugin_type (plugin self) <> "fs" ->
   plugin_type (plugin self) <> "ds" ->
   save self d = (Raised IntegrityError, d)) /\
  (feeds (snd (save self d)) <> feeds d <-> plugin_type (plugin self) = "fs").
Proof.
  intros Hfeed. unfold save. rewrite Hfeed.
  destruct (String.eqb_spec (plugin_type (plugin self)) "fs") as [Hfs | Hfs].
  - rewrite Hfs. cbn [String.eqb Ascii.eqb Bool.eqb _save_feed].
    unfold super_save. cbn [feed set_feed fst snd feeds].
    split; [| split; [| split]].
    + intros _. split; reflexivity.
    + intros Hds. discriminate.
    + intros Hne. contradiction.
    + split; [reflexivity |]. intros _ Heq.
      apply (f_equal (@length Feed)) in Heq. rewrite length_app in Heq.
      cbn [length] in Heq. lia.
  - destruct (String.eqb_spec (plugin_type (plugin self)) "ds") as [Hds | Hds].
    + split; [| split; [| split]].
      * intros H. contradiction.
      * intros _ p f Hprev Hget Hpf.
        unfold previous_feed. rewrite Hprev, Hget, Hpf.
        unfold super_save. cbn [feed set_feed fst snd feeds]. split; reflexivity.
      * intros _ H. contradiction.
      * split; [| intros H; contradiction].
        intros Hchg. exfalso. apply Hchg.
        destruct (previous_feed self d) as [f | e |]; reflexivity.
    + unfold super_save. rewrite Hfeed.
      split; [| split; [| split]].
      * intros H. contradiction.
      * intros H. contradiction.
      * intros _ _. reflexivity.
      * split; [| intros H; contradiction].
        intros Hchg. exfalso. apply Hchg. reflexivity.
Qed.

Lemma save_assigns_feed_witness :
  feeds (snd (save new_fs stored))
  = [feed7; {| feed_id := 8; feed_name := "dircopy"; feed_owner := [alice] |}] /\
  fst (save new_ds stored) = Returned (set_feed new_ds feed7) /\
  save new_ts stored = (Raised IntegrityError, stored).
Proof.
  split; [| split].
  - destruct (save_assigns_feed new_fs stored eq_refl) as (Hfs & _).
    destruct (Hfs eq_refl) as [_ Hfeeds]. exact Hfeeds.
  - destruct (save_assigns_feed new_ds stored eq_refl) as (_ & Hds & _).
    destruct (Hds eq_refl n2 feed7 eq_refl eq_refl eq_refl) as [Hret _]. exact Hret.
  - destruct (save_assigns_feed new_ts stored eq_refl) as (_ & _ & Hother & _).
    apply Hother; discriminate.
Defined.

End SaveFacts.

(** ** The Swift manager: retries *)

Module SwiftFacts.
Import Swift.

Lemma get_connection_connected (w : world) :
  connected w ->
  exists w',
    __get_connection w = (Returned tt, w') /\
    container_name w' = container_name w /\ objects w' = objects w /\
    faults w' = faults w /\ requests w' = requests w /\ sleeps w' = sleeps w /\
    _conn w' = true.
Proof.
  intros [Hconn | Hnext]; unfold __get_connection.
  - rewrite Hconn. exists w. now repeat split.
  - destruct (_conn w) eqn:Hc; [exists w; now repeat split |].
    cbn [get_connection_loop]. unfold try_except, connect.
    destruct (connect_faults w) as [|[status|] script]; [| contradiction |];
      eexists; (split; [reflexivity |]); now repeat split.
Qed.

(** Setting up the connection sends nothing and leaves the container alone,
    whatever its outcome. *)
Lemma get_connection_loop_quiet (n : nat) :
  forall i w,
    objects (snd (get_connection_loop n i w)) = objects w /\
    requests (snd (get_connection_loop n i w)) = requests w.
Proof.
  induction n as [|n IH]; intros i w; [now split |].
  cbn [get_connection_loop]. unfold try_except, connect.
  destruct (connect_faults w) as [|[status|] script]; try now split.
  destruct (i =? 4)%Z; [now split |].
  unfold bind, sleep.
  match goal with |- context [get_connection_loop n ?j ?v] =>
    destruct (IH j v) as [Ho Hr];
    destruct (get_connection_loop n j v) as [[a | e |] w2] end;
    cbn [snd] in *; now split.
Qed.

Lemma get_connection_quiet (w : world) :
  objects (snd (__get_connection w)) = objects w /\
  requests (snd (__get_connection w)) = requests w.
Proof.
  unfold __get_connection. destruct (_conn w); [now split |].
  apply get_connection_loop_quiet.
Qed.

Section ObjExists.
Variable obj_path : string.

(** [k] transient failures, then an answer: [k] sleeps and [k + 1] requests. *)
Lemma obj_exists_loop_transient (statuses : list Z) :
  forall n i w script,
    faults w = map Some statuses ++ script ->
    Forall (fun status => status <> 404) statuses ->
    answered script ->
    (length statuses < n)%nat ->
    i + Z.of_nat n = 5 ->
    let r := obj_exists_loop n i obj_path w in
    fst r = Returned (Some (present obj_path w)) /\
    sleeps (snd r) = sleeps w ++ repeat 400 (length statuses) /\
    requests (snd r)
    = requests w ++ repeat (HeadObject obj_path) (S (length statuses)) /\
    objects (snd r) = objects w.
Proof.
  induction statuses as [|status statuses IH];
    intros n i w script Hfaults Hall Hansw Hlen Hi r; subst r;
    (destruct n as [|n]; [cbn [length] in Hlen; lia |]);
    cbn [obj_exists_loop]; unfold try_except, head_object, send;
    cbn [map app] in Hfaults; rewrite Hfaults.
  - unfold present, lookup_object. cbn [objects].
    destruct script as [|[status|] script]; [| contradiction |];
      destruct (List.find _ (objects w)); cbn; rewrite ?app_nil_r; now repeat split.
  - apply Forall_cons in Hall as [Hne Hall].
    apply Z.eqb_neq in Hne. rewrite Hne.
    assert (Hi4 : (i =? 4)%Z = false)
      by (apply Z.eqb_neq; cbn [length] in Hlen; lia).
    rewrite Hi4. unfold bind, sleep.
    match goal with |- context [obj_exists_loop n ?j obj_path ?v] =>
      destruct (IH n j v script) as (Hres & Hsl & Hreq & Hobj) end;
      try assumption; try reflexivity; try (cbn [length] in Hlen; lia).
    cbn [fst snd sleeps requests objects length repeat] in *.
    rewrite Hres, Hsl, Hreq, Hobj, <- !app_assoc. now repeat split.
Qed.

(** As many transient failures as iterations are left: the last one is
    raised, after one sleep per earlier failure. *)
Lemma obj_exists_loop_exhausted (statuses : list Z) :
  forall n i w script last_status,
    faults w = map Some statuses ++ Some last_status :: script ->
    Forall (fun status => status <> 404) statuses ->
    last_status <> 404 ->
    S (length statuses) = n ->
    i + Z.of_nat n = 5 ->
    let r := obj_exists_loop n i obj_path w in
    fst r = Raised (ClientException last_status) /\
    sleeps (snd r) = sleeps w ++ repeat 400 (length statuses) /\
    requests (snd r)
    = requests w ++ repeat (HeadObject obj_path) (S (length statuses)) /\
    objects (snd r) = objects w.
Proof.
  induction statuses as [|status statuses IH];
    intros n i w script last_status Hfaults Hall Hlast Hlen Hi r; subst r n;
    cbn [obj_exists_loop]; unfold try_except, head_object, send;
    cbn [map app] in Hfaults; rewrite Hfaults.
  - apply Z.eqb_neq in Hlast. rewrite Hlast.
    assert (Hi4 : (i =? 4)%Z = true) by (apply Z.eqb_eq; cbn [length] in Hi; lia).
    rewrite Hi4. cbn. rewrite app_nil_r. now repeat split.
  - apply Forall_cons in Hall as [Hne Hall].
    apply Z.eqb_neq in Hne. rewrite Hne.
    assert (Hi4 : (i =? 4)%Z = false)
      by (apply Z.eqb_neq; cbn [length] in Hi; lia).
    rewrite Hi4. unfold bind, sleep.
    match goal with |- context [obj_exists_loop _ ?j obj_path ?v] =>
      destruct (IH (S (length statuses)) j v script last_status)
        as (Hres & Hsl & Hreq & Hobj) end;
      try assumption; try reflexivity; try (cbn [length] in Hi; lia).
    cbn [fst snd sleeps requests objects length repeat] in *.
    rewrite Hres, Hsl, Hreq, Hobj, <- !app_assoc. now repeat split.
Qed.

(** A "not found" answer, from the service or from the transport, ends the
    loop at once. *)
Lemma obj_exists_loop_not_found (n : nat) (i : Z) (w : world) :
  (exists script, faults w = Some 404 :: script) \/
  (answered (faults w) /\ present obj_path w = false) ->
  let r := obj_exists_loop (S n) i obj_path w in
  fst r = Returned (Some false) /\
  sleeps (snd r) = sleeps w /\
  requests (snd r) = requests w ++ [HeadObject obj_path] /\
  objects (snd r) = objects w.
Proof.
  intros H r; subst r.
  cbn [obj_exists_loop]. unfold try_except, head_object, send.
  destruct H as [[script Hfaults] | [Hansw Habsent]].
  - rewrite Hfaults. cbn. now repeat split.
  - unfold present, lookup_object in Habsent. unfold lookup_object. cbn [objects].
    destruct (faults w) as [|[status|] script]; [| contradiction |];
      destruct (List.find _ (objects w)); try discriminate; cbn; now repeat split.
Qed.

End ObjExists.

Lemma present_ext (obj_path : string) (w w' : world) :
  objects w' = objects w -> present obj_path w' = present obj_path w.
Proof. intros H. unfold present, lookup_object. now rewrite H. Qed.

(** C7. [obj_exists] over an established connection.  A "not found" answer to
    the first request returns [False] at once: one request, no sleep.  After
    [k <= 4] failures that are not "not found", an answer is returned as it
    is, after exactly [k] sleeps of 400 ms and [k + 1] requests; a fifth
    failure in a row is raised, after four sleeps and five requests. *)
Theorem obj_exists_retry_policy (obj_path : string) (w : world) :
  connected w ->
  let r := obj_exists obj_path w in
  ((exists script, faults w = Some 404 :: script) \/
   (answered (faults w) /\ present obj_path w = false) ->
   fst r = Returned (Some false) /\
   sleeps (snd r) = sleeps w /\
   requests (snd r) = requests w ++ [HeadObject obj_path]) /\
  (forall statuses script,
     faults w = map Some statuses ++ script ->
     Forall (fun status => status <> 404) statuses ->
     answered script ->
     (length statuses <= 4)%nat ->
     fst r = Returned (Some (present obj_path w)) /\
     sleeps (snd r) = sleeps w ++ repeat 400 (length statuses) /\
     requests (snd r)
     = requests w ++ repeat (HeadObject obj_path) (S (length statuses))) /\
  (forall statuses last_status script,
     faults w = map Some statuses ++ Some last_status :: script ->
     Forall (fun status => status <> 404) statuses ->
     last_status <> 404 ->
     length statuses = 4%nat ->
     fst r = Raised (ClientException last_status) /\
     sleeps (snd r) = sleeps w ++ repeat 400 4 /\
     requests (snd r) = requests w ++ repeat (HeadObject obj_path) 5).
Proof.
  intros Hconn r; subst r.
  destruct (get_connection_connected w Hconn)
    as (w' & Hget & _ & Hobj & Hfaults & Hreq & Hsl & _).
  unfold obj_exists, bind. rewrite Hget.
  rewrite <- Hfaults, <- Hsl, <- Hreq, <- (present_ext obj_path w w' Hobj).
  split; [| split].
  - intros Hnf.
    destruct (obj_exists_loop_not_found obj_path 4 0 w' Hnf) as (H1 & H2 & H3 & _).
    now repeat split.
  - intros statuses script Hf Hall Hansw Hlen.
    destruct (obj_exists_loop_transient obj_path statuses 5 0 w' script)
      as (H1 & H2 & H3 & _); try assumption; try lia.
    now repeat split.
  - intros statuses last_status script Hf Hall Hlast Hlen.
    destruct (obj_exists_loop_exhausted obj_path statuses 5 0 w' script last_status)
      as (H1 & H2 & H3 & _); try assumption; try lia.
    rewrite Hlen in H2, H3. now repeat split.
Qed.

Import SwiftSamples.

Lemma obj_exists_retry_policy_witness :
  (let r := obj_exists "home/alice/g.txt" (faulty_world []) in
   fst r = Returned (Some false) /\ sleeps (snd r) = [] /\
   requests (snd r) = [HeadObject "home/alice/g.txt"]) /\
  (let r := obj_exists "home/alice/f.txt"
              (faulty_world [Some 503; Some 503; Some 500; Some 503]) in
   fst r = Returned (Some true) /\ sleeps (snd r) = [400; 400; 400; 400]) /\
  (let r := obj_exists "home/alice/f.txt"
              (faulty_world [Some 503; Some 503; Some 500; Some 503; Some 502]) in
   fst r = Raised (ClientException 502) /\ sleeps (snd r) = [400; 400; 400; 400]).
Proof.
  split; [| split].
  - destruct (obj_exists_retry_policy "home/alice/g.txt" (faulty_world []))
      as (Hnf & _); [left; reflexivity |].
    apply Hnf. right. split; [exact I | reflexivity].
  - destruct (obj_exists_retry_policy "home/alice/f.txt"
                (faulty_world [Some 503; Some 503; Some 500; Some 503]))
      as (_ & Htr & _); [left; reflexivity |].
    destruct (Htr [503; 503; 500; 503] []) as (H1 & H2 & _);
      [reflexivity | repeat constructor; discriminate | exact I | cbn; lia |].
    split; [exact H1 | exact H2].
  - destruct (obj_exists_retry_policy "home/alice/f.txt"
                (faulty_world [Some 503; Some 503; Some 500; Some 503; Some 502]))
      as (_ & _ & Hex); [left; reflexivity |].
    destruct (Hex [503; 503; 500; 503] 502 []) as (H1 & H2 & _);
      [reflexivity | repeat constructor; discriminate | discriminate | reflexivity |].
    split; [exact H1 | exact H2].
Defined.

End SwiftFacts.

(** ** The Swift manager: name sanitization *)

Module SanitizeFacts.
Import Swift SwiftFacts SwiftSamples.

(** Listing sends [get_container] requests only and leaves the container as
    it is, whatever its outcome. *)
Lemma ls_loop_quiet (path : string) (full : bool) (n : nat) :
  forall i w,
    objects (snd (ls_loop n i path full w)) = objects w /\
    exists k,
      requests (snd (ls_loop n i path full w))
      = requests w ++ repeat (GetContainer path full) k.
Proof.
  induction n as [|n IH]; intros i w.
  - split; [reflexivity |]. exists 0%nat. cbn. now rewrite app_nil_r.
  - cbn [ls_loop]. unfold try_except, get_container, send.
    destruct (faults w) as [|[status|] script];
      try (split; [reflexivity | now exists 1%nat]).
    destruct (i =? 4)%Z; [split; [reflexivity | now exists 1%nat] |].
    unfold bind, sleep.
    match goal with |- context [ls_loop n ?j path full ?v] =>
      destruct (IH j v) as [Ho [k Hk]];
      destruct (ls_loop n j path full v) as [[a | e |] w2] end;
      cbn [snd objects requests] in *;
      (split; [assumption |]); exists (S k);
      rewrite Hk, <- app_assoc; reflexivity.
Qed.

Lemma ls_quiet (path : string) (w : world) :
  objects (snd (ls path w)) = objects w /\
  exists k,
    requests (snd (ls path w)) = requests w ++ repeat (GetContainer path true) k.
Proof.
  unfold ls, _ls. destruct (String.eqb path "").
  - split; [reflexivity |]. exists 0%nat. cbn. now rewrite app_nil_r.
  - unfold bind.
    destruct (get_connection_quiet w) as [Ho Hr].
    destruct (__get_connection w) as [[[] | e |] w1]; cbn [snd] in *.
    + destruct (ls_loop_quiet path true 5 0 w1) as [Ho' [k Hk]].
      rewrite Ho', Hk, Ho, Hr. split; [reflexivity | now exists k].
    + split; [assumption |]. exists 0%nat. cbn. now rewrite app_nil_r.
    + split; [assumption |]. exists 0%nat. cbn. now rewrite app_nil_r.
Qed.

(** C9. When the full listing of [path] is the single name [path], the
    mapping returned is empty and nothing but the listing has happened: the
    container is unchanged and the only requests sent are the
    [get_container] requests of the listing -- no copy, no delete --
    whatever commas or blank components [path] has. *)
Theorem sanitize_obj_names_single_object (path : string) (w : world) :
  fst (ls path w) = Returned [path] ->
  sanitize_obj_names path w = (Returned ∅, snd (ls path w)) /\
  objects (snd (sanitize_obj_names path w)) = objects w /\
  exists k,
    requests (snd (sanitize_obj_names path w))
    = requests w ++ repeat (GetContainer path true) k.
Proof.
  intros Hls.
  assert (Hrun : sanitize_obj_names path w = (Returned ∅, snd (ls path w))).
  { unfold sanitize_obj_names, bind.
    destruct (ls path w) as [r w'] eqn:Heq. cbn [fst snd] in *. subst r.
    cbn [is_prefix_listing]. now rewrite String.eqb_refl. }
  split; [assumption |]. rewrite Hrun. cbn [snd]. apply ls_quiet.
Qed.

Lemma sanitize_obj_names_single_object_witness :
  sanitize_obj_names "a,b/ ,/c, .txt" single_object_world
  = (Returned ∅, snd (ls "a,b/ ,/c, .txt" single_object_world)) /\
  objects (snd (sanitize_obj_names "a,b/ ,/c, .txt" single_object_world))
  = [("a,b/ ,/c, .txt", "c")].
Proof.
  destruct (sanitize_obj_names_single_object "a,b/ ,/c, .txt" single_object_world
              eq_refl) as (Hrun & Hobj & _).
  split; [exact Hrun | exact Hobj].
Defined.

Lemma py_remove_gone (c : ascii) (s : string) :
  ~ In c (list_ascii_of_string (py_remove c s)).
Proof.
  induction s as [|c' s IH]; [intros [] |].
  cbn [py_remove]. destruct (Ascii.eqb_spec c' c) as [Heq | Hne]; [assumption |].
  cbn [list_ascii_of_string]. intros [Hin | Hin]; [now apply Hne | now apply IH].
Qed.

(** The parts kept are the parts without their commas, those that are left
    blank being dropped. *)
Lemma new_parts_spec (parts : list string) (part : string) :
  In part (new_parts parts) <->
  exists orig, In orig parts /\ part = py_remove "," orig /\ py_strip part <> "".
Proof.
  induction parts as [|orig parts IH]; cbn [new_parts].
  - split; [intros [] | intros (o & [] & _)].
  - destruct (String.eqb_spec (py_strip (py_remove "," orig)) "") as [Hblank | Hkept];
      cbn [negb].
    + rewrite IH. split.
      * intros (o & Hin & Heq & Hne). exists o. split; [now right | now split].
      * intros (o & [<- | Hin] & Heq & Hne).
        -- subst part. contradiction.
        -- exists o. now repeat split.
    + cbn [In]. rewrite IH. split.
      * intros [<- | (o & Hin & Heq & Hne)].
        -- exists orig. split; [now left | now split].
        -- exists o. split; [now right | now split].
      * intros (o & [<- | Hin] & Heq & Hne).
        -- now left.
        -- right. exists o. now repeat split.
Qed.

(** Deleting an object that is there, over a connection that works. *)
Lemma delete_obj_served (obj : string) (w : world) :
  connected w -> answered (faults w) -> lookup_object w obj <> None ->
  fst (delete_obj obj w) = Returned tt /\
  objects (snd (delete_obj obj w))
  = List.filter (fun kv => negb (String.eqb (fst kv) obj)) (objects w) /\
  requests (snd (delete_obj obj w)) = requests w ++ [DeleteObject obj].
Proof.
  intros Hconn Hansw Hthere.
  destruct (get_connection_connected w Hconn)
    as (w' & Hget & _ & Hobj & Hfaults & Hreq & _).
  unfold delete_obj, bind. rewrite Hget.
  cbn [delete_obj_loop]. unfold try_except, delete_object, send.
  rewrite Hfaults, Hreq. unfold lookup_object in *. cbn [objects]. rewrite Hobj.
  destruct (faults w) as [|[status|] script]; [| contradiction |];
    destruct (List.find _ (objects w)); try contradiction; cbn; now repeat split.
Qed.

Lemma find_store (name contents obj : string) (objs : list (string * string)) :
  List.find (fun kv => String.eqb (fst kv) obj) objs <> None ->
  List.find (fun kv => String.eqb (fst kv) obj) (store name contents objs) <> None.
Proof.
  induction objs as [|[n c] objs IH]; cbn [List.find store fst]; [congruence |].
  destruct (String.eqb_spec n obj) as [-> | Hne].
  - intros _. destruct (String.eqb_spec obj name) as [-> | Hne'];
      cbn [List.find fst]; rewrite String.eqb_refl; discriminate.
  - intros Hfound. destruct (String.eqb_spec n name) as [-> | Hne'];
      cbn [List.find fst].
    + destruct (String.eqb name obj); [discriminate | assumption].
    + destruct (String.eqb_spec n obj); [contradiction | now apply IH].
Qed.

(** Copying an object that is there, over a connection that works: one
    request, after which the object is still there. *)
Lemma copy_obj_served (obj new_obj_path : string) (w : world) :
  connected w -> answered (faults w) -> lookup_object w obj <> None ->
  let r := copy_obj obj new_obj_path w in
  fst r = Returned tt /\
  requests (snd r)
  = requests w
    ++ [CopyObject obj
          (os_path_join ("/" +:+ container_name w) (lstrip_slash new_obj_path))] /\
  faults (snd r) = tail (faults w) /\
  connected (snd r) /\
  lookup_object (snd r) obj <> None.
Proof.
  intros Hconn Hansw Hthere r; subst r.
  destruct (get_connection_connected w Hconn)
    as (w' & Hget & Hname & Hobj & Hfaults & Hreq & _ & Hc).
  unfold copy_obj, bind. rewrite Hget, Hname.
  cbn [copy_obj_loop]. unfold try_except, copy_object, send.
  rewrite Hfaults, Hreq. unfold lookup_object in *. cbn [objects]. rewrite Hobj.
  destruct (List.find _ (objects w)) as [[n c]|] eqn:Hfind; [| contradiction].
  cbn [fmap option_fmap option_map snd].
  assert (Hstored : forall name,
            snd <$> List.find (fun kv => String.eqb (fst kv) obj)
                      (store name c (objects w)) <> None).
  { intros name Hnone.
    apply (find_store name c obj (objects w)); [rewrite Hfind; discriminate |].
    now destruct (List.find _ (store name c (objects w))). }
  destruct (faults w) as [|[status|] script]; [| contradiction |];
    (destruct (dest_name _ _); unfold ret;
     cbn [fst snd requests faults objects set_objects tail];
     (split; [reflexivity |]); (split; [reflexivity |]); (split; [reflexivity |]);
     (split; [left; exact Hc |]));
    try apply Hstored; rewrite Hfind; discriminate.
Qed.

(** The body of the loop on an object whose leaf name is not left blank and
    whose path changes: it is copied to the path made of the prefix and of
    the new parts, then deleted, and mapped to that path. *)
Lemma sanitize_obj_renames (p : Path) (new_obj_paths : gmap string string)
  (obj : string) (w : world) (rel : Path) :
  connected w -> answered (faults w) -> answered (tail (faults w)) ->
  lookup_object w obj <> None ->
  py_strip (py_remove "," (Path_name (Path_of obj))) <> "" ->
  relative_to (Path_of obj) p = Some rel ->
  let new_p_obj := Path_div p (Path_of_args (new_parts (names rel))) in
  Path_eqb new_p_obj (Path_of obj) = false ->
  let r := sanitize_obj p new_obj_paths obj w in
  fst r = Returned (<[obj := Path_str new_p_obj]> new_obj_paths) /\
  requests (snd r)
  = requests w
    ++ [CopyObject obj
          (os_path_join ("/" +:+ container_name w)
             (lstrip_slash (Path_str new_p_obj)));
        DeleteObject obj].
Proof.
  intros Hconn Hansw Hansw' Hthere Hleaf Hrel new_p_obj Hchanged r; subst r.
  unfold sanitize_obj.
  apply String.eqb_neq in Hleaf. rewrite Hleaf, Hrel.
  fold new_p_obj. rewrite Hchanged. cbn [negb].
  pose proof (copy_obj_served obj (Path_str new_p_obj) w Hconn Hansw Hthere)
    as (Hret & Hreq & Hfaults & Hconn1 & Hthere1).
  destruct (copy_obj obj (Path_str new_p_obj) w) as [o1 w1] eqn:Hcopy.
  cbn [fst snd] in Hret, Hreq, Hfaults, Hconn1, Hthere1. subst o1.
  rewrite <- Hfaults in Hansw'.
  pose proof (delete_obj_served obj w1 Hconn1 Hansw' Hthere1) as (Hret2 & _ & Hreq2).
  destruct (delete_obj obj w1) as [o2 w2] eqn:Hdel.
  cbn [fst snd] in Hret2, Hreq2. subst o2.
  unfold bind, ret. rewrite Hcopy, Hdel. cbn [fst snd].
  split; [reflexivity |]. now rewrite Hreq2, Hreq, <- app_assoc.
Qed.

End SanitizeFacts.

(** ** Pipeline trees *)

Module PipelineFacts.
Import Pipelines PipelineSamples.

Lemma children_of_snoc (seen : list PluginPiping) (pip c : PluginPiping) :
  children_of (seen ++ [c]) pip
  = children_of seen pip
    ++ match previous c with
       | Some q => if Z.eqb (id q) (id pip) then [id c] else []
       | None => []
       end.
Proof.
  unfold children_of. rewrite List.filter_app, map_app. f_equal.
  cbn [List.filter]. destruct (previous c) as [q|]; [| reflexivity].
  now destruct (Z.eqb (id q) (id pip)).
Qed.

Lemma filter_none {A : Type} (f : A -> bool) (l : list A) :
  (forall a, In a l -> f a = false) -> List.filter f l = [].
Proof.
  induction l as [|a l IH]; intros H; [reflexivity |].
  cbn [List.filter]. rewrite (H a) by now left.
  apply IH. intros b Hb. apply H. now right.
Qed.

Lemma visit_pipings_parent_first (pipings : list PluginPiping) :
  forall seen tree,
    seen <> [] ->
    List.NoDup (map id (seen ++ pipings)) ->
    (forall c q, In c seen -> previous c = Some q -> In q seen) ->
    parent_first seen pipings ->
    built seen tree ->
    exists tree',
      visit_pipings tree pipings = Returned tree' /\ built (seen ++ pipings) tree'.
Proof.
  induction pipings as [|pip pipings IH]; intros seen tree Hne Hnd Hclosed Hpf Hbuilt.
  - exists tree. rewrite app_nil_r. now split.
  - cbn [parent_first] in Hpf. destruct Hpf as [Hprev Hpf].
    destruct (previous pip) as [prev|] eqn:Hp; [| contradiction].
    assert (Hfresh : ~ In (id pip) (map id seen)).
    { rewrite map_app in Hnd. cbn [map] in Hnd.
      apply List.NoDup_remove_2 in Hnd. intros Hin. apply Hnd.
      apply in_or_app. now left. }
    assert (Hneq : id prev <> id pip).
    { intros Heq. apply Hfresh. rewrite <- Heq. now apply in_map. }
    destruct Hbuilt as [Hin Hout].
    cbn [visit_pipings]. unfold visit_piping.
    rewrite (Hout _ Hfresh), Hp. cbn zeta.
    rewrite lookup_insert_ne by congruence.
    rewrite (Hin prev Hprev).
    cbn [piping child_ids].
    replace (seen ++ pip :: pipings) with ((seen ++ [pip]) ++ pipings) in *
      by now rewrite <- app_assoc.
    apply IH.
    + now destruct seen.
    + assumption.
    + intros c q Hc Hq. apply in_app_or in Hc as [Hc | [Hc | []]].
      * apply in_or_app. left. now apply (Hclosed c).
      * subst c. apply in_or_app. left. congruence.
    + assumption.
    + split.
      * intros x Hx. rewrite children_of_snoc, Hp.
        apply in_app_or in Hx as [Hx | [Hx | []]].
        -- destruct (Z.eqb_spec (id prev) (id x)) as [Heq | Hne'].
           ++ assert (x = prev) as ->.
              { pose proof (Hin x Hx) as H1. pose proof (Hin prev Hprev) as H2.
                rewrite <- Heq in H1. rewrite H1 in H2. now injection H2. }
              now rewrite lookup_insert_eq.
           ++ rewrite lookup_insert_ne by assumption.
              rewrite lookup_insert_ne.
              ** rewrite app_nil_r. now apply Hin.
              ** intros Heq. apply Hfresh. rewrite Heq. now apply in_map.
        -- subst x.
           destruct (Z.eqb_spec (id prev) (id pip)) as [Heq | _]; [contradiction |].
           rewrite lookup_insert_ne by assumption.
           rewrite lookup_insert_eq, app_nil_r. do 2 f_equal.
           unfold children_of. rewrite filter_none; [reflexivity |].
           intros c Hc. destruct (previous c) as [q|] eqn:Hq; [| reflexivity].
           apply Z.eqb_neq. intros Heq. apply Hfresh. rewrite <- Heq.
           apply in_map. now apply (Hclosed c).
      * intros k Hk. rewrite map_app in Hk. cbn [map] in Hk.
        rewrite lookup_insert_ne.
        -- rewrite lookup_insert_ne.
           ++ apply Hout. intros Hin'. apply Hk, in_or_app. now left.
           ++ intros Heq. apply Hk, in_or_app. right. now left.
        -- intros Heq. apply Hk, in_or_app. left. rewrite <- Heq. now apply in_map.
Qed.

(** X23. For pipings with distinct ids that come parent first,
    [get_pipings_tree] returns the id of the first piping as root and, for
    every piping, the piping itself with the ids of its children in the
    order of the list. *)
Lemma get_pipings_tree_parent_first (pipings : list PluginPiping) :
  pipings <> [] ->
  List.NoDup (map id pipings) ->
  parent_first [] pipings ->
  exists root_pip rest t,
    pipings = root_pip :: rest /\
    get_pipings_tree pipings = Returned t /\
    root_id t = id root_pip /\
    (forall pip, In pip pipings ->
       tree t !! id pip
       = Some {| piping := pip; child_ids := children_of pipings pip |}) /\
    (forall k, ~ In k (map id pipings) -> tree t !! k = None).
Proof.
  intros Hne Hnd Hpf.
  destruct pipings as [|root_pip rest]; [contradiction |].
  cbn [parent_first app] in Hpf. destruct Hpf as [Hroot Hpf].
  destruct (previous root_pip) as [q|] eqn:Hp; [destruct Hroot |].
  destruct (visit_pipings_parent_first rest [root_pip]
              {[ id root_pip := {| piping := root_pip; child_ids := [] |} ]})
    as (tree' & Hrun & Hin & Hout); try assumption.
  - discriminate.
  - intros c q [<- | []] Hq. congruence.
  - split.
    + intros pip [<- | []]. rewrite lookup_singleton_eq. do 2 f_equal.
      unfold children_of. cbn [List.filter]. now rewrite Hp.
    + intros k Hk. apply lookup_singleton_ne. intros Heq. apply Hk. now left.
  - exists root_pip, rest.
    eexists. split; [reflexivity |].
    unfold get_pipings_tree. cbn [List.filter]. unfold is_root at 1. rewrite Hp.
    cbn zeta. cbn [visit_pipings]. unfold visit_piping.
    rewrite lookup_singleton_eq. rewrite Hrun.
    split; [reflexivity |]. cbn [root_id tree]. now repeat split.
Qed.

(** C4, on the code: the chain of pipings root(1) <- mid(2) <- leaf(3) is a
    valid tree, and listing piping 3 before piping 2 is a permutation of
    listing them in order, yet [get_pipings_tree] then leaves the root
    without children: piping 2, entered as a placeholder when piping 3 is
    visited, is skipped when its own turn comes and is never registered under
    its parent. *)
Theorem get_pipings_tree_depends_on_order :
  Permutation [pip1; pip2; pip3] [pip1; pip3; pip2] /\
  exists t t',
    get_pipings_tree [pip1; pip2; pip3] = Returned t /\
    get_pipings_tree [pip1; pip3; pip2] = Returned t' /\
    root_id t = 1 /\ root_id t' = 1 /\
    child_ids <$> (tree t !! 1) = Some [2] /\
    child_ids <$> (tree t' !! 1) = Some [] /\
    child_set t 1 <> child_set t' 1.
Proof.
  split; [apply perm_skip, perm_swap |].
  eexists. eexists.
  split; [vm_compute; reflexivity |].
  split; [vm_compute; reflexivity |].
  repeat split; try (vm_compute; reflexivity).
  intros Heq. vm_compute in Heq. discriminate.
Qed.

(** C6, on the code: for the chain root <- mid <- leaf, whose piping in the
    middle has no string parameter, the defaults list the leaf before its
    parent; the plan returned is the root alone, whatever the number of
    iterations allowed, so two steps of the template are missing from it.
    With the defaults listed parent first the plan has the three steps. *)
Theorem get_plugin_tree_drops_steps :
  (forall fuel, plan_titles (get_plugin_tree fuel chain_defaults) = Returned ["root"]) /\
  ~ In "mid" ["root"] /\ ~ In "leaf" ["root"] /\
  plan_titles (get_plugin_tree 2 parent_first_defaults)
  = Returned ["root"; "mid"; "leaf"].
Proof.
  split; [| split; [| split]].
  - intros fuel. destruct fuel; vm_compute; reflexivity.
  - cbn. intros [H | []]. discriminate.
  - cbn. intros [H | []]. discriminate.
  - vm_compute. reflexivity.
Qed.

(** *** The plan of [get_plugin_tree] has no forward reference *)

Lemma odict_get_in {V : Type} (d : odict V) (k : string) (v : V) :
  odict_get d k = Some v -> In (k, v) d.
Proof.
  unfold odict_get. destruct (List.find _ d) as [[k' v']|] eqn:Hfind; [| discriminate].
  intros [= <-]. apply find_some in Hfind as [Hin Hk].
  cbn [fst] in Hk. apply String.eqb_eq in Hk. now subst.
Qed.

Lemma odict_get_key {V : Type} (d : odict V) (k : string) :
  In k (odict_keys d) -> exists v, odict_get d k = Some v.
Proof.
  unfold odict_keys, odict_get. induction d as [|[k' v'] d IH]; [intros [] |].
  cbn [map fst find]. intros [-> | Hin].
  - rewrite String.eqb_refl. now exists v'.
  - destruct (String.eqb k' k); [now exists v' | now apply IH].
Qed.

Lemma odict_update_keys {V : Type} (f : V -> V) (k : string) (d : odict V) :
  odict_keys (odict_update f k d) = odict_keys d.
Proof.
  unfold odict_keys, odict_update. rewrite map_map. apply map_ext.
  intros [k' v]. cbn [fst snd]. now destruct (String.eqb k' k).
Qed.

Lemma odict_update_in {V : Type} (f : V -> V) (k k' : string) (v' : V) (d : odict V) :
  In (k', v') (odict_update f k d) ->
  exists v, In (k', v) d /\ (v' = v \/ v' = f v).
Proof.
  unfold odict_update. rewrite in_map_iff. intros ([k0 v0] & Heq & Hin).
  cbn [fst snd] in Heq. destruct (String.eqb k0 k); injection Heq as <- <-;
    exists v0; split; auto.
Qed.

Lemma prev_of_keys (nodes : odict tree_node) :
  map fst (prev_of nodes) = odict_keys nodes.
Proof. unfold prev_of, odict_keys. rewrite map_map. now apply map_ext. Qed.

Lemma prev_of_update (f : tree_node -> tree_node) (k : string) (nodes : odict tree_node) :
  (forall n, node_previous (f n) = node_previous n) ->
  prev_of (odict_update f k nodes) = prev_of nodes.
Proof.
  intros Hf. unfold prev_of, odict_update. rewrite map_map. apply map_ext.
  intros [k' n]. cbn [fst snd]. destruct (String.eqb k' k); cbn [fst snd]; [| reflexivity].
  now rewrite Hf.
Qed.

Lemma titled_update (f : tree_node -> tree_node) (k : string) (nodes : odict tree_node) :
  (forall n, node_title (f n) = node_title n) ->
  titled nodes -> titled (odict_update f k nodes).
Proof.
  intros Hf Ht k' n' Hin.
  apply odict_update_in in Hin as (n & Hin & [-> | ->]).
  - now apply Ht.
  - rewrite Hf. now apply Ht.
Qed.

Lemma assoc_functional {A B : Type} (l : list (A * B)) (a : A) (b1 b2 : B) :
  List.NoDup (map fst l) -> In (a, b1) l -> In (a, b2) l -> b1 = b2.
Proof.
  induction l as [|[a' b'] l IH]; intros Hnd H1 H2; [destruct H1 |].
  cbn [map fst] in Hnd. apply List.NoDup_cons_iff in Hnd as [Hnotin Hnd].
  destruct H1 as [H1 | H1], H2 as [H2 | H2].
  - congruence.
  - injection H1 as -> ->. exfalso. apply Hnotin.
    change a with (fst (a, b2)). now apply in_map.
  - injection H2 as -> ->. exfalso. apply Hnotin.
    change a with (fst (a, b1)). now apply in_map.
  - now apply IH.
Qed.

(** The first loop files every descriptor under its title, once. *)
Lemma record_default_nodes (st : node_dicts) (dp : DefaultPipingParameter) :
  List.NoDup (odict_keys (tree_nodes_dict st)) /\ titled (tree_nodes_dict st) ->
  List.NoDup (odict_keys (tree_nodes_dict (record_default st dp))) /\
  titled (tree_nodes_dict (record_default st dp)) /\
  (length (tree_nodes_dict (record_default st dp))
   <= S (length (tree_nodes_dict st)))%nat.
Proof.
  intros [Hnd Ht]. unfold record_default. cbn [tree_nodes_dict].
  rewrite odict_update_keys.
  destruct (odict_get (tree_nodes_dict st) (title (plugin_piping dp))) as [n|] eqn:Hget;
    cbn [tree_nodes_dict].
  - split; [assumption |]. split.
    + now apply titled_update.
    + unfold odict_update. rewrite length_map. lia.
  - split; [| split].
    + unfold odict_keys in *. rewrite map_app. cbn [map fst].
      apply List.NoDup_app; [assumption | repeat constructor; intros [] |].
      intros k Hk [<- | []].
      destruct (odict_get_key _ _ Hk) as [v Hv]. unfold odict_keys in *. congruence.
    + apply titled_update; [reflexivity |].
      intros k n Hin. apply in_app_or in Hin as [Hin | [[= <- <-] | []]];
        [now apply Ht | reflexivity].
    + unfold odict_update. rewrite length_map, length_app. cbn [length]. lia.
Qed.

Lemma fold_record_default_nodes (l : list DefaultPipingParameter) :
  forall st,
    List.NoDup (odict_keys (tree_nodes_dict st)) /\ titled (tree_nodes_dict st) ->
    List.NoDup (odict_keys (tree_nodes_dict (fold_left record_default l st))) /\
    titled (tree_nodes_dict (fold_left record_default l st)) /\
    (length (tree_nodes_dict (fold_left record_default l st))
     <= length l + length (tree_nodes_dict st))%nat.
Proof.
  induction l as [|dp l IH]; intros st Hst; cbn [fold_left length].
  - destruct Hst. repeat split; try assumption. lia.
  - destruct (record_default_nodes st dp Hst) as (Hnd & Ht & Hlen).
    destruct (IH (record_default st dp) (conj Hnd Ht)) as (Hnd' & Ht' & Hlen').
    repeat split; try assumption. lia.
Qed.

Lemma odict_get_prev (nodes : odict tree_node) (c : string) (n : tree_node) :
  odict_get nodes c = Some n -> In (c, node_previous n) (prev_of nodes).
Proof.
  intros Hget. apply odict_get_in in Hget. unfold prev_of.
  apply in_map_iff. now exists (c, n).
Qed.

Lemma is_Some_insert {K : Type} `{Countable K} {V : Type}
  (m : gmap K V) (k k' : K) (v : V) :
  is_Some (m !! k) -> is_Some (<[k' := v]> m !! k).
Proof.
  intros Hk. destruct (decide (k' = k)) as [-> | Hne].
  - rewrite lookup_insert_eq. now eexists.
  - now rewrite lookup_insert_ne.
Qed.

Section Linking.
Variable P : list (string * option string).
Variable root : string.

Lemma linked_insert_empty (tree : gmap (option string) (list string)) (title : string) :
  linked P root tree -> tree !! Some title = None ->
  linked P root (<[Some title := []]> tree).
Proof.
  intros [Hroot Hall] Hnone. split; [now apply is_Some_insert |].
  intros k cs Hk. destruct (decide (Some title = k)) as [<- | Hne].
  - rewrite lookup_insert_eq in Hk. injection Hk as <-.
    split; [constructor | intros c []].
  - rewrite lookup_insert_ne in Hk by assumption.
    destruct (Hall k cs Hk) as [Hnd Hcs]. split; [assumption |].
    intros c Hc. destruct (Hcs c Hc) as (HP & Hkey & Hr).
    repeat split; try assumption. now apply is_Some_insert.
Qed.

(** Listing a title that is not listed yet under its [previous]. *)
Lemma linked_insert_child (tree : gmap (option string) (list string))
  (title : string) (prev_title : option string) (children : list string) :
  linked P root tree ->
  is_Some (tree !! Some title) ->
  title <> root ->
  In (title, prev_title) P ->
  ~ In title children ->
  (tree !! prev_title = Some children \/
   tree !! prev_title = None /\ children = []) ->
  linked P root (<[prev_title := children ++ [title]]> tree).
Proof.
  intros [Hroot Hall] Hkey Hnr HP Hfresh Hprev.
  split; [now apply is_Some_insert |].
  intros k cs Hk. destruct (decide (prev_title = k)) as [<- | Hne].
  - rewrite lookup_insert_eq in Hk. injection Hk as <-.
    assert (Hold : List.NoDup children /\
                   forall c, In c children ->
                     In (c, prev_title) P /\ is_Some (tree !! Some c) /\ c <> root).
    { destruct Hprev as [Hprev | [_ ->]]; [now apply Hall |].
      split; [constructor | intros c []]. }
    destruct Hold as [Hnd Hcs]. split.
    + apply List.NoDup_app; [assumption | repeat constructor; intros [] |].
      intros c Hc [<- | []]. contradiction.
    + intros c Hc. apply in_app_or in Hc as [Hc | [<- | []]].
      * destruct (Hcs c Hc) as (H1 & H2 & H3).
        repeat split; try assumption. now apply is_Some_insert.
      * repeat split; try assumption. now apply is_Some_insert.
  - rewrite lookup_insert_ne in Hk by assumption.
    destruct (Hall k cs Hk) as [Hnd Hcs]. split; [assumption |].
    intros c Hc. destruct (Hcs c Hc) as (H1 & H2 & H3).
    repeat split; try assumption. now apply is_Some_insert.
Qed.

Lemma link_title_linked (nodes : odict tree_node)
  (tree tree' : gmap (option string) (list string)) (title : string) :
  prev_of nodes = P ->
  linked P root tree ->
  link_title nodes tree title = Returned tree' ->
  linked P root tree'.
Proof.
  intros HPn Hlinked. unfold link_title.
  destruct (tree !! Some title) as [cs|] eqn:Htitle; [now intros [= <-] |].
  destruct (odict_get nodes title) as [n|] eqn:Hget; [| discriminate].
  pose proof (odict_get_prev nodes title n Hget) as HinP. rewrite HPn in HinP.
  pose proof (linked_insert_empty tree title Hlinked Htitle) as Hlinked1.
  assert (Hkey : is_Some (<[Some title := []]> tree !! Some title))
    by (rewrite lookup_insert_eq; now eexists).
  assert (Hnr : title <> root).
  { intros ->. destruct Hlinked as [[x Hx] _]. congruence. }
  assert (Hfresh : forall children,
            <[Some title := []]> tree !! node_previous n = Some children ->
            ~ In title children).
  { intros children Hch Hin.
    destruct (decide (Some title = node_previous n)) as [Heq | Hne].
    - rewrite <- Heq, lookup_insert_eq in Hch. injection Hch as <-. destruct Hin.
    - rewrite lookup_insert_ne in Hch by assumption.
      destruct Hlinked as [_ Hall]. destruct (Hall _ _ Hch) as [_ Hcs].
      destruct (Hcs title Hin) as (_ & [x Hx] & _). congruence. }
  destruct (<[Some title := []]> tree !! node_previous n) as [children|] eqn:Hprev;
    intros [= <-].
  - apply linked_insert_child; try assumption; [now apply Hfresh | now left].
  - apply (linked_insert_child _ title (node_previous n) []); try assumption;
      [intros [] | now right].
Qed.

Lemma process_ts_nodes (st : node_dicts) (nodes nodes' : odict tree_node)
  (title : string) :
  process_ts st nodes title = Returned nodes' ->
  prev_of nodes' = prev_of nodes /\
  odict_keys nodes' = odict_keys nodes /\
  (titled nodes -> titled nodes').
Proof.
  unfold process_ts.
  destruct (is_ts_dict st !! title) as [[|]|]; try discriminate.
  - destruct (odict_get nodes title) as [n|]; [| discriminate].
    destruct (rewrite_plugininstances _ _) as [defaults | e |]; try discriminate.
    intros [= <-]. split; [| split].
    + now apply prev_of_update.
    + apply odict_update_keys.
    + now apply titled_update.
  - intros [= <-]. now repeat split.
Qed.

Lemma link_titles_linked (st : node_dicts) (titles : list string) :
  forall nodes tree nodes' tree',
    prev_of nodes = P ->
    titled nodes ->
    linked P root tree ->
    link_titles st nodes tree titles = Returned (nodes', tree') ->
    prev_of nodes' = P /\ titled nodes' /\ linked P root tree'.
Proof.
  induction titles as [|title titles IH]; intros nodes tree nodes' tree' HP Ht Hl Hrun;
    cbn [link_titles] in Hrun.
  - injection Hrun as <- <-. split; [assumption | split; assumption].
  - destruct (process_ts st nodes title) as [nodes1 | e |] eqn:Hts; try discriminate.
    destruct (process_ts_nodes st nodes nodes1 title Hts) as (HP1 & _ & Ht1).
    destruct (link_title nodes1 tree title) as [tree1 | e |] eqn:Hlink; try discriminate.
    apply (IH nodes1 tree1); try assumption.
    + congruence.
    + now apply Ht1.
    + apply (link_title_linked nodes1 tree tree1 title); [congruence | assumption..].
Qed.

End Linking.

Lemma no_forward_from_snoc (plan : list tree_node) (n : tree_node) :
  forall seen,
    no_forward_from seen plan ->
    match node_previous n with
    | None => True
    | Some p => In p (seen ++ map node_title plan)
    end ->
    no_forward_from seen (plan ++ [n]).
Proof.
  induction plan as [|m plan IH]; intros seen Hplan Hn; cbn [app no_forward_from].
  - cbn [map] in Hn. rewrite app_nil_r in Hn. now split.
  - destruct Hplan as [Hm Hplan]. split; [assumption |].
    apply IH; [assumption |].
    destruct (node_previous n); [| exact I].
    cbn [map] in Hn. now rewrite <- app_assoc.
Qed.

Section Traversal.
Variable nodes : odict tree_node.
Variable tree : gmap (option string) (list string).
Variable P : list (string * option string).
Variable root : string.
Hypothesis HP : prev_of nodes = P.
Hypothesis Hkeys : List.NoDup (map fst P).
Hypothesis Htitled : titled nodes.
Hypothesis Hlinked : linked P root tree.

Lemma walked_bound (acc : list tree_node) (queue : list string) :
  walked tree P acc queue -> (length acc + length queue <= length P)%nat.
Proof.
  intros (Hnd & Hq & _ & Hacc & _).
  rewrite <- (length_map fst P), <- (length_map node_title acc), <- length_app.
  apply List.NoDup_incl_length; [assumption |].
  intros x Hx. apply in_app_or in Hx as [Hx | Hx].
  - apply in_map_iff in Hx as (n & <- & Hn).
    change (node_title n) with (fst (node_title n, node_previous n)).
    apply in_map. now apply Hacc.
  - destruct (Hq x Hx) as (_ & p & Hp & _).
    change x with (fst (x, Some p)). now apply in_map.
Qed.

Lemma walked_step (acc : list tree_node) (curr : string) (queue : list string) :
  walked tree P acc (curr :: queue) ->
  exists n children,
    odict_get nodes curr = Some n /\
    tree !! Some curr = Some children /\
    walked tree P (acc ++ [n]) (queue ++ children).
Proof.
  intros (Hnd & Hq & Hfwd & Hacc & Hprev).
  destruct (Hq curr (or_introl eq_refl)) as ([children Hch] & p & HpP & Hpacc).
  assert (Hkey : In curr (odict_keys nodes)).
  { rewrite <- prev_of_keys, HP. change curr with (fst (curr, Some p)).
    now apply in_map. }
  destruct (odict_get_key nodes curr Hkey) as [n Hget].
  assert (Htitle : node_title n = curr)
    by (apply Htitled; now apply odict_get_in).
  assert (Hnprev : node_previous n = Some p).
  { apply (assoc_functional P curr); [assumption | | assumption].
    rewrite <- HP. now apply odict_get_prev. }
  destruct Hlinked as [_ Hall]. destruct (Hall _ _ Hch) as [Hndch Hchildren].
  assert (Hcurr : ~ In curr (map node_title acc)).
  { intros Hin. apply List.NoDup_remove_2 in Hnd. apply Hnd, in_or_app. now left. }
  assert (Hnotchild : forall c, In c children ->
            ~ In c (map node_title acc ++ curr :: queue)).
  { intros c Hc Hin. destruct (Hchildren c Hc) as (HcP & _ & _).
    apply in_app_or in Hin as [Hin | [<- | Hin]].
    - apply in_map_iff in Hin as (m & <- & Hm).
      apply Hcurr, (Hprev m); [assumption |].
      apply (assoc_functional P (node_title m)); [assumption | now apply Hacc | assumption].
    - apply Hcurr.
      pose proof (assoc_functional P curr (Some p) (Some curr) Hkeys HpP HcP) as E.
      injection E as <-. exact Hpacc.
    - destruct (Hq c (or_intror Hin)) as (_ & p' & Hp'P & Hp'acc).
      apply Hcurr.
      pose proof (assoc_functional P c (Some p') (Some curr) Hkeys Hp'P HcP) as E.
      injection E as <-. exact Hp'acc. }
  exists n, children. split; [assumption |]. split; [assumption |].
  unfold walked. rewrite map_app. cbn [map]. rewrite Htitle.
  split; [| split; [| split; [| split]]].
  - rewrite <- app_assoc. cbn [app]. rewrite app_comm_cons, app_assoc.
    apply List.NoDup_app; [assumption | assumption |].
    intros c Hc Hc'. now apply (Hnotchild c Hc').
  - intros c Hc. apply in_app_or in Hc as [Hc | Hc].
    + destruct (Hq c (or_intror Hc)) as (Hsome & p' & Hp'P & Hp'acc).
      split; [assumption |]. exists p'. split; [assumption |].
      apply in_or_app. now left.
    + destruct (Hchildren c Hc) as (HcP & Hsome & _).
      split; [assumption |]. exists curr. split; [assumption |].
      apply in_or_app. right. now left.
  - apply no_forward_from_snoc; [assumption |]. now rewrite Hnprev.
  - intros m Hm. apply in_app_or in Hm as [Hm | [<- | []]]; [now apply Hacc |].
    rewrite Htitle, Hnprev. assumption.
  - intros m q Hm Hq'. apply in_or_app.
    apply in_app_or in Hm as [Hm | [<- | []]]; left.
    + now apply (Hprev m).
    + congruence.
Qed.

(** The loop returns, within one iteration per descriptor that is not in the
    plan yet, a plan without forward reference and without repetition. *)
Lemma traverse_sound (fuel : nat) :
  forall queue acc,
    walked tree P acc queue ->
    (length P <= fuel + length acc)%nat ->
    exists plan,
      traverse fuel nodes tree queue acc = Returned plan /\
      no_forward plan /\
      List.NoDup (map node_title plan) /\
      exists more, plan = acc ++ more.
Proof.
  assert (Hdone : forall acc, walked tree P acc [] ->
            no_forward acc /\ List.NoDup (map node_title acc) /\
            exists more, acc = acc ++ more).
  { intros acc (Hnd & _ & Hfwd & _). rewrite app_nil_r in Hnd.
    repeat split; try assumption. exists []. now rewrite app_nil_r. }
  induction fuel as [|fuel IH]; intros queue acc Hw Hfuel;
    destruct queue as [|curr queue].
  - exists acc. split; [reflexivity | now apply Hdone].
  - pose proof (walked_bound _ _ Hw) as Hb. cbn [length] in Hb. lia.
  - exists acc. split; [reflexivity | now apply Hdone].
  - destruct (walked_step _ _ _ Hw) as (n & children & Hget & Hch & Hw').
    cbn [traverse]. rewrite Hget, Hch.
    destruct (IH (queue ++ children) (acc ++ [n]) Hw')
      as (plan & Hrun & Hfwd & Hnd & more & Hmore).
    + rewrite length_app. cbn [length]. lia.
    + exists plan. repeat split; try assumption.
      exists (n :: more). now rewrite Hmore, <- app_assoc.
Qed.

End Traversal.

(** The loops over lists do not run out of iterations. *)
Lemma parent_titles_ends (m : gmap Z string) (pip_ids : list string) :
  parent_titles m pip_ids <> OutOfFuel.
Proof.
  induction pip_ids as [|pip_id rest IH]; cbn [parent_titles]; [discriminate |].
  destruct (py_int pip_id); [| discriminate].
  destruct (m !! _); [| discriminate].
  destruct (parent_titles m rest); [discriminate | discriminate | contradiction].
Qed.

Lemma rewrite_plugininstances_ends (m : gmap Z string) (defaults : list parameter_default) :
  rewrite_plugininstances m defaults <> OutOfFuel.
Proof.
  induction defaults as [|d rest IH]; cbn [rewrite_plugininstances]; [discriminate |].
  destruct (String.eqb (name d) "plugininstances").
  - destruct (truthy (default d)); [| discriminate].
    destruct (default d); try discriminate.
    pose proof (parent_titles_ends m (py_split "," s)) as Hends.
    destruct (parent_titles m (py_split "," s));
      [discriminate | discriminate | contradiction].
  - destruct (rewrite_plugininstances m rest);
      [discriminate | discriminate | contradiction].
Qed.

Lemma link_titles_ends (st : node_dicts) (titles : list string) :
  forall nodes tree, link_titles st nodes tree titles <> OutOfFuel.
Proof.
  induction titles as [|title titles IH]; intros nodes tree; cbn [link_titles];
    [discriminate |].
  unfold process_ts.
  destruct (is_ts_dict st !! title) as [[|]|]; [| | discriminate].
  - destruct (odict_get nodes title) as [n|]; [| discriminate].
    pose proof (rewrite_plugininstances_ends (id_to_title st)
                  (plugin_parameter_defaults n)) as Hends.
    destruct (rewrite_plugininstances _ _); [| discriminate | contradiction].
    unfold link_title.
    destruct (tree !! Some title); [apply IH |].
    destruct (odict_get _ title); [| discriminate].
    destruct (_ !! node_previous _); apply IH.
  - unfold link_title.
    destruct (tree !! Some title); [apply IH |].
    destruct (odict_get _ title); [| discriminate].
    destruct (_ !! node_previous _); apply IH.
Qed.

(** X24. Whatever the default tables are, [get_plugin_tree] does not loop:
    given one iteration per default it returns or raises; and a plan it
    returns starts with a descriptor without [previous], has no forward
    reference and holds no title twice. *)
Lemma get_plugin_tree_sound (t : default_tables) (fuel : nat) :
  (length (get_default_parameters t) <= S fuel)%nat ->
  match get_plugin_tree fuel t with
  | Returned plan =>
      no_forward plan /\ List.NoDup (map node_title plan) /\
      exists root rest, plan = root :: rest /\ node_previous root = None
  | Raised _ => True
  | OutOfFuel => False
  end.
Proof.
  intros Hfuel. unfold get_plugin_tree.
  set (st := fold_left record_default (get_default_parameters t) _).
  destruct (fold_record_default_nodes (get_default_parameters t)
              {| tree_nodes_dict := []; id_to_title := ∅; is_ts_dict := ∅ |})
    as (Hnd & Ht & Hlen).
  { split; [constructor | intros k n []]. }
  fold st in Hnd, Ht, Hlen. cbn [tree_nodes_dict length] in Hlen.
  destruct (List.filter has_no_previous (tree_nodes_dict st))
    as [|[root_title root0] others] eqn:Hfilter; [exact I |].
  assert (Hroot0 : In (root_title, root0) (tree_nodes_dict st) /\
                   node_previous root0 = None).
  { assert (Hin : In (root_title, root0)
                     (List.filter has_no_previous (tree_nodes_dict st)))
      by (rewrite Hfilter; now left).
    apply List.filter_In in Hin as [Hin Hno]. split; [assumption |].
    unfold has_no_previous in Hno. cbn [snd] in Hno.
    now destruct (node_previous root0). }
  destruct Hroot0 as [Hroot0 Hnone].
  set (P := prev_of (tree_nodes_dict st)).
  assert (HrootP : In (root_title, None) P).
  { unfold P, prev_of. apply in_map_iff. exists (root_title, root0).
    cbn [fst snd]. now rewrite Hnone. }
  assert (HkeysP : List.NoDup (map fst P)) by (unfold P; now rewrite prev_of_keys).
  pose proof (link_titles_ends st (odict_keys (tree_nodes_dict st))
                (tree_nodes_dict st) {[ Some root_title := [] ]}) as Hends.
  destruct (link_titles st (tree_nodes_dict st) {[ Some root_title := [] ]}
              (odict_keys (tree_nodes_dict st)))
    as [[nodes tree] | e |] eqn:Hlink; [| exact I | contradiction].
  assert (Hinit : linked P root_title {[ Some root_title := [] ]}).
  { split; [rewrite lookup_singleton_eq; now eexists |].
    intros k cs Hk. apply lookup_singleton_Some in Hk as [_ <-].
    split; [constructor | intros c []]. }
  destruct (link_titles_linked P root_title st _ _ _ _ _ eq_refl Ht Hinit Hlink)
    as (HP & Htitled & Hlinked).
  assert (Hkey : In root_title (odict_keys nodes)).
  { rewrite <- prev_of_keys, HP. change root_title with (fst (root_title, @None string)).
    now apply in_map. }
  destruct (odict_get_key nodes root_title Hkey) as [root Hget]. rewrite Hget.
  pose proof Hlinked as [[children Hch] Hall]. rewrite Hch.
  destruct (Hall _ _ Hch) as [Hndch Hchildren].
  assert (Htitle : node_title root = root_title)
    by (apply Htitled; now apply odict_get_in).
  assert (Hprev : node_previous root = None).
  { apply (assoc_functional P root_title); [assumption | | assumption].
    rewrite <- HP. now apply odict_get_prev. }
  destruct (traverse_sound nodes tree P root_title HP HkeysP Htitled Hlinked
              fuel children [root]) as (plan & Hrun & Hfwd & Hndp & more & Hmore).
  - unfold walked. cbn [map app]. rewrite Htitle.
    split; [| split; [| split; [| split]]].
    + constructor; [| assumption].
      intros Hin. now destruct (Hchildren _ Hin) as (_ & _ & Hne).
    + intros c Hc. destruct (Hchildren c Hc) as (HcP & Hsome & _).
      split; [assumption |]. exists root_title. split; [assumption | now left].
    + unfold no_forward. cbn [no_forward_from]. now rewrite Hprev.
    + intros n [<- | []]. now rewrite Htitle, Hprev.
    + intros n p [<- | []] Hp. congruence.
  - cbn [length]. unfold P, prev_of. rewrite length_map. lia.
  - rewrite Hrun. split; [assumption |]. split; [assumption |].
    exists root, more. now split.
Qed.

End PipelineFacts.

(** ** Output registration *)

Module RegistrationFacts.
Import PluginInstances OutputRegistration LineageSamples.

(** While the listings are answered, the polling loop ends within the polls
    that are left; it ends before the last of them only on a listing longer
    than the count reported; it goes on only from a list that is not longer
    than that count; and it returns the last listing it has received. *)
Lemma poll_stops (listing : nat -> outcome (list string))
  (names : nat -> list string) (reported : Z) (n : nat) :
  (forall k, listing k = Returned (names k)) ->
  forall fuel object_list k,
    0 <= k -> k + Z.of_nat n = maxPolls -> (n <= fuel)%nat ->
    exists l k',
      poll fuel listing reported object_list k = Returned (l, k') /\
      k <= k' <= maxPolls /\
      (k' < maxPolls -> reported < Z.of_nat (length l)) /\
      (k' = k -> l = object_list) /\
      (k < k' ->
       l = names (Z.to_nat (k' - 1)) /\
       Z.of_nat (length object_list) <= reported) /\
      (forall j, k < j < k' ->
         Z.of_nat (length (names (Z.to_nat (j - 1)))) <= reported).
Proof.
  intros Hlist. unfold maxPolls.
  induction n as [|n IH]; intros fuel object_list k Hk Hn Hfuel.
  - exists object_list, k.
    assert (Hlt : (k <? 20)%Z = false) by (apply Z.ltb_ge; lia).
    destruct fuel; cbn [poll]; unfold maxPolls; rewrite Hlt, andb_false_r;
      (split; [reflexivity |]); repeat split; try lia.
  - destruct fuel as [|fuel]; [lia |]. cbn [poll]. unfold maxPolls.
    assert (Hlt : (k <? 20)%Z = true) by (apply Z.ltb_lt; lia).
    rewrite Hlt, andb_true_r.
    destruct (Z.leb_spec (Z.of_nat (length object_list)) reported) as [Hle | Hgt].
    + rewrite Hlist.
      destruct (IH fuel (names (Z.to_nat k)) (k + 1))
        as (l & k' & Hrun & Hrange & Hmore & Hsame & Hlast & Hbelow); try lia.
      exists l, k'. split; [exact Hrun |].
      split; [lia |]. split; [exact Hmore |]. split; [lia |].
      split.
      * intros _. split; [| exact Hle].
        destruct (Z.eq_dec k' (k + 1)) as [-> | Hne].
        -- rewrite (Hsame eq_refl). f_equal. lia.
        -- apply Hlast. lia.
      * intros j Hj. destruct (Z.eq_dec j (k + 1)) as [-> | Hne].
        -- replace (k + 1 - 1) with k by lia. apply Hlast. lia.
        -- apply Hbelow. lia.
    + exists object_list, k. split; [reflexivity |].
      repeat split; try lia.
Qed.

(** Every row is stored when none is refused; and the rows before the first
    one refused are stored when one is. *)
Lemma save_files_all (saved : PluginInstanceFile -> outcome unit) (self_id : Z)
  (object_list : list string) :
  (forall object, In object object_list ->
     saved {| plugin_inst := self_id; fname := object |} = Returned tt) ->
  save_files saved self_id object_list
  = (Returned tt,
     map (fun object => {| plugin_inst := self_id; fname := object |})
       object_list).
Proof.
  induction object_list as [|object rest IH]; intros Hall; [reflexivity |].
  cbn [save_files map]. rewrite (Hall object) by now left.
  rewrite IH; [reflexivity |]. intros o Ho. apply Hall. now right.
Qed.

Lemma save_files_refused (saved : PluginInstanceFile -> outcome unit)
  (self_id : Z) (before : list string) (object : string) (after : list string)
  (e : exn) :
  (forall o, In o before ->
     saved {| plugin_inst := self_id; fname := o |} = Returned tt) ->
  saved {| plugin_inst := self_id; fname := object |} = Raised e ->
  save_files saved self_id (before ++ object :: after)
  = (Raised e,
     map (fun o => {| plugin_inst := self_id; fname := o |}) before).
Proof.
  intros Hall Hrefused. induction before as [|o before IH].
  - cbn [app save_files map]. now rewrite Hrefused.
  - cbn [app save_files map]. rewrite (Hall o) by now left.
    rewrite IH; [reflexivity |]. intros x Hx. apply Hall. now right.
Qed.

(** C3, on the code.  The store lists the same two objects at every poll and
    two files are reported: the first listing already has the expected count,
    yet the loop goes on while the count listed is not above the count
    reported, and polls twenty times.  (With three files reported it polls
    twenty times as well and registers the two files listed; with one file
    reported it stops at the first poll.) *)
Theorem register_output_files_polls_on :
  let store := lists (fun _ _ => ["a.dcm"; "b.dcm"]) in
  (exists r files,
     register_output_files 20 feed_table store stores_all n3 (Some 2)
     = (Returned r, files) /\
     pollLoop r = 20 /\ total r = 2) /\
  (exists r files,
     register_output_files 20 feed_table store stores_all n3 (Some 3)
     = (Returned r, files) /\
     pollLoop r = 20 /\ total r = 2 /\
     files = [ {| plugin_inst := 3; fname := "a.dcm" |};
               {| plugin_inst := 3; fname := "b.dcm" |} ]) /\
  (exists r files,
     register_output_files 20 feed_table store stores_all n3 (Some 1)
     = (Returned r, files) /\
     pollLoop r = 1 /\ total r = 2).
Proof.
  cbv zeta. split; [| split]; eexists; eexists;
    (split; [vm_compute; reflexivity |]); repeat split.
Qed.

End RegistrationFacts.

(** ** Decimal numerals *)

Module NumeralFacts.

Lemma pretty_N_go_chars (x : N) :
  forall s,
    (forall c, In c (list_ascii_of_string s) -> numeral_char c) ->
    forall c, In c (list_ascii_of_string (pretty_N_go x s)) -> numeral_char c.
Proof.
  induction (N.lt_wf_0 x) as [x _ IH]; intros s Hs c Hc.
  destruct (N.eq_dec x 0%N) as [-> | Hne].
  - rewrite pretty_N_go_0 in Hc. now apply Hs.
  - rewrite pretty_N_go_step in Hc by lia.
    apply (IH (x / 10)%N) with (s := String (pretty_N_char (x mod 10)) s);
      [apply N.div_lt; lia | | assumption].
    intros c' [<- | Hc'].
    + right. exists (x mod 10)%N. split; [apply N.mod_lt; lia | reflexivity].
    + now apply Hs.
Qed.

Lemma py_str_chars (n : Z) (c : ascii) :
  In c (list_ascii_of_string (py_str n)) -> numeral_char c.
Proof.
  unfold py_str, pretty, pretty_Z.
  assert (Hpos : forall p c', In c' (list_ascii_of_string (pretty (N.pos p))) ->
                              numeral_char c').
  { intros p c'. unfold pretty, pretty_N.
    destruct (decide (N.pos p = 0%N)); [discriminate |].
    apply pretty_N_go_chars. intros c'' []. }
  destruct n as [|p|p].
  - intros [<- | []]. right. now exists 0%N.
  - exact (Hpos p c).
  - change (In c ("-"%char :: list_ascii_of_string (pretty (N.pos p)))
            -> numeral_char c).
    intros [<- | Hc]; [now left | exact (Hpos p c Hc)].
Qed.

(** A numeral has none of the characters that separate fields. *)
Lemma numeral_char_plain (c : ascii) :
  numeral_char c ->
  c <> "_"%char /\ c <> ","%char /\ c <> "/"%char /\ py_isspace c = false.
Proof.
  intros [-> | (d & Hd & ->)].
  - repeat split; discriminate.
  - assert (d = 0 \/ d = 1 \/ d = 2 \/ d = 3 \/ d = 4 \/ d = 5 \/ d = 6
            \/ d = 7 \/ d = 8 \/ d = 9)%N as Hcases by lia.
    repeat destruct Hcases as [-> | Hcases]; try subst d;
      repeat split; discriminate.
Qed.

End NumeralFacts.

(** ** Output paths of different nodes *)

Module OutputPathFacts.
Import PluginInstances LineageFacts NumeralFacts LineageSamples.

Lemma chars_append (a b : string) :
  list_ascii_of_string (a +:+ b)
  = list_ascii_of_string a ++ list_ascii_of_string b.
Proof.
  induction a as [|c a IH]; [reflexivity |].
  change (c :: list_ascii_of_string (a +:+ b)
          = c :: (list_ascii_of_string a ++ list_ascii_of_string b)).
  now rewrite IH.
Qed.

Lemma chars_inj (a b : string) :
  list_ascii_of_string a = list_ascii_of_string b -> a = b.
Proof.
  intros H. rewrite <- (string_of_list_ascii_of_string a),
    <- (string_of_list_ascii_of_string b). now rewrite H.
Qed.

(** Two lists cut at the first occurrence of [c] have the same pieces. *)
Lemma split_at_first {A : Type} (c : A) (a a' b b' : list A) :
  ~ In c a -> ~ In c a' -> a ++ c :: b = a' ++ c :: b' -> a = a' /\ b = b'.
Proof.
  revert a'. induction a as [|x a IH]; intros [|x' a'] Ha Ha' Heq;
    cbn [app] in Heq.
  - injection Heq as <-. now split.
  - injection Heq as <- _. exfalso. apply Ha'. now left.
  - injection Heq as -> _. exfalso. apply Ha. now left.
  - injection Heq as <- Heq.
    destruct (IH a') as [-> ->]; try assumption.
    + intros H. apply Ha. now right.
    + intros H. apply Ha'. now right.
    + now split.
Qed.

(** The loop only puts segments in front of the path it is given, and what
    it puts does not depend on that path. *)
Lemma output_path_loop_shape (db : table) (fuel : nat) :
  forall current path root q,
    output_path_loop fuel db current path = Returned (root, q) ->
    exists pre,
      q = pre +:+ path /\
      forall path', output_path_loop fuel db current path'
                    = Returned (root, pre +:+ path').
Proof.
  induction fuel as [|fuel IH]; intros current path root q Hrun;
    cbn [output_path_loop] in Hrun |- *;
    destruct (is_fs current) eqn:Hfs; try discriminate.
  - injection Hrun as <- <-. exists "". split; [reflexivity |]. reflexivity.
  - injection Hrun as <- <-. exists "". split; [reflexivity |]. reflexivity.
  - destruct (follow_previous db current) as [p | e |]; try discriminate.
    destruct (IH p _ root q Hrun) as (pre & Hq & Hall).
    exists (pre +:+ segment p). split.
    + now rewrite append_assoc.
    + intros path'. rewrite append_assoc.
      cbn [output_path_loop]. apply Hall.
Qed.

Lemma get_output_path_shape (db : table) (fuel : nat) (x : PluginInstance)
  (path : string) :
  get_output_path fuel db x = Returned path ->
  exists front, path = front +:+ "_" +:+ py_str (id x) +:+ "/data".
Proof.
  unfold get_output_path.
  destruct (output_path_loop fuel db x (segment x +:+ "/data"))
    as [[root q] | e |] eqn:Hloop; try discriminate.
  destruct (feed root) as [f|]; [| discriminate].
  intros [= <-].
  destruct (output_path_loop_shape db fuel x _ root q Hloop) as (pre & -> & _).
  exists (username (owner x) +:+ "/feed_" +:+ py_str (feed_id f) +:+ pre
          +:+ "/" +:+ plugin_name (plugin x)).
  unfold segment. now rewrite !append_assoc.
Qed.

(** X1. Two nodes that get the same output path have the same id: a path
    ends with [_<id>/data], and the numeral of an id has no underscore. *)
Theorem output_path_determines_id (db db' : table) (fuel fuel' : nat)
  (x y : PluginInstance) (path : string) :
  get_output_path fuel db x = Returned path ->
  get_output_path fuel' db' y = Returned path ->
  id x = id y.
Proof.
  intros Hx Hy.
  destruct (get_output_path_shape db fuel x path Hx) as [fx Hfx].
  destruct (get_output_path_shape db' fuel' y path Hy) as [fy Hfy].
  rewrite Hfx in Hfy. apply (f_equal list_ascii_of_string) in Hfy.
  rewrite !chars_append in Hfy. cbn [list_ascii_of_string app] in Hfy.
  assert (Hplain : forall n c,
            In c (rev (list_ascii_of_string (py_str n)
                       ++ list_ascii_of_string "/data")) -> c <> "_"%char).
  { intros n c Hc. apply in_rev in Hc. apply in_app_or in Hc as [Hc | Hc].
    - now apply numeral_char_plain, (py_str_chars n).
    - cbn in Hc. intros ->. intuition discriminate. }
  apply (f_equal (@rev ascii)) in Hfy.
  rewrite !rev_app_distr in Hfy. cbn [rev] in Hfy.
  rewrite <- !app_assoc in Hfy. cbn [app] in Hfy.
  match type of Hfy with
  | ?a ++ _ :: ?b = ?a' ++ _ :: ?b' =>
      destruct (split_at_first "_"%char a a' b b') as [Hnum _]
  end; try assumption.
  - intros Hin. now apply (Hplain (id x) "_"%char).
  - intros Hin. now apply (Hplain (id y) "_"%char).
  - apply rev_inj, app_inv_tail in Hnum.
    apply chars_inj in Hnum. unfold py_str in Hnum.
    now apply (inj pretty) in Hnum.
Qed.

(** X2. The output path of a node that is not of type "fs" is the output
    path of its parent with the node's own segment put before the final
    [/data], when both have the same owner: outputs nest as the lineage
    does. *)
Theorem output_path_nested (db : table) (fuel : nat) (x p : PluginInstance)
  (parent_path : string) :
  is_fs x = false ->
  previous x = Some (id p) ->
  get_pk db (id p) = Some p ->
  username (owner x) = username (owner p) ->
  get_output_path fuel db p = Returned parent_path ->
  exists base,
    parent_path = base +:+ "/data" /\
    get_output_path (S fuel) db x = Returned (base +:+ segment x +:+ "/data").
Proof.
  intros Hfs Hprev Hget Howner. unfold get_output_path.
  destruct (output_path_loop fuel db p (segment p +:+ "/data"))
    as [[root q] | e |] eqn:Hloop; try discriminate.
  destruct (feed root) as [f|] eqn:Hfeed; [| discriminate].
  intros [= <-].
  destruct (output_path_loop_shape db fuel p _ root q Hloop) as (pre & -> & Hall).
  exists (username (owner p) +:+ "/feed_" +:+ py_str (feed_id f) +:+ pre
          +:+ segment p).
  split; [now rewrite !append_assoc |].
  cbn [output_path_loop]. rewrite Hfs, (follow_previous_parent db x p Hprev Hget).
  rewrite Hall, Hfeed, Howner. now rewrite !append_assoc.
Qed.

Lemma output_path_nested_witness :
  exists base,
    base +:+ "/data" = "alice/feed_7/dircopy_1/simpledsapp_2/data" /\
    get_output_path 2 feed_table n3
    = Returned (base +:+ segment n3 +:+ "/data").
Proof.
  destruct (output_path_nested feed_table 1 n3 n2
              "alice/feed_7/dircopy_1/simpledsapp_2/data"
              eq_refl eq_refl eq_refl eq_refl eq_refl) as (base & Hbase & Hrun).
  exists base. split; [now symmetry | exact Hrun].
Defined.

Lemma output_path_determines_id_witness :
  get_output_path 2 feed_table n3 = get_output_path 0 [lone_root] lone_root /\
  n3 <> lone_root /\
  id n3 = id lone_root.
Proof.
  split; [reflexivity |]. split; [discriminate |].
  exact (output_path_determines_id feed_table [lone_root] 2 0 n3 lone_root
           "alice/feed_7/dircopy_1/simpledsapp_2/simpledsapp_3/data"
           eq_refl eq_refl).
Defined.

End OutputPathFacts.

(** ** Roots and their trees *)

Module RootFacts.
Import PluginInstances InstanceFilters DescendantFacts LineageSamples.

(** The traversal from a row of a well-formed table is the recursion on its
    subtree. *)
Lemma descendants_of_row (db : table) (self : PluginInstance) (fuel : nat) :
  keys_unique db -> acyclic db -> In self db -> (length db <= fuel)%nat ->
  get_descendant_instances fuel db self
  = Returned (subtree db (length db) self).
Proof.
  intros Hkeys Hacyc Hself Hfuel. unfold get_descendant_instances.
  rewrite (descendants_loop_subtree db Hkeys Hacyc fuel).
  - cbn [rev app flat_map]. now rewrite app_nil_r.
  - intros q [<- | []]. assumption.
  - cbn [rev app flat_map]. rewrite app_nil_r.
    transitivity (length db); [| assumption].
    apply List.NoDup_incl_length; [now apply subtree_nodup |].
    intros y Hy. now apply subtree_descends in Hy as [Hy _].
Qed.

Lemma subtree_spec (db : table) (x y : PluginInstance) :
  keys_unique db -> acyclic db -> In x db ->
  In y (subtree db (length db) x) <-> descends db x y.
Proof.
  intros Hkeys Hacyc Hx. split.
  - now apply subtree_descends.
  - now apply descends_subtree.
Qed.

(** The row [get_root_instance] returns is above the row it started from. *)
Lemma get_root_instance_ancestor (db : table) (fuel : nat) :
  forall x root,
    get_root_instance fuel db x = Returned root ->
    is_fs root = true /\ exists n, ancestor_at db n x = Some root.
Proof.
  induction fuel as [|fuel IH]; intros x root Hrun;
    cbn [get_root_instance] in Hrun;
    destruct (is_fs x) eqn:Hfs; try discriminate.
  - injection Hrun as <-. split; [assumption | now exists 0%nat].
  - injection Hrun as <-. split; [assumption | now exists 0%nat].
  - unfold follow_previous in Hrun.
    destruct (previous x) as [k|] eqn:Hprev; [| discriminate].
    destruct (get_pk db k) as [p|] eqn:Hget; [| discriminate].
    destruct (IH p root Hrun) as [Hroot [n Hn]].
    split; [assumption |]. exists (S n). cbn [ancestor_at].
    now rewrite Hprev, Hget.
Qed.

(** X3. [get_root_instance] and [get_descendant_instances] fit together: in
    a table with unique keys and no cycle, a row is among the descendants of
    the root the walk up returns for it. *)
Theorem root_descendants_contain_node (db : table) (fuel : nat)
  (x root : PluginInstance) :
  keys_unique db -> acyclic db -> In x db ->
  get_root_instance fuel db x = Returned root ->
  exists l,
    (forall fuel', (length db <= fuel')%nat ->
       get_descendant_instances fuel' db root = Returned l) /\
    head l = Some root /\ In x l.
Proof.
  intros Hkeys Hacyc Hx Hrun.
  destruct (get_root_instance_ancestor db fuel x root Hrun) as [_ [n Hn]].
  assert (Hroot : In root db) by now apply (ancestor_at_in db n x root).
  exists (subtree db (length db) root). split; [| split].
  - intros fuel' Hfuel. now apply descendants_of_row.
  - now destruct (length db).
  - apply subtree_spec; try assumption. split; [assumption | now exists n].
Qed.

(** X4. [filter_by_root_id] on the numeral of a key that the key column
    can hold: when no row of the queryset has the key the result is empty;
    when one has, the result is the whole tree below it in the table (the
    root first), whether or not the queryset holds those rows.  For a
    numeral the column cannot hold, the result is the refusal of the
    database. *)
Theorem filter_by_root_id_whole_tree (column : key_column)
  (db queryset : table) (value : string) (pk : Z) :
  py_int value = Some pk ->
  (key_fits column pk = false ->
   forall fuel,
     filter_by_root_id fuel column db queryset value = key_refused column) /\
  (key_fits column pk = true ->
   ((forall r, In r queryset -> id r <> pk) ->
    forall fuel, filter_by_root_id fuel column db queryset value = Returned []) /\
   (keys_unique db -> acyclic db -> incl queryset db ->
    forall root, In root queryset -> id root = pk ->
    exists l,
      (forall fuel, (length db <= fuel)%nat ->
         filter_by_root_id fuel column db queryset value = Returned l) /\
      head l = Some root /\
      (forall y, In y l <-> descends db root y))).
Proof.
  intros Hint. unfold filter_by_root_id. rewrite Hint.
  split; [now intros -> |]. intros ->. split.
  - intros Hnone fuel.
    destruct (List.filter (fun r => Z.eqb (id r) pk) queryset) as [|r rest] eqn:Hf;
      [reflexivity |].
    exfalso. assert (Hr : In r (List.filter (fun r => Z.eqb (id r) pk) queryset))
      by (rewrite Hf; now left).
    apply filter_In in Hr as [Hr Hk]. apply Z.eqb_eq in Hk.
    now apply (Hnone r).
  - intros Hkeys Hacyc Hincl root Hroot Hk.
    assert (Hrootdb : In root db) by now apply Hincl.
    exists (subtree db (length db) root).
    destruct (List.filter (fun r => Z.eqb (id r) pk) queryset) as [|r rest] eqn:Hf.
    + exfalso.
      assert (Hin : In root (List.filter (fun r => Z.eqb (id r) pk) queryset)).
      { apply filter_In. split; [assumption | now apply Z.eqb_eq]. }
      now rewrite Hf in Hin.
    + assert (Hr : In r (List.filter (fun r => Z.eqb (id r) pk) queryset))
        by (rewrite Hf; now left).
      apply filter_In in Hr as [Hr Hrk]. apply Z.eqb_eq in Hrk.
      assert (Heq : r = root).
      { pose proof (get_pk_row db Hkeys r (Hincl r Hr)) as H1.
        pose proof (get_pk_row db Hkeys root Hrootdb) as H2.
        rewrite Hrk, <- Hk, H2 in H1. now injection H1. }
      subst r. split; [| split].
      * intros fuel Hfuel.
        now apply (descendants_of_row db root fuel).
      * now destruct (length db).
      * intros y. now apply subtree_spec.
Qed.

(** In a table where every row that is not of type "fs" has a stored
    parent, the walk up goes on until it meets a row of type "fs". *)
Lemma get_root_instance_progress (db : table) :
  keys_unique db ->
  (forall y, In y db -> is_fs y = false ->
     exists p, In p db /\ previous y = Some (id p)) ->
  forall fuel x, In x db ->
    (exists root,
       get_root_instance fuel db x = Returned root /\
       is_fs root = true /\ In root db) \/
    (get_root_instance fuel db x = OutOfFuel /\
     exists y, ancestor_at db (S fuel) x = Some y).
Proof.
  intros Hkeys Hclosed.
  induction fuel as [|fuel IH]; intros x Hx; cbn [get_root_instance];
    destruct (is_fs x) eqn:Hfs;
    try (left; exists x; now repeat split);
    destruct (Hclosed x Hx Hfs) as (p & Hp & Hprev);
    pose proof (get_pk_row db Hkeys p Hp) as Hget.
  - right. split; [reflexivity |]. exists p. cbn [ancestor_at].
    now rewrite Hprev, Hget.
  - unfold follow_previous. rewrite Hprev, Hget.
    destruct (IH p Hp) as [Hroot | [Hout [y Hy]]]; [now left |].
    right. split; [exact Hout |]. exists y.
    change (ancestor_at db (S (S fuel)) x)
      with (match previous x with
            | Some k => match get_pk db k with
                        | Some q => ancestor_at db (S fuel) q
                        | None => None
                        end
            | None => None
            end).
    now rewrite Hprev, Hget.
Qed.

Lemma output_path_loop_root (db : table) (fuel : nat) :
  forall x root path,
    get_root_instance fuel db x = Returned root ->
    exists q, output_path_loop fuel db x path = Returned (root, q).
Proof.
  induction fuel as [|fuel IH]; intros x root path Hrun;
    cbn [get_root_instance output_path_loop] in *;
    destruct (is_fs x); try discriminate;
    try (injection Hrun as <-; now eexists).
  destruct (follow_previous db x) as [p | e |]; try discriminate.
  now apply IH.
Qed.

(** X21. In a table with unique keys and no cycle where every row that is
    not of type "fs" has a stored parent, the walks always end: with one
    iteration per row of the table, [get_root_instance] returns for every
    row a stored row of type "fs", and [get_output_path] returns a path
    when every row has a feed. *)
Theorem walks_end_in_closed_table (db : table) (x : PluginInstance) :
  keys_unique db -> acyclic db ->
  (forall y, In y db -> is_fs y = false ->
     exists p, In p db /\ previous y = Some (id p)) ->
  In x db ->
  (exists root,
     get_root_instance (length db) db x = Returned root /\
     is_fs root = true /\ In root db) /\
  ((forall y, In y db -> feed y <> None) ->
   exists path, get_output_path (length db) db x = Returned path).
Proof.
  intros Hkeys Hacyc Hclosed Hx.
  assert (Hroot : exists root,
            get_root_instance (length db) db x = Returned root /\
            is_fs root = true /\ In root db).
  { destruct (get_root_instance_progress db Hkeys Hclosed (length db) x Hx)
      as [Hroot | [_ [y Hy]]]; [exact Hroot | exfalso].
    rewrite (ancestor_at_none_le db (length db) (S (length db)) x) in Hy;
      [discriminate | lia | now apply acyclic_bounded]. }
  split; [exact Hroot |].
  intros Hfeeds. destruct Hroot as (root & Hrun & _ & Hin).
  destruct (output_path_loop_root db (length db) x root
              (segment x +:+ "/data") Hrun) as [q Hq].
  unfold get_output_path. rewrite Hq.
  destruct (feed root) as [f|] eqn:Hf; [now eexists |].
  exfalso. now apply (Hfeeds root Hin).
Qed.

Lemma feed_table_keys : keys_unique feed_table.
Proof.
  unfold keys_unique. cbn. repeat constructor; cbn; intuition discriminate.
Qed.

Lemma feed_table_acyclic : acyclic feed_table.
Proof. apply acyclicb_sound. reflexivity. Qed.

Lemma walks_end_in_closed_table_witness :
  (exists root, get_root_instance 4 feed_table n4 = Returned root /\
                is_fs root = true) /\
  exists path, get_output_path 4 feed_table n4 = Returned path.
Proof.
  destruct (walks_end_in_closed_table feed_table n4 feed_table_keys
              feed_table_acyclic) as [(root & Hrun & Hfs & _) Hpath].
  - intros y [<- | [<- | [<- | [<- | []]]]] Hfs; try discriminate;
      [exists n2 | exists n2 | exists n1]; (split; [cbn; tauto | reflexivity]).
  - cbn. tauto.
  - split; [now exists root |]. apply Hpath.
    intros y [<- | [<- | [<- | [<- | []]]]]; discriminate.
Defined.

Lemma root_descendants_contain_node_witness :
  exists l,
    get_descendant_instances 4 feed_table n1 = Returned l /\
    head l = Some n1 /\ In n3 l.
Proof.
  destruct (root_descendants_contain_node feed_table 2 n3 n1
              feed_table_keys feed_table_acyclic
              ltac:(cbn; tauto) eq_refl) as (l & Hrun & Hhead & Hin).
  exists l. split; [apply Hrun; cbn; lia | now split].
Defined.

Lemma filter_by_root_id_whole_tree_witness :
  filter_by_root_id 4 sqlite_key feed_table [n4; n3] "9" = Returned [] /\
  (exists l,
     filter_by_root_id 4 sqlite_key feed_table [n2] "2" = Returned l /\
     head l = Some n2 /\ In n3 l) /\
  filter_by_root_id 4 sqlite_key feed_table [n2] "99999999999999999999"
  = Raised OverflowError.
Proof.
  split; [| split].
  - destruct (filter_by_root_id_whole_tree sqlite_key feed_table [n4; n3] "9" 9
                eq_refl) as [_ Hfits].
    destruct (Hfits eq_refl) as [Hnone _].
    apply Hnone. intros r [<- | [<- | []]]; cbn; lia.
  - destruct (filter_by_root_id_whole_tree sqlite_key feed_table [n2] "2" 2
                eq_refl) as [_ Hfits].
    destruct (Hfits eq_refl) as [_ Htree].
    destruct (Htree feed_table_keys feed_table_acyclic
                ltac:(intros r [<- | []]; cbn; tauto) n2
                ltac:(now left) eq_refl) as (l & Hrun & Hhead & Hall).
    exists l. split; [apply Hrun; cbn; lia | split; [assumption |]].
    apply Hall. split; [cbn; tauto | now exists 1%nat].
  - destruct (filter_by_root_id_whole_tree sqlite_key feed_table [n2]
                "99999999999999999999" 99999999999999999999 eq_refl)
      as [Hrefused _].
    apply Hrefused. reflexivity.
Defined.

End RootFacts.

(** ** Registration of the files listed *)

Module PollingFacts.
Import PluginInstances OutputRegistration RegistrationFacts LineageSamples.

(** X5. [register_output_files] once the output path is computed.  While
    the listing requests are answered and the database stores the rows, it
    returns after at most twenty polls; it creates one file row per name of
    the last listing received, in the order listed and all for this
    instance; it stops before the twentieth poll only on a listing longer
    than the count reported; and while no listing is longer than a count
    reported that is not negative, it polls twenty times.  A listing request
    that is refused is raised as it is, the first one before any row is
    created; and a row the database refuses is raised as well, the rows
    created before it staying. *)
Theorem register_output_files_last_listing (db : table)
  (store : string -> nat -> outcome (list string))
  (saved : PluginInstanceFile -> outcome unit) (self : PluginInstance)
  (d_swiftstore : option Z) (fuel : nat) (path : string) :
  get_output_path fuel db self = Returned path ->
  (20 <= fuel)%nat ->
  let reported := match d_swiftstore with Some n => n | None => 0 end in
  let run := register_output_files fuel db store saved self d_swiftstore in
  let row := fun name => {| plugin_inst := id self; fname := name |} in
  (forall names,
     (forall k, store path k = Returned (names k)) ->
     exists l k',
       poll fuel (store path) reported [] 0 = Returned (l, k') /\
       0 <= k' <= maxPolls /\
       (k' = 0 -> l = []) /\
       (0 < k' -> l = names (Z.to_nat (k' - 1))) /\
       (k' < maxPolls -> reported < Z.of_nat (length l)) /\
       (0 <= reported ->
        (forall k, Z.of_nat (length (names k)) <= reported) ->
        k' = maxPolls) /\
       ((forall name, In name l -> saved (row name) = Returned tt) ->
        run = (Returned {| status := true; l_object := l;
                           total := Z.of_nat (length l);
                           outputPath := path; pollLoop := k' |},
               map row l)) /\
       (forall before name after e,
          l = before ++ name :: after ->
          (forall o, In o before -> saved (row o) = Returned tt) ->
          saved (row name) = Raised e ->
          run = (Raised e, map row before))) /\
  (forall e, 0 <= reported -> store path 0%nat = Raised e ->
     run = (Raised e, [])).
Proof.
  intros Hpath Hfuel reported run row. subst run.
  unfold register_output_files. rewrite Hpath. fold reported. split.
  - intros names Hlist.
    destruct (poll_stops (store path) names reported 20 Hlist fuel [] 0)
      as (l & k' & Hrun & Hrange & Hmore & Hsame & Hlast & _);
      [lia | reflexivity | assumption |].
    exists l, k'. rewrite Hrun.
    split; [reflexivity |]. split; [exact Hrange |].
    split; [intros ->; now apply Hsame |].
    split; [intros Hpos; now apply Hlast |].
    split; [exact Hmore |]. split; [| split].
    + intros Hrep Hall.
      destruct (Z.eq_dec k' maxPolls) as [Heq | Hne]; [assumption | exfalso].
      assert (Hlt : k' < maxPolls) by lia. specialize (Hmore Hlt).
      destruct (Z.eq_dec k' 0) as [-> | Hk].
      * rewrite (Hsame eq_refl) in Hmore. cbn in Hmore. lia.
      * destruct Hlast as [-> _]; [lia |].
        specialize (Hall (Z.to_nat (k' - 1))). lia.
    + intros Hsaved. now rewrite (save_files_all saved (id self) l Hsaved).
    + intros before name after e -> Hsaved Hrefused.
      now rewrite (save_files_refused saved (id self) before name after e
                     Hsaved Hrefused).
  - intros e Hrep Hrefused. destruct fuel as [|fuel]; [lia |].
    cbn [poll length]. unfold maxPolls.
    assert (Hle : (Z.of_nat 0 <=? reported)%Z = true) by (apply Z.leb_le; lia).
    rewrite Hle. cbn [andb Z.ltb Z.compare Z.to_nat].
    change (Z.to_nat 0) with 0%nat. now rewrite Hrefused.
Qed.

Lemma register_output_files_last_listing_witness :
  let names := fun (_ : string) (k : nat) =>
    if (k <? 2)%nat then ["a.dcm"] else ["a.dcm"; "b.dcm"; "c.dcm"] in
  let refuses_b := fun f : PluginInstanceFile =>
    if String.eqb (fname f) "b.dcm" then Raised DataError else Returned tt in
  register_output_files 20 feed_table (lists names) stores_all n3 (Some 2)
  = (Returned {| status := true; l_object := ["a.dcm"; "b.dcm"; "c.dcm"];
                 total := 3;
                 outputPath := "alice/feed_7/dircopy_1/simpledsapp_2/simpledsapp_3/data";
                 pollLoop := 3 |},
     [ {| plugin_inst := 3; fname := "a.dcm" |};
       {| plugin_inst := 3; fname := "b.dcm" |};
       {| plugin_inst := 3; fname := "c.dcm" |} ]) /\
  register_output_files 20 feed_table (lists names) refuses_b n3 (Some 2)
  = (Raised DataError, [ {| plugin_inst := 3; fname := "a.dcm" |} ]) /\
  register_output_files 20 feed_table
    (fun _ _ => Raised (ClientException 503)) stores_all n3 (Some 2)
  = (Raised (ClientException 503), []).
Proof.
  cbv zeta. split; [| split].
  - destruct (register_output_files_last_listing feed_table
                (lists (fun (_ : string) (k : nat) =>
                          if (k <? 2)%nat then ["a.dcm"]
                          else ["a.dcm"; "b.dcm"; "c.dcm"]))
                stores_all n3 (Some 2) 20
                "alice/feed_7/dircopy_1/simpledsapp_2/simpledsapp_3/data"
                eq_refl ltac:(lia)) as [Hanswered _].
    destruct (Hanswered (fun k => if (k <? 2)%nat then ["a.dcm"]
                                  else ["a.dcm"; "b.dcm"; "c.dcm"])
                ltac:(reflexivity))
      as (l & k' & Hpoll & _ & _ & _ & _ & _ & Hrun & _).
    vm_compute in Hpoll. injection Hpoll as <- <-.
    rewrite Hrun; [reflexivity | reflexivity].
  - destruct (register_output_files_last_listing feed_table
                (lists (fun (_ : string) (k : nat) =>
                          if (k <? 2)%nat then ["a.dcm"]
                          else ["a.dcm"; "b.dcm"; "c.dcm"]))
                (fun f : PluginInstanceFile =>
                   if String.eqb (fname f) "b.dcm" then Raised DataError
                   else Returned tt)
                n3 (Some 2) 20
                "alice/feed_7/dircopy_1/simpledsapp_2/simpledsapp_3/data"
                eq_refl ltac:(lia)) as [Hanswered _].
    destruct (Hanswered (fun k => if (k <? 2)%nat then ["a.dcm"]
                                  else ["a.dcm"; "b.dcm"; "c.dcm"])
                ltac:(reflexivity))
      as (l & k' & Hpoll & _ & _ & _ & _ & _ & _ & Hrefused).
    vm_compute in Hpoll. injection Hpoll as <- <-.
    apply (Hrefused ["a.dcm"] "b.dcm" ["c.dcm"] DataError eq_refl).
    + intros o [<- | []]. reflexivity.
    + reflexivity.
  - destruct (register_output_files_last_listing feed_table
                (fun _ _ => Raised (ClientException 503)) stores_all n3 (Some 2)
                20 "alice/feed_7/dircopy_1/simpledsapp_2/simpledsapp_3/data"
                eq_refl ltac:(lia)) as [_ Hfirst].
    apply Hfirst; [lia | reflexivity].
Defined.

End PollingFacts.

(** ** Connecting and listing *)

Module ListingFacts.
Import Swift SwiftFacts SwiftSamples.

(** [k] refusals of the constructor, then a connection: [k] sleeps. *)
Lemma get_connection_loop_transient (statuses : list Z) :
  forall n i w script,
    connect_faults w = map Some statuses ++ script ->
    answered script ->
    (length statuses < n)%nat ->
    i + Z.of_nat n = 5 ->
    let r := get_connection_loop n i w in
    fst r = Returned tt /\ _conn (snd r) = true /\
    sleeps (snd r) = sleeps w ++ repeat 400 (length statuses) /\
    connect_faults (snd r) = tail script /\
    faults (snd r) = faults w /\ container_name (snd r) = container_name w.
Proof.
  induction statuses as [|status statuses IH];
    intros n i w script Hfaults Hansw Hlen Hi r; subst r;
    (destruct n as [|n]; [cbn [length] in Hlen; lia |]);
    cbn [get_connection_loop]; unfold try_except, connect;
    cbn [map app] in Hfaults; rewrite Hfaults.
  - destruct script as [|[status|] script]; [| contradiction |];
      cbn; rewrite ?app_nil_r; now repeat split.
  - assert (Hi4 : (i =? 4)%Z = false)
      by (apply Z.eqb_neq; cbn [length] in Hlen; lia).
    rewrite Hi4. unfold bind, sleep.
    match goal with |- context [get_connection_loop n ?j ?v] =>
      destruct (IH n j v script) as (Hres & Hc & Hsl & Hcf & Hf & Hname) end;
      try assumption; try reflexivity; try (cbn [length] in Hlen; lia).
    cbn [fst snd sleeps connect_faults faults container_name length repeat] in *.
    rewrite Hres, Hc, Hsl, Hcf, Hf, Hname, <- !app_assoc. now repeat split.
Qed.

(** As many refusals as attempts are left: the last one is raised. *)
Lemma get_connection_loop_exhausted (statuses : list Z) :
  forall n i w script last_status,
    _conn w = false ->
    connect_faults w = map Some statuses ++ Some last_status :: script ->
    S (length statuses) = n ->
    i + Z.of_nat n = 5 ->
    let r := get_connection_loop n i w in
    fst r = Raised (ClientException last_status) /\ _conn (snd r) = false /\
    sleeps (snd r) = sleeps w ++ repeat 400 (length statuses) /\
    connect_faults (snd r) = script.
Proof.
  induction statuses as [|status statuses IH];
    intros n i w script last_status Hconn Hfaults Hlen Hi r; subst r n;
    cbn [get_connection_loop]; unfold try_except, connect;
    cbn [map app] in Hfaults; rewrite Hfaults.
  - assert (Hi4 : (i =? 4)%Z = true) by (apply Z.eqb_eq; cbn [length] in Hi; lia).
    rewrite Hi4. cbn. rewrite app_nil_r. now repeat split.
  - assert (Hi4 : (i =? 4)%Z = false)
      by (apply Z.eqb_neq; cbn [length] in Hi; lia).
    rewrite Hi4. unfold bind, sleep.
    match goal with |- context [get_connection_loop _ ?j ?v] =>
      destruct (IH (S (length statuses)) j v script last_status)
        as (Hres & Hc & Hsl & Hcf) end;
      try assumption; try reflexivity; try (cbn [length] in Hi; lia).
    cbn [fst snd sleeps connect_faults _conn length repeat] in *.
    rewrite Hres, Hc, Hsl, Hcf, <- !app_assoc. now repeat split.
Qed.

(** X6. [__get_connection] without a connection calls the constructor up to
    five times.  After [k <= 4] refusals the connection is made and kept,
    after exactly [k] sleeps of 400 ms; a fifth refusal in a row is raised,
    after four sleeps, and no connection is kept.  In both cases no request
    is sent and the container is as before. *)
Theorem get_connection_attempts (w : world) (statuses : list Z)
  (script : list (option Z)) :
  _conn w = false ->
  connect_faults w = map Some statuses ++ script ->
  let r := __get_connection w in
  (answered script -> (length statuses <= 4)%nat ->
   fst r = Returned tt /\ _conn (snd r) = true /\
   sleeps (snd r) = sleeps w ++ repeat 400 (length statuses) /\
   connect_faults (snd r) = tail script) /\
  (forall last_status script',
     script = Some last_status :: script' -> length statuses = 4%nat ->
     fst r = Raised (ClientException last_status) /\ _conn (snd r) = false /\
     sleeps (snd r) = sleeps w ++ repeat 400 4 /\
     connect_faults (snd r) = script') /\
  objects (snd r) = objects w /\ requests (snd r) = requests w.
Proof.
  intros Hconn Hfaults r. subst r.
  split; [| split; [| apply get_connection_quiet]];
    unfold __get_connection; rewrite Hconn.
  - intros Hansw Hlen.
    destruct (get_connection_loop_transient statuses 5 0 w script)
      as (H1 & H2 & H3 & H4 & _); try assumption; try lia.
    now repeat split.
  - intros last_status script' -> Hlen.
    destruct (get_connection_loop_exhausted statuses 5 0 w script' last_status)
      as (H1 & H2 & H3 & H4); try assumption; try lia.
    rewrite Hlen in H3. now repeat split.
Qed.

Lemma get_connection_attempts_witness :
  let w := {| container_name := "users"; objects := []; faults := [];
              connect_faults := [Some 503; Some 503; None; Some 500];
              _conn := false; requests := []; sleeps := [] |} in
  fst (__get_connection w) = Returned tt /\
  _conn (snd (__get_connection w)) = true /\
  sleeps (snd (__get_connection w)) = [400; 400] /\
  connect_faults (snd (__get_connection w)) = [Some 500].
Proof.
  cbv zeta.
  destruct (get_connection_attempts
              {| container_name := "users"; objects := []; faults := [];
                 connect_faults := [Some 503; Some 503; None; Some 500];
                 _conn := false; requests := []; sleeps := [] |}
              [503; 503] [None; Some 500] eq_refl eq_refl) as (Hok & _ & _).
  apply Hok; [exact I | cbn; lia].
Defined.

(** [k] failures of the listing request, whatever their status, then an
    answer: [k] sleeps and [k + 1] requests. *)
Lemma ls_loop_transient (path : string) (full : bool) (statuses : list Z) :
  forall n i w script,
    faults w = map Some statuses ++ script ->
    answered script ->
    (length statuses < n)%nat ->
    i + Z.of_nat n = 5 ->
    let r := ls_loop n i path full w in
    fst r
    = Returned
        (let names := List.filter (String.prefix path) (map fst (objects w)) in
         if full then names else take page_size names) /\
    sleeps (snd r) = sleeps w ++ repeat 400 (length statuses) /\
    requests (snd r)
    = requests w ++ repeat (GetContainer path full) (S (length statuses)) /\
    faults (snd r) = tail script /\ _conn (snd r) = _conn w.
Proof.
  induction statuses as [|status statuses IH];
    intros n i w script Hfaults Hansw Hlen Hi r; subst r;
    (destruct n as [|n]; [cbn [length] in Hlen; lia |]);
    cbn [ls_loop]; unfold try_except, get_container, send;
    cbn [map app] in Hfaults; rewrite Hfaults.
  - destruct script as [|[status|] script]; [| contradiction |];
      cbn; rewrite ?app_nil_r; now repeat split.
  - assert (Hi4 : (i =? 4)%Z = false)
      by (apply Z.eqb_neq; cbn [length] in Hlen; lia).
    rewrite Hi4. unfold bind, sleep.
    match goal with |- context [ls_loop n ?j path full ?v] =>
      destruct (IH n j v script) as (Hres & Hsl & Hreq & Hf & Hc) end;
      try assumption; try reflexivity; try (cbn [length] in Hlen; lia).
    cbn [fst snd sleeps requests objects faults _conn length repeat] in *.
    rewrite Hres, Hsl, Hreq, Hf, Hc, <- !app_assoc. now repeat split.
Qed.

Lemma ls_loop_exhausted (path : string) (full : bool) (statuses : list Z) :
  forall n i w script last_status,
    faults w = map Some statuses ++ Some last_status :: script ->
    S (length statuses) = n ->
    i + Z.of_nat n = 5 ->
    let r := ls_loop n i path full w in
    fst r = Raised (ClientException last_status) /\
    sleeps (snd r) = sleeps w ++ repeat 400 (length statuses) /\
    requests (snd r)
    = requests w ++ repeat (GetContainer path full) (S (length statuses)).
Proof.
  induction statuses as [|status statuses IH];
    intros n i w script last_status Hfaults Hlen Hi r; subst r n;
    cbn [ls_loop]; unfold try_except, get_container, send;
    cbn [map app] in Hfaults; rewrite Hfaults.
  - assert (Hi4 : (i =? 4)%Z = true) by (apply Z.eqb_eq; cbn [length] in Hi; lia).
    rewrite Hi4. cbn. rewrite app_nil_r. now repeat split.
  - assert (Hi4 : (i =? 4)%Z = false)
      by (apply Z.eqb_neq; cbn [length] in Hi; lia).
    rewrite Hi4. unfold bind, sleep.
    match goal with |- context [ls_loop _ ?j path full ?v] =>
      destruct (IH (S (length statuses)) j v script last_status)
        as (Hres & Hsl & Hreq) end;
      try assumption; try reflexivity; try (cbn [length] in Hi; lia).
    cbn [fst snd sleeps requests length repeat] in *.
    rewrite Hres, Hsl, Hreq, <- !app_assoc. now repeat split.
Qed.

(** X7. [ls] over a connection that is there or can be made, for a path that
    is not empty: every failure of the listing request is tried again,
    "not found" included.  After [k <= 4] failures the names that start with
    the path are returned in the order of the container, after [k] sleeps of
    400 ms and [k + 1] requests; a fifth failure in a row is raised. *)
Theorem ls_retries_every_failure (path : string) (w : world)
  (statuses : list Z) (script : list (option Z)) :
  connected w -> path <> "" ->
  faults w = map Some statuses ++ script ->
  let r := ls path w in
  (answered script -> (length statuses <= 4)%nat ->
   fst r = Returned (List.filter (String.prefix path) (map fst (objects w))) /\
   sleeps (snd r) = sleeps w ++ repeat 400 (length statuses) /\
   requests (snd r)
   = requests w ++ repeat (GetContainer path true) (S (length statuses))) /\
  (forall last_status script',
     script = Some last_status :: script' -> length statuses = 4%nat ->
     fst r = Raised (ClientException last_status) /\
     sleeps (snd r) = sleeps w ++ repeat 400 4 /\
     requests (snd r) = requests w ++ repeat (GetContainer path true) 5).
Proof.
  intros Hconn Hpath Hfaults r. subst r.
  destruct (get_connection_connected w Hconn)
    as (w' & Hget & _ & Hobj & Hf & Hreq & Hsl & _).
  apply String.eqb_neq in Hpath.
  unfold ls, _ls. rewrite Hpath. unfold bind. rewrite Hget.
  rewrite <- Hf in Hfaults. split.
  - intros Hansw Hlen.
    destruct (ls_loop_transient path true statuses 5 0 w' script)
      as (H1 & H2 & H3 & _); try assumption; try lia.
    cbv zeta in H1. rewrite H1, H2, H3, Hobj, Hreq, Hsl. now repeat split.
  - intros last_status script' -> Hlen.
    destruct (ls_loop_exhausted path true statuses 5 0 w' script' last_status)
      as (H1 & H2 & H3); try assumption; try lia.
    rewrite H1, H2, H3, Hreq, Hsl, Hlen. now repeat split.
Qed.

Lemma ls_retries_every_failure_witness :
  fst (ls "home" (faulty_world [Some 404; Some 503])) = Returned ["home/alice/f.txt"] /\
  sleeps (snd (ls "home" (faulty_world [Some 404; Some 503]))) = [400; 400].
Proof.
  destruct (ls_retries_every_failure "home" (faulty_world [Some 404; Some 503])
              [404; 503] [] ltac:(now left) ltac:(discriminate) eq_refl)
    as [Hok _].
  destruct (Hok I ltac:(cbn; lia)) as (Hres & Hsl & _).
  split; [exact Hres | exact Hsl].
Defined.

(** [take] of a positive count keeps a list that is not empty so. *)
Lemma take_nonempty {A : Type} (n : nat) (l : list A) :
  (0 < n)%nat -> (0 <? length (take n l))%nat = (0 <? length l)%nat.
Proof. intros Hn. destruct n; [lia |]. now destruct l. Qed.

Lemma filter_nonempty {A : Type} (f : A -> bool) (l : list A) :
  (0 <? length (List.filter f l))%nat = existsb f l.
Proof.
  induction l as [|x l IH]; [reflexivity |].
  cbn [List.filter existsb]. destruct (f x); [reflexivity | exact IH].
Qed.

Lemma path_exists_served (path : string) (w : world) :
  path <> "" -> connected w -> answered (faults w) ->
  fst (path_exists path w)
  = Returned (existsb (String.prefix path) (map fst (objects w))) /\
  objects (snd (path_exists path w)) = objects w /\
  requests (snd (path_exists path w))
  = requests w ++ [GetContainer path false].
Proof.
  intros Hpath Hconn Hansw.
  destruct (get_connection_connected w Hconn)
    as (w' & Hget & _ & Hobj & Hf & Hreq & _).
  apply String.eqb_neq in Hpath.
  unfold path_exists, _ls. rewrite Hpath. unfold bind. rewrite Hget.
  cbn [ls_loop]. unfold try_except, get_container, send.
  rewrite Hf, Hreq, Hobj.
  assert (Hsize : (0 < page_size)%nat) by (unfold page_size; lia).
  destruct (faults w) as [|[status|] script]; [| contradiction |];
    cbn [fst snd ret objects requests];
    rewrite (take_nonempty _ _ Hsize), filter_nonempty; now repeat split.
Qed.

(** X8. [path_exists] answers [False] for the empty path without touching
    the connection; for another path, over a connection that works, it
    answers whether some object name starts with the path, with one
    request. *)
Theorem path_exists_prefix (path : string) (w : world) :
  path_exists "" w = (Returned false, w) /\
  (path <> "" -> connected w -> answered (faults w) ->
   fst (path_exists path w)
   = Returned (existsb (String.prefix path) (map fst (objects w))) /\
   objects (snd (path_exists path w)) = objects w /\
   requests (snd (path_exists path w))
   = requests w ++ [GetContainer path false]).
Proof.
  split; [reflexivity | apply path_exists_served].
Qed.

Lemma path_exists_prefix_witness :
  fst (path_exists "home/al" (faulty_world [])) = Returned true /\
  fst (path_exists "alice" (faulty_world [])) = Returned false.
Proof.
  split.
  - destruct (path_exists_prefix "home/al" (faulty_world [])) as [_ H].
    destruct H as (Hres & _); [discriminate | now left | exact I |].
    exact Hres.
  - destruct (path_exists_prefix "alice" (faulty_world [])) as [_ H].
    destruct H as (Hres & _); [discriminate | now left | exact I |].
    exact Hres.
Defined.

End ListingFacts.

(** ** Whole paths: [copy_path] and [delete_path] *)

Module PathFacts.
Import Swift SwiftPaths SwiftFacts SanitizeFacts ListingFacts SwiftSamples.

(** Every attempt to delete an object that is not there fails, by a fault or
    by the answer "not found". *)
Lemma delete_obj_loop_absent (obj : string) (n : nat) :
  forall i w,
    lookup_object w obj = None ->
    i + Z.of_nat n = 5 -> (1 <= n)%nat ->
    let r := delete_obj_loop n i obj w in
    (exists status, fst r = Raised (ClientException status)) /\
    (faults w = [] -> fst r = Raised (ClientException 404)) /\
    objects (snd r) = objects w /\
    requests (snd r) = requests w ++ repeat (DeleteObject obj) n /\
    sleeps (snd r) = sleeps w ++ repeat 400 (pred n).
Proof.
  induction n as [|n IH]; intros i w Habsent Hi Hn r; subst r; [lia |].
  cbn [delete_obj_loop]. unfold try_except, delete_object, send.
  unfold lookup_object in *. cbn [objects]. rewrite Habsent.
  destruct (Z.eqb_spec i 4) as [Hi4 | Hi4].
  - assert (n = 0%nat) by lia. subst n.
    destruct (faults w) as [|[status|] script]; cbn; rewrite app_nil_r;
      (split; [now eexists | now repeat split]).
  - unfold bind, sleep.
    destruct (faults w) as [|[status|] script];
      match goal with |- context [delete_obj_loop n ?j obj ?v] =>
        destruct (IH j v) as ([st Hres] & Hcalm & Hobj & Hreq & Hsl) end;
      try assumption; try lia;
      cbn [fst snd objects requests sleeps faults tail repeat] in *;
      rewrite Hobj, Hreq, Hsl, <- !app_assoc;
      (destruct n as [|n]; [lia |]); cbn [pred repeat app];
      (split; [rewrite Hres; now eexists |]);
      (split; [| now repeat split]); try discriminate;
      intros _; now apply Hcalm.
Qed.

(** X9. [delete_obj] on a name the container does not hold never returns
    normally, whatever the faults: the answer "not found" is tried again
    like any failure, so that five requests are sent and four sleeps of
    400 ms taken before the last failure is raised ("not found" itself when
    there is no fault); the container is left as it is. *)
Theorem delete_obj_absent (obj : string) (w : world) :
  connected w -> lookup_object w obj = None ->
  let r := delete_obj obj w in
  (exists status, fst r = Raised (ClientException status)) /\
  (faults w = [] -> fst r = Raised (ClientException 404)) /\
  objects (snd r) = objects w /\
  requests (snd r) = requests w ++ repeat (DeleteObject obj) 5 /\
  sleeps (snd r) = sleeps w ++ repeat 400 4.
Proof.
  intros Hconn Habsent r. subst r.
  destruct (get_connection_connected w Hconn)
    as (w' & Hget & _ & Hobj & Hf & Hreq & Hsl & _).
  assert (Habsent' : lookup_object w' obj = None)
    by (unfold lookup_object in *; now rewrite Hobj).
  unfold delete_obj, bind. rewrite Hget.
  destruct (delete_obj_loop_absent obj 5 0 w' Habsent' eq_refl ltac:(lia))
    as (Hres & Hcalm & Ho & Hr & Hs).
  rewrite Ho, Hr, Hs, Hobj, Hreq, Hsl, <- Hf. now repeat split.
Qed.

Lemma delete_obj_absent_witness :
  fst (delete_obj "home/bob" (faulty_world [])) = Raised (ClientException 404) /\
  objects (snd (delete_obj "home/bob" (faulty_world [])))
  = [("home/alice/f.txt", "f")] /\
  length (requests (snd (delete_obj "home/bob" (faulty_world [])))) = 5%nat.
Proof.
  destruct (delete_obj_absent "home/bob" (faulty_world [])
              ltac:(now left) eq_refl)
    as (_ & Hres & Hobj & Hreq & _).
  split; [| split].
  - now apply Hres.
  - exact Hobj.
  - rewrite Hreq. reflexivity.
Defined.

(** *** Copies lose nothing *)

Lemma extends_refl (w : world) : extends w w.
Proof.
  split; [apply incl_refl |]. exists []. now rewrite app_nil_r.
Qed.

Lemma extends_trans (w1 w2 w3 : world) :
  extends w1 w2 -> extends w2 w3 -> extends w1 w3.
Proof.
  intros [Hi1 (s1 & Hr1 & Hk1)] [Hi2 (s2 & Hr2 & Hk2)]. split.
  - now apply incl_tran with (object_names w2).
  - exists (s1 ++ s2). rewrite Hr2, Hr1, <- app_assoc. split; [reflexivity |].
    rewrite forallb_app, Hk1, Hk2. reflexivity.
Qed.

Lemma extends_same (w w' : world) :
  objects w' = objects w -> requests w' = requests w -> extends w w'.
Proof.
  intros Ho Hr. unfold extends, object_names. rewrite Ho, Hr.
  split; [apply incl_refl |]. exists []. now rewrite app_nil_r.
Qed.

Lemma store_names (name contents : string) (objs : list (string * string)) :
  incl (map fst objs) (map fst (store name contents objs)).
Proof.
  induction objs as [|[n c] objs IH]; [intros x [] |].
  cbn [store]. destruct (String.eqb_spec n name) as [-> | Hne].
  - apply incl_refl.
  - cbn [map fst]. intros x [<- | Hx]; [now left | right; now apply IH].
Qed.

Lemma copy_object_extends (obj dest : string) (w : world) :
  extends w (snd (copy_object obj dest w)).
Proof.
  unfold copy_object, send, extends, object_names.
  destruct (faults w) as [|[status|] script];
    unfold lookup_object; cbn [objects];
    try destruct (snd <$> List.find _ (objects w));
    try destruct (dest_name _ dest);
    cbn [snd objects requests set_objects];
    (split; [first [apply store_names | apply incl_refl]
            | now exists [CopyObject obj dest]]).
Qed.

Lemma copy_obj_loop_extends (obj dest : string) (n : nat) :
  forall i w, extends w (snd (copy_obj_loop n i obj dest w)).
Proof.
  induction n as [|n IH]; intros i w; [apply extends_refl |].
  cbn [copy_obj_loop]. unfold try_except.
  pose proof (copy_object_extends obj dest w) as Hstep.
  destruct (copy_object obj dest w) as [[[] | [] |] w1]; cbn [snd] in *;
    try exact Hstep.
  destruct (i =? 4)%Z; [exact Hstep |].
  unfold bind, sleep.
  match goal with |- context [copy_obj_loop n ?j obj dest ?v] =>
    pose proof (IH j v) as Hrest;
    destruct (copy_obj_loop n j obj dest v) as [[a | e |] w2] end;
    cbn [snd] in *;
    (apply extends_trans with w1; [exact Hstep |]);
    destruct Hrest as [Hi Hs]; (split; [exact Hi | exact Hs]).
Qed.

Lemma copy_obj_extends (obj new_obj_path : string) (w : world) :
  extends w (snd (copy_obj obj new_obj_path w)).
Proof.
  unfold copy_obj, bind.
  destruct (get_connection_quiet w) as [Ho Hr].
  destruct (__get_connection w) as [[[] | e |] w1]; cbn [snd] in *;
    try (now apply extends_same).
  apply extends_trans with w1; [now apply extends_same |].
  apply copy_obj_loop_extends.
Qed.

Lemma copy_objs_extends (src dst : string) (l_ls : list string) :
  forall w, extends w (snd (copy_objs src dst l_ls w)).
Proof.
  induction l_ls as [|obj l_ls IH]; intros w; [apply extends_refl |].
  cbn [copy_objs]. unfold bind.
  pose proof (copy_obj_extends obj (py_replace_first src dst obj) w) as Hstep.
  destruct (copy_obj obj (py_replace_first src dst obj) w) as [[[] | e |] w1];
    cbn [snd] in *; try exact Hstep.
  apply extends_trans with w1; [exact Hstep | apply IH].
Qed.

Lemma ls_extends (path : string) (w : world) : extends w (snd (ls path w)).
Proof.
  destruct (ls_quiet path w) as [Ho [k Hk]].
  unfold extends, object_names. rewrite Ho. split; [apply incl_refl |].
  exists (repeat (GetContainer path true) k). split; [assumption |].
  clear. induction k; [reflexivity | assumption].
Qed.

(** X10. [copy_path] loses nothing, whatever the faults and whether it
    returns or raises: every object name of the container is still there
    afterwards, and none of the requests it has sent is a delete. *)
Theorem copy_path_keeps_objects (src dst : string) (w : world) :
  extends w (snd (copy_path src dst w)).
Proof.
  unfold copy_path, bind.
  pose proof (ls_extends src w) as Hls.
  destruct (ls src w) as [[l_ls | e |] w1]; cbn [snd] in *; try exact Hls.
  apply extends_trans with w1; [exact Hls | apply copy_objs_extends].
Qed.

(** *** Deleting what a prefix lists *)

Lemma delete_obj_calm (obj : string) (w : world) :
  calm w -> lookup_object w obj <> None ->
  exists w',
    delete_obj obj w = (Returned tt, w') /\ calm w' /\
    objects w'
    = List.filter (fun kv => negb (String.eqb (fst kv) obj)) (objects w) /\
    requests w' = requests w ++ [DeleteObject obj] /\
    sleeps w' = sleeps w.
Proof.
  intros [Hconn Hfaults] Hthere.
  unfold delete_obj, bind, __get_connection. rewrite Hconn.
  cbn [delete_obj_loop]. unfold try_except, delete_object, send.
  rewrite Hfaults. unfold lookup_object in *. cbn [objects].
  destruct (List.find _ (objects w)); [| contradiction].
  cbn [fmap option_fmap option_map]. eexists. split; [reflexivity |].
  unfold calm. cbn. now repeat split.
Qed.

Lemma find_filter_other (obj other : string) (objs : list (string * string)) :
  other <> obj ->
  List.find (fun kv => String.eqb (fst kv) other)
    (List.filter (fun kv => negb (String.eqb (fst kv) obj)) objs)
  = List.find (fun kv => String.eqb (fst kv) other) objs.
Proof.
  intros Hne. induction objs as [|[n c] objs IH]; [reflexivity |].
  cbn [List.filter List.find fst].
  destruct (String.eqb_spec n obj) as [-> | Hn]; cbn [negb List.find fst].
  - destruct (String.eqb_spec obj other); [congruence | exact IH].
  - now rewrite IH.
Qed.

Lemma filter_filter {A : Type} (f g : A -> bool) (l : list A) :
  List.filter f (List.filter g l) = List.filter (fun x => g x && f x) l.
Proof.
  induction l as [|x l IH]; [reflexivity |].
  cbn [List.filter]. destruct (g x); cbn [List.filter andb];
    [destruct (f x) |]; now rewrite IH.
Qed.

Lemma delete_objs_calm (l_ls : list string) :
  forall w,
    calm w -> List.NoDup l_ls ->
    (forall obj, In obj l_ls -> lookup_object w obj <> None) ->
    exists w',
      delete_objs l_ls w = (Returned tt, w') /\ calm w' /\
      objects w'
      = List.filter (fun kv => negb (existsb (String.eqb (fst kv)) l_ls))
          (objects w) /\
      requests w' = requests w ++ map DeleteObject l_ls /\
      sleeps w' = sleeps w.
Proof.
  induction l_ls as [|obj l_ls IH]; intros w Hcalm Hnd Hthere.
  - exists w. cbn [delete_objs existsb negb map]. rewrite app_nil_r.
    repeat split; try apply Hcalm.
    symmetry. apply forallb_filter_id. now apply forallb_forall.
  - apply List.NoDup_cons_iff in Hnd as [Hnotin Hnd].
    destruct (delete_obj_calm obj w Hcalm (Hthere obj (or_introl eq_refl)))
      as (w1 & Hdel & Hcalm1 & Hobj1 & Hreq1 & Hsl1).
    destruct (IH w1 Hcalm1 Hnd) as (w2 & Hrest & Hcalm2 & Hobj2 & Hreq2 & Hsl2).
    { intros other Hother. unfold lookup_object. rewrite Hobj1.
      rewrite find_filter_other by (intros ->; contradiction).
      apply (Hthere other). now right. }
    exists w2. cbn [delete_objs]. unfold bind. rewrite Hdel.
    split; [exact Hrest |]. split; [exact Hcalm2 |].
    split; [| split].
    + rewrite Hobj2, Hobj1, filter_filter. apply filter_ext.
      intros kv. cbn [existsb]. now rewrite negb_orb.
    + rewrite Hreq2, Hreq1, <- app_assoc. reflexivity.
    + now rewrite Hsl2.
Qed.

Lemma ls_calm (path : string) (w : world) :
  calm w -> path <> "" ->
  exists w',
    ls path w
    = (Returned (List.filter (String.prefix path) (object_names w)), w') /\
    calm w' /\ objects w' = objects w /\
    requests w' = requests w ++ [GetContainer path true] /\
    sleeps w' = sleeps w.
Proof.
  intros [Hconn Hfaults] Hpath. apply String.eqb_neq in Hpath.
  unfold ls, _ls. rewrite Hpath. unfold bind, __get_connection. rewrite Hconn.
  cbn [ls_loop]. unfold try_except, get_container, send. rewrite Hfaults.
  eexists. split; [reflexivity |]. unfold calm. cbn. now repeat split.
Qed.

Lemma lookup_listed (w : world) (obj : string) :
  In obj (object_names w) -> lookup_object w obj <> None.
Proof.
  unfold object_names, lookup_object. intros Hin.
  apply in_map_iff in Hin as ([n c] & <- & Hin). cbn [fst].
  destruct (List.find _ (objects w)) eqn:Hfind; [discriminate |].
  exfalso. apply (find_none _ _ Hfind) in Hin. cbn [fst] in Hin.
  now rewrite String.eqb_refl in Hin.
Qed.

Lemma existsb_eqb_filter (path name : string) (names : list string) :
  In name names ->
  existsb (String.eqb name) (List.filter (String.prefix path) names)
  = String.prefix path name.
Proof.
  intros Hin. destruct (String.prefix path name) eqn:Hp.
  - apply existsb_exists. exists name. split; [| apply String.eqb_refl].
    apply filter_In. now split.
  - apply not_true_is_false. intros Hex.
    apply existsb_exists in Hex as (x & Hx & Heq).
    apply String.eqb_eq in Heq. subst x.
    apply filter_In in Hx as [_ Hx]. congruence.
Qed.

(** X11. [delete_path] when the connection is there, no fault occurs and the
    names of the container are distinct.  For a path that is not empty it
    returns after one listing and one delete per name that starts with the
    path, without sleeping; the objects left are those whose name does not
    start with the path, in their order; and [path_exists] then answers
    [False].  For the empty path it deletes nothing. *)
Theorem delete_path_removes_prefix (path : string) (w : world) :
  calm w -> List.NoDup (object_names w) ->
  let r := delete_path path w in
  (path = "" -> r = (Returned tt, w)) /\
  (path <> "" ->
   fst r = Returned tt /\
   objects (snd r)
   = List.filter (fun kv => negb (String.prefix path (fst kv))) (objects w) /\
   requests (snd r)
   = requests w ++ GetContainer path true
       :: map DeleteObject (List.filter (String.prefix path) (object_names w)) /\
   sleeps (snd r) = sleeps w /\
   fst (path_exists path (snd r)) = Returned false).
Proof.
  intros Hcalm Hnd r. subst r. split; [intros ->; reflexivity |].
  intros Hpath.
  destruct (ls_calm path w Hcalm Hpath) as (w1 & Hls & Hcalm1 & Hobj1 & Hreq1 & Hsl1).
  destruct (delete_objs_calm (List.filter (String.prefix path) (object_names w)) w1)
    as (w2 & Hdel & Hcalm2 & Hobj2 & Hreq2 & Hsl2).
  - exact Hcalm1.
  - now apply List.NoDup_filter.
  - intros obj Hobj. apply filter_In in Hobj as [Hobj _].
    apply lookup_listed. unfold object_names. now rewrite Hobj1.
  - unfold delete_path, bind. rewrite Hls, Hdel. cbn [fst snd].
    assert (Hleft : objects w2
                    = List.filter (fun kv => negb (String.prefix path (fst kv)))
                        (objects w)).
    { rewrite Hobj2, Hobj1. apply filter_ext_in. intros kv Hkv. f_equal.
      apply existsb_eqb_filter. unfold object_names. now apply in_map. }
    split; [reflexivity |]. split; [exact Hleft |].
    split; [rewrite Hreq2, Hreq1, <- app_assoc; reflexivity |].
    split; [now rewrite Hsl2 |].
    destruct (path_exists_served path w2 Hpath) as (Hres & _).
    + left. apply Hcalm2.
    + destruct Hcalm2 as [_ ->]. exact I.
    + rewrite Hres, Hleft. f_equal. apply not_true_is_false. intros Hex.
      apply existsb_exists in Hex as (name & Hname & Hp).
      apply in_map_iff in Hname as (kv & <- & Hkv).
      apply filter_In in Hkv as [_ Hkv]. rewrite Hp in Hkv. discriminate.
Qed.

Lemma delete_path_removes_prefix_witness :
  let w := {| container_name := "users";
              objects := [("home/alice/f.txt", "f"); ("SERVICES/x", "x");
                          ("home/bob/g.txt", "g")];
              faults := []; connect_faults := []; _conn := true;
              requests := []; sleeps := [] |} in
  fst (delete_path "home/" w) = Returned tt /\
  objects (snd (delete_path "home/" w)) = [("SERVICES/x", "x")] /\
  fst (path_exists "home/" (snd (delete_path "home/" w))) = Returned false.
Proof.
  cbv zeta.
  destruct (delete_path_removes_prefix "home/"
              {| container_name := "users";
                 objects := [("home/alice/f.txt", "f"); ("SERVICES/x", "x");
                             ("home/bob/g.txt", "g")];
                 faults := []; connect_faults := []; _conn := true;
                 requests := []; sleeps := [] |})
    as [_ H].
  - now split.
  - unfold object_names. cbn. repeat constructor; cbn; intuition discriminate.
  - destruct H as (Hres & Hobj & _ & _ & Hgone); [discriminate |].
    split; [exact Hres |]. split; [exact Hobj | exact Hgone].
Defined.

(** *** Moving a path onto itself *)

Lemma strip_start_prefix (old : string) :
  forall s, String.prefix old s = true ->
    exists rest, strip_start old s = Some rest /\ old +:+ rest = s.
Proof.
  induction old as [|a old IH]; intros s Hp.
  - exists s. split; [now destruct s | reflexivity].
  - destruct s as [|b s]; [discriminate |]. cbn [String.prefix] in Hp.
    destruct (ascii_dec a b) as [<- | Hne]; [| discriminate].
    destruct (IH s Hp) as (rest & Hstrip & Happ).
    exists rest. cbn [strip_start]. rewrite Ascii.eqb_refl. split; [exact Hstrip |].
    change (String a (old +:+ rest) = String a s). now rewrite Happ.
Qed.

Lemma py_replace_first_same (old s : string) :
  String.prefix old s = true -> py_replace_first old old s = s.
Proof.
  intros Hp. destruct (strip_start_prefix old s Hp) as (rest & Hstrip & Happ).
  destruct s; cbn [py_replace_first]; now rewrite Hstrip.
Qed.

Lemma prefix_app (p s : string) : String.prefix p (p +:+ s) = true.
Proof.
  induction p as [|a p IH]; [now destruct s |].
  change (String.prefix (String a p) (String a (p +:+ s)) = true).
  cbn [String.prefix]. now destruct (ascii_dec a a).
Qed.

Lemma prefix_app_cancel (p x y : string) :
  String.prefix (p +:+ x) (p +:+ y) = String.prefix x y.
Proof.
  induction p as [|a p IH]; [reflexivity |].
  change (String.prefix (String a (p +:+ x)) (String a (p +:+ y))
          = String.prefix x y).
  cbn [String.prefix]. now destruct (ascii_dec a a).
Qed.

Lemma substring_all (s : string) : String.substring 0 (String.length s) s = s.
Proof.
  induction s as [|a s IH]; [reflexivity |].
  cbn [String.substring String.length]. now rewrite IH.
Qed.

Lemma substring_app (p s : string) :
  String.substring (String.length p)
    (String.length (p +:+ s) - String.length p) (p +:+ s) = s.
Proof.
  induction p as [|a p IH].
  - change ("" +:+ s) with s. cbn [String.length].
    rewrite Nat.sub_0_r. apply substring_all.
  - change (String a p +:+ s) with (String a (p +:+ s)).
    cbn [String.length Nat.sub String.substring]. exact IH.
Qed.

(** A name that does not start with a slash is joined and stripped as it
    is. *)
Lemma no_leading_slash (name : string) :
  String.prefix "/" name = false ->
  lstrip_slash name = name /\
  forall a, os_path_join a name
            = match String.rev a with
              | "" => name
              | String "/" _ => a +:+ name
              | _ => a +:+ "/" +:+ name
              end.
Proof.
  intros Hp. destruct name as [|c name]; [now split |].
  destruct c as [[] [] [] [] [] [] [] []]; try (now split).
  cbn in Hp. destruct name; discriminate.
Qed.

(** The destination [copy_obj] computes for such a name designates the name
    itself, when it designates an object of the container at all. *)
Lemma dest_name_own (w : world) (name : string) :
  String.prefix "/" name = false ->
  match dest_name w (os_path_join ("/" +:+ container_name w) (lstrip_slash name)) with
  | Some name' => name' = name
  | None => True
  end.
Proof.
  intros Hp. destruct (no_leading_slash name Hp) as [-> ->].
  unfold dest_name.
  set (a := "/" +:+ container_name w).
  change ("/" +:+ container_name w +:+ "/") with ("/" +:+ (container_name w +:+ "/")).
  rewrite <- (LineageFacts.append_assoc "/" (container_name w) "/"). fold a.
  destruct (String.rev a) as [|c r] eqn:Hrev.
  - destruct (String.prefix (a +:+ "/") name) eqn:Hpre; [| exact I].
    exfalso. unfold a in Hpre.
    rewrite LineageFacts.append_assoc in Hpre.
    change ("/" +:+ (container_name w +:+ "/"))
      with (String "/" (container_name w +:+ "/")) in Hpre.
    destruct name as [|b name]; [discriminate |].
    cbn [String.prefix] in Hpre, Hp.
    destruct (ascii_dec "/" b); [destruct name |]; discriminate.
  - assert (Hjoined : forall X Y : string,
              match String c r with
              | "" => name
              | String "/" _ => X
              | _ => Y
              end = X \/
              match String c r with
              | "" => name
              | String "/" _ => X
              | _ => Y
              end = Y).
    { intros X Y. destruct c as [[] [] [] [] [] [] [] []]; tauto. }
    destruct (Hjoined (a +:+ name) (a +:+ "/" +:+ name)) as [-> | ->].
    + rewrite prefix_app_cancel, Hp. exact I.
    + rewrite <- (LineageFacts.append_assoc a "/" name), prefix_app.
      apply substring_app.
Qed.

Lemma store_same (name contents : string) (objs : list (string * string)) :
  snd <$> List.find (fun kv => String.eqb (fst kv) name) objs = Some contents ->
  store name contents objs = objs.
Proof.
  induction objs as [|[n c] objs IH]; [discriminate |].
  cbn [List.find store fst].
  destruct (String.eqb_spec n name) as [-> | Hne].
  - cbn. now intros [= ->].
  - intros H. now rewrite IH.
Qed.

(** Copying an object onto its own name, without fault, changes nothing. *)
Lemma copy_obj_onto_itself (obj : string) (w : world) :
  calm w -> lookup_object w obj <> None ->
  String.prefix "/" obj = false ->
  exists w',
    copy_obj obj obj w = (Returned tt, w') /\ calm w' /\
    objects w' = objects w /\
    requests w'
    = requests w
      ++ [CopyObject obj
            (os_path_join ("/" +:+ container_name w) (lstrip_slash obj))] /\
    sleeps w' = sleeps w.
Proof.
  intros [Hconn Hfaults] Hthere Hp.
  pose proof (dest_name_own w obj Hp) as Hdest.
  unfold copy_obj, bind, __get_connection. rewrite Hconn.
  cbn [copy_obj_loop]. unfold try_except, copy_object, send.
  rewrite Hfaults. unfold lookup_object in *. cbn [objects].
  destruct (snd <$> List.find _ (objects w)) as [contents|] eqn:Hfind;
    [| contradiction].
  unfold dest_name in *. cbn [container_name].
  match type of Hdest with
  | match (if ?b then _ else _) with _ => _ end =>
      destruct b
  end.
  - rewrite Hdest. eexists. split; [reflexivity |].
    unfold calm, set_objects. cbn. rewrite (store_same obj contents _ Hfind).
    now repeat split.
  - eexists. split; [reflexivity |]. unfold calm. cbn. now repeat split.
Qed.

Lemma move_objs_onto_itself (path : string) (l_ls : list string) :
  forall w,
    calm w -> List.NoDup l_ls ->
    (forall obj, In obj l_ls ->
       lookup_object w obj <> None /\ String.prefix path obj = true /\
       String.prefix "/" obj = false) ->
    exists w',
      move_objs path path l_ls w = (Returned tt, w') /\ calm w' /\
      objects w'
      = List.filter (fun kv => negb (existsb (String.eqb (fst kv)) l_ls))
          (objects w) /\
      sleeps w' = sleeps w.
Proof.
  induction l_ls as [|obj l_ls IH]; intros w Hcalm Hnd Hthere.
  - exists w. cbn [move_objs existsb negb].
    repeat split; try apply Hcalm.
    symmetry. apply forallb_filter_id. now apply forallb_forall.
  - apply List.NoDup_cons_iff in Hnd as [Hnotin Hnd].
    destruct (Hthere obj (or_introl eq_refl)) as (Hobj & Hpre & Hslash).
    destruct (copy_obj_onto_itself obj w Hcalm Hobj Hslash)
      as (w0 & Hcopy & Hcalm0 & Hobj0 & _ & Hsl0).
    assert (Hobj' : lookup_object w0 obj <> None)
      by (unfold lookup_object in *; now rewrite Hobj0).
    destruct (delete_obj_calm obj w0 Hcalm0 Hobj')
      as (w1 & Hdel & Hcalm1 & Hobj1 & _ & Hsl1).
    destruct (IH w1 Hcalm1 Hnd) as (w2 & Hrest & Hcalm2 & Hobj2 & Hsl2).
    { intros other Hother.
      destruct (Hthere other (or_intror Hother)) as (Ho & Hp & Hs).
      split; [| now split]. unfold lookup_object in *. rewrite Hobj1.
      rewrite find_filter_other by (intros ->; contradiction).
      now rewrite Hobj0. }
    exists w2. cbn [move_objs]. unfold bind.
    rewrite (py_replace_first_same path obj Hpre), Hcopy, Hdel.
    split; [exact Hrest |]. split; [exact Hcalm2 |]. split.
    + rewrite Hobj2, Hobj1, Hobj0, filter_filter. apply filter_ext.
      intros kv. cbn [existsb]. now rewrite negb_orb.
    + now rewrite Hsl2, Hsl1.
Qed.

(** X12. [move_path] of a path onto itself, when the connection is there, no
    fault occurs, the names of the container are distinct and none starts
    with a slash: every object is copied onto its own name and then
    deleted, so what is left is the objects whose name does not start with
    the path. *)
Theorem move_path_onto_itself (path : string) (w : world) :
  calm w -> List.NoDup (object_names w) ->
  Forall (fun name => String.prefix "/" name = false) (object_names w) ->
  path <> "" ->
  let r := move_path path path w in
  fst r = Returned tt /\
  objects (snd r)
  = List.filter (fun kv => negb (String.prefix path (fst kv))) (objects w) /\
  sleeps (snd r) = sleeps w.
Proof.
  intros Hcalm Hnd Hslash Hpath r. subst r.
  destruct (ls_calm path w Hcalm Hpath) as (w1 & Hls & Hcalm1 & Hobj1 & _ & Hsl1).
  destruct (move_objs_onto_itself path
              (List.filter (String.prefix path) (object_names w)) w1)
    as (w2 & Hmove & Hcalm2 & Hobj2 & Hsl2).
  - exact Hcalm1.
  - now apply List.NoDup_filter.
  - intros obj Hobj. apply filter_In in Hobj as [Hobj Hp].
    split; [| split; [exact Hp |]].
    + apply lookup_listed. unfold object_names. now rewrite Hobj1.
    + rewrite List.Forall_forall in Hslash. now apply Hslash.
  - unfold move_path, bind. rewrite Hls, Hmove. cbn [fst snd].
    split; [reflexivity |]. split; [| now rewrite Hsl2].
    rewrite Hobj2, Hobj1. apply filter_ext_in. intros kv Hkv. f_equal.
    apply existsb_eqb_filter. unfold object_names. now apply in_map.
Qed.

Lemma move_path_onto_itself_witness :
  let w := {| container_name := "users";
              objects := [("home/alice/f.txt", "f"); ("SERVICES/x", "x")];
              faults := []; connect_faults := []; _conn := true;
              requests := []; sleeps := [] |} in
  fst (move_path "home" "home" w) = Returned tt /\
  objects (snd (move_path "home" "home" w)) = [("SERVICES/x", "x")].
Proof.
  cbv zeta.
  destruct (move_path_onto_itself "home"
              {| container_name := "users";
                 objects := [("home/alice/f.txt", "f"); ("SERVICES/x", "x")];
                 faults := []; connect_faults := []; _conn := true;
                 requests := []; sleeps := [] |})
    as (Hres & Hobj & _).
  - now split.
  - unfold object_names. cbn. repeat constructor; cbn; intuition discriminate.
  - unfold object_names. cbn. repeat constructor.
  - discriminate.
  - split; [exact Hres | exact Hobj].
Defined.

End PathFacts.

(** ** Names of parameters, required defaults and access *)

Module QueryFacts.
Import Pipelines PipelineQueries NumeralFacts OutputPathFacts PipelineSamples.

(** Two strings cut at the first occurrence of [c] have the same pieces. *)
Lemma cut_at_first (c : ascii) (a a' b b' : string) :
  ~ In c (list_ascii_of_string a) -> ~ In c (list_ascii_of_string a') ->
  a +:+ String c b = a' +:+ String c b' -> a = a' /\ b = b'.
Proof.
  intros Ha Ha' Heq. apply (f_equal list_ascii_of_string) in Heq.
  rewrite !chars_append in Heq. cbn [list_ascii_of_string] in Heq.
  apply split_at_first in Heq as [H1 H2]; try assumption.
  split; now apply chars_inj.
Qed.

Lemma py_str_no_underscore (n : Z) :
  ~ In "_"%char (list_ascii_of_string (py_str n)).
Proof.
  intros Hin. apply py_str_chars, numeral_char_plain in Hin. tauto.
Qed.

Lemma prev_pip_id_no_underscore (pip : PluginPiping) :
  ~ In "_"%char (list_ascii_of_string (prev_pip_id pip)).
Proof.
  unfold prev_pip_id. destruct (previous pip).
  - apply py_str_no_underscore.
  - cbn. intuition discriminate.
Qed.

(** The composite name is read back: the three ids and the name of the
    parameter, which may itself have underscores. *)
Lemma param_full_name_inj (pip pip' : PluginPiping) (param param' : PluginParameter) :
  param_full_name pip param = param_full_name pip' param' ->
  plugin_pk (plugin pip) = plugin_pk (plugin pip') /\ id pip = id pip' /\
  prev_pip_id pip = prev_pip_id pip' /\ param_name param = param_name param'.
Proof.
  unfold param_full_name. intros H.
  apply cut_at_first in H as [H1 H]; try apply py_str_no_underscore.
  apply cut_at_first in H as [H2 H]; try apply py_str_no_underscore.
  apply cut_at_first in H as [H3 H]; try apply prev_pip_id_no_underscore.
  unfold py_str in H1, H2.
  apply (inj pretty) in H1. apply (inj pretty) in H2. now repeat split.
Qed.

(** X13. [get_pipings_parameters_names] gives one name per parameter of the
    plugin of each piping, and no name twice when the pipings are distinct,
    have distinct ids and each plugin has distinct parameters with distinct
    names: the name of a parameter never collides with that of another
    piping, whatever underscores the parameter names have. *)
Theorem get_pipings_parameters_names_distinct
  (parameters : Plugin -> list PluginParameter) (pipings : list PluginPiping) :
  List.NoDup (map id pipings) ->
  (forall pip, In pip pipings ->
     List.NoDup (map param_name (parameters (plugin pip)))) ->
  List.NoDup (get_pipings_parameters_names parameters pipings) /\
  length (get_pipings_parameters_names parameters pipings)
  = list_sum (map (fun pip => length (parameters (plugin pip))) pipings).
Proof.
  intros Hids Hparams. split.
  - unfold get_pipings_parameters_names.
    assert (Hinj : forall (l : list PluginPiping),
              List.NoDup (map id l) ->
              List.NoDup l /\
              forall a b, In a l -> In b l -> id a = id b -> a = b).
    { induction l as [|x l IH]; intros Hnd; [split; [constructor | intros ? ? []] |].
      cbn [map] in Hnd. apply List.NoDup_cons_iff in Hnd as [Hx Hnd].
      destruct (IH Hnd) as [Hl Heq]. split.
      - constructor; [| assumption]. intros Hin. apply Hx. now apply in_map.
      - intros a b [<- | Ha] [<- | Hb] Hid; try reflexivity.
        + exfalso. apply Hx. rewrite Hid. now apply in_map.
        + exfalso. apply Hx. rewrite <- Hid. now apply in_map.
        + now apply Heq. }
    destruct (Hinj pipings Hids) as [Hnd Heq].
    apply DescendantFacts.NoDup_flat_map; [assumption | |].
    + intros pip Hpip. specialize (Hparams pip Hpip).
      induction (parameters (plugin pip)) as [|q l IH]; [constructor |].
      cbn [map] in *. apply List.NoDup_cons_iff in Hparams as [Hq Hl].
      constructor; [| now apply IH].
      intros Hin. apply in_map_iff in Hin as (q' & Hname & Hq').
      apply param_full_name_inj in Hname as (_ & _ & _ & Hname).
      apply Hq. rewrite <- Hname. now apply in_map.
    + intros a b y Ha Hb Hya Hyb.
      apply in_map_iff in Hya as (q & <- & _).
      apply in_map_iff in Hyb as (q' & Hname & _).
      apply param_full_name_inj in Hname as (_ & Hid & _).
      now apply Heq.
  - unfold get_pipings_parameters_names. clear.
    induction pipings as [|pip l IH]; [reflexivity |].
    cbn [flat_map map list_sum]. now rewrite length_app, length_map, IH.
Qed.

Lemma get_pipings_parameters_names_distinct_witness :
  let parameters := fun plg : Plugin =>
    if Z.eqb (plugin_pk plg) 10
    then [ {| param_name := "prefix" |}; {| param_name := "sleep_length" |} ]
    else [ {| param_name := "dir" |} ] in
  get_pipings_parameters_names parameters [pip1; pip2; pip3]
  = ["11_1_null_dir"; "10_2_1_prefix"; "10_2_1_sleep_length";
     "10_3_2_prefix"; "10_3_2_sleep_length"] /\
  List.NoDup (get_pipings_parameters_names parameters [pip1; pip2; pip3]).
Proof.
  cbv zeta. split; [reflexivity |].
  apply get_pipings_parameters_names_distinct.
  - cbn. repeat constructor; cbn; intuition discriminate.
  - intros pip [<- | [<- | [<- | []]]]; cbn;
      repeat constructor; cbn; intuition discriminate.
Defined.

(** *** Required defaults *)

Lemma check_values_spec (rows : list DefaultPipingParameter) :
  (check_values rows = Returned tt /\
   forall r, In r rows -> value r <> VNone) \/
  (check_values rows = Raised ValueError /\
   exists r, In r rows /\ value r = VNone).
Proof.
  induction rows as [|r rows IH]; [left; split; [reflexivity | intros ? []] |].
  cbn [check_values]. destruct (value r) eqn:Hv;
    try (destruct IH as [[Hrun Hall] | [Hrun (r' & Hin & Hnone)]];
         [left; split; [exact Hrun |];
          intros r' [<- | Hin]; [congruence | now apply Hall]
         | right; split; [exact Hrun |]; exists r'; split; [now right | exact Hnone]]).
  right. split; [reflexivity |]. exists r. split; [now left | exact Hv].
Qed.

Lemma check_tables_spec (pip : PluginPiping)
  (tables : list (list DefaultPipingParameter)) :
  (check_tables pip tables = Returned tt /\
   forall r, In r (concat tables) -> id (plugin_piping r) = id pip ->
             value r <> VNone) \/
  (check_tables pip tables = Raised ValueError /\
   exists r, In r (concat tables) /\ id (plugin_piping r) = id pip /\
             value r = VNone).
Proof.
  induction tables as [|rows tables IH];
    [left; split; [reflexivity | intros ? []] |].
  cbn [check_tables concat].
  destruct (check_values_spec (typed_parameters pip rows))
    as [[-> Hall] | [-> (r & Hin & Hnone)]].
  - destruct IH as [[Hrun Hrest] | [Hrun (r & Hin & Hid & Hnone)]].
    + left. split; [exact Hrun |]. intros r Hin Hid.
      apply in_app_or in Hin as [Hin | Hin]; [| now apply Hrest].
      apply Hall. apply filter_In. split; [exact Hin | now apply Z.eqb_eq].
    + right. split; [exact Hrun |]. exists r.
      split; [apply in_or_app; now right | now split].
  - right. split; [reflexivity |]. exists r.
    apply filter_In in Hin as [Hin Hid]. apply Z.eqb_eq in Hid.
    split; [apply in_or_app; now left | now split].
Qed.

(** X14. [check_parameter_defaults] of a pipeline returns when no default of
    one of its pipings is [None], and raises [ValueError] otherwise; the
    defaults it looks at are the rows [get_default_parameters] returns. *)
Theorem check_parameter_defaults_spec (t : default_tables)
  (pipings : list PluginPiping) :
  (check_parameter_defaults t pipings = Returned tt /\
   forall r pip, In r (get_default_parameters t) -> In pip pipings ->
                 id (plugin_piping r) = id pip -> value r <> VNone) \/
  (check_parameter_defaults t pipings = Raised ValueError /\
   exists r pip, In r (get_default_parameters t) /\ In pip pipings /\
                 id (plugin_piping r) = id pip /\ value r = VNone).
Proof.
  assert (Hall : concat [string_param t; integer_param t; float_param t;
                         boolean_param t] = get_default_parameters t).
  { unfold get_default_parameters. cbn [concat]. now rewrite app_nil_r. }
  induction pipings as [|pip pipings IH];
    [left; split; [reflexivity | intros ? ? ? []] |].
  cbn [check_parameter_defaults]. unfold piping_check_parameter_defaults.
  destruct (check_tables_spec pip [string_param t; integer_param t;
                                   float_param t; boolean_param t])
    as [[-> Hok] | [-> (r & Hin & Hid & Hnone)]]; rewrite Hall in *.
  - destruct IH as [[Hrun Hrest] | [Hrun (r & pip' & Hin & Hpip & Hid & Hnone)]].
    + left. split; [exact Hrun |]. intros r pip' Hin [<- | Hpip] Hid.
      * now apply Hok.
      * now apply (Hrest r pip').
    + right. split; [exact Hrun |]. exists r, pip'.
      split; [exact Hin |]. split; [now right | now split].
  - right. split; [reflexivity |]. exists r, pip.
    split; [exact Hin |]. split; [now left | now split].
Qed.

(** *** Access to pipelines *)

(** X15. [get_accesible_pipelines] returns, in the order of the table, the
    pipelines that are not locked, those the user owns when authenticated,
    and every pipeline for the authenticated user [chris]; so what a
    user that is not authenticated gets, every user gets. *)
Theorem get_accesible_pipelines_rule (queryset : list Pipeline)
  (user anonymous : User) :
  is_authenticated anonymous = false ->
  (forall p, In p (get_accesible_pipelines queryset user) <->
     In p queryset /\
     (locked p = false \/
      is_authenticated user = true /\
      (username user = "chris" \/ owner p = Some (user_id user)))) /\
  incl (get_accesible_pipelines queryset anonymous)
       (get_accesible_pipelines queryset user) /\
  (forall p, In p (get_accesible_pipelines queryset anonymous) <->
     In p queryset /\ locked p = false).
Proof.
  intros Hanon.
  assert (Howned : forall u p, owned_by u p = true <-> owner p = Some (user_id u)).
  { intros u p. unfold owned_by. destruct (owner p) as [k|].
    - rewrite Z.eqb_eq. split; [now intros -> | now intros [= ->]].
    - split; discriminate. }
  assert (Hrule : forall u p, In p (get_accesible_pipelines queryset u) <->
     In p queryset /\
     (locked p = false \/
      is_authenticated u = true /\
      (username u = "chris" \/ owner p = Some (user_id u)))).
  { intros u p. unfold get_accesible_pipelines.
    destruct (is_authenticated u).
    - destruct (String.eqb_spec (username u) "chris") as [Hchris | Hother].
      + split; [intros Hin; split; [exact Hin | right; split; [reflexivity | now left]]
               | now intros [Hin _]].
      + rewrite filter_In, orb_true_iff, negb_true_iff, Howned.
        split; intros [Hin H]; (split; [exact Hin |]).
        * destruct H as [H | H]; [now left | right; split; [reflexivity | now right]].
        * destruct H as [H | [_ [H | H]]]; [now left | contradiction | now right].
    - rewrite filter_In, negb_true_iff.
      split; intros [Hin H]; (split; [exact Hin |]).
      + now left.
      + destruct H as [H | [H _]]; [exact H | discriminate]. }
  split; [apply Hrule |]. split.
  - intros p Hp. apply Hrule. apply Hrule in Hp as [Hin H]. split; [exact Hin |].
    destruct H as [H | [H _]]; [now left | congruence].
  - intros p. rewrite Hrule, Hanon. split; intros [Hin H]; (split; [exact Hin |]).
    + destruct H as [H | [H _]]; [exact H | discriminate].
    + now left.
Qed.

Lemma get_accesible_pipelines_rule_witness :
  let mine := {| pipeline_name := "mine"; locked := true; owner := Some 5 |} in
  let free := {| pipeline_name := "free"; locked := false; owner := None |} in
  let other := {| pipeline_name := "other"; locked := true; owner := Some 6 |} in
  let user := {| user_id := 5; username := "alice"; is_authenticated := true |} in
  let anonymous := {| user_id := 0; username := ""; is_authenticated := false |} in
  In mine (get_accesible_pipelines [mine; free; other] user) /\
  ~ In other (get_accesible_pipelines [mine; free; other] user) /\
  incl (get_accesible_pipelines [mine; free; other] anonymous)
       (get_accesible_pipelines [mine; free; other] user).
Proof.
  cbv zeta.
  destruct (get_accesible_pipelines_rule
              [ {| pipeline_name := "mine"; locked := true; owner := Some 5 |};
                {| pipeline_name := "free"; locked := false; owner := None |};
                {| pipeline_name := "other"; locked := true; owner := Some 6 |} ]
              {| user_id := 5; username := "alice"; is_authenticated := true |}
              {| user_id := 0; username := ""; is_authenticated := false |}
              eq_refl) as (Hrule & Hincl & _).
  split; [| split; [| exact Hincl]].
  - apply Hrule. split; [now left |]. right. split; [reflexivity | now right].
  - intros Hin. apply Hrule in Hin as [_ [H | [_ [H | H]]]]; discriminate.
Defined.

(** *** Witnesses of the tree builders *)

Lemma get_pipings_tree_parent_first_witness :
  exists t,
    get_pipings_tree [pip1; pip2; pip3] = Returned t /\
    root_id t = 1 /\
    tree t !! 2 = Some {| piping := pip2; child_ids := [3] |}.
Proof.
  destruct (PipelineFacts.get_pipings_tree_parent_first [pip1; pip2; pip3])
    as (root_pip & rest & t & Hlist & Hrun & Hroot & Hin & _).
  - discriminate.
  - cbn. repeat constructor; cbn; intuition discriminate.
  - cbn. repeat split; tauto.
  - exists t. split; [exact Hrun |]. injection Hlist as <- <-.
    split; [exact Hroot |].
    apply (Hin pip2). cbn. tauto.
Defined.

Lemma get_plugin_tree_sound_witness :
  exists plan,
    get_plugin_tree 3 parent_first_defaults = Returned plan /\
    no_forward plan /\ List.NoDup (map node_title plan).
Proof.
  pose proof (PipelineFacts.get_plugin_tree_sound parent_first_defaults 3
                ltac:(cbn; lia)) as H.
  destruct (get_plugin_tree 3 parent_first_defaults) as [plan | e |] eqn:Hrun.
  - exists plan. split; [reflexivity |]. destruct H as (Hfw & Hnd & _).
    now split.
  - vm_compute in Hrun. discriminate.
  - destruct H.
Defined.

End QueryFacts.

(** ** The storage of a deleted source file *)

Module SourceFileFacts.
Import Swift SwiftFacts SourceFiles SwiftSamples.

(** The loops of the manager are bounded: they return or raise. *)
Lemma get_connection_loop_ends (n : nat) :
  forall i w, fst (get_connection_loop n i w) <> OutOfFuel.
Proof.
  induction n as [|n IH]; intros i w; [discriminate |].
  cbn [get_connection_loop]. unfold try_except, connect.
  destruct (connect_faults w) as [|[status|] script]; try discriminate.
  destruct (i =? 4)%Z; [discriminate |]. unfold bind, sleep.
  match goal with |- context [get_connection_loop n ?j ?v] =>
    pose proof (IH j v) as Hrest;
    destruct (get_connection_loop n j v) as [[a | e |] w2] end;
    cbn [fst] in *; congruence.
Qed.

Lemma get_connection_ends (w : world) : fst (__get_connection w) <> OutOfFuel.
Proof.
  unfold __get_connection. destruct (_conn w); [discriminate |].
  apply get_connection_loop_ends.
Qed.

Lemma obj_exists_loop_ends (obj_path : string) (n : nat) :
  forall i w, fst (obj_exists_loop n i obj_path w) <> OutOfFuel.
Proof.
  induction n as [|n IH]; intros i w; [discriminate |].
  cbn [obj_exists_loop]. unfold try_except, head_object, send.
  assert (Hhandler : forall status v,
            fst ((if (status =? 404)%Z then ret (Some false)
                  else if (i =? 4)%Z then raise (ClientException status)
                  else sleep 400;;; obj_exists_loop n (i + 1) obj_path) v)
            <> OutOfFuel).
  { intros status v. destruct (status =? 404)%Z; [discriminate |].
    destruct (i =? 4)%Z; [discriminate |]. unfold bind, sleep.
    match goal with |- context [obj_exists_loop n ?j obj_path ?u] =>
      pose proof (IH j u) as Hrest;
      destruct (obj_exists_loop n j obj_path u) as [[a | e |] w2] end;
      cbn [fst] in *; congruence. }
  destruct (faults w) as [|[status|] script];
    try destruct (lookup_object _ obj_path);
    first [discriminate | apply Hhandler].
Qed.

Lemma delete_obj_loop_ends (obj_path : string) (n : nat) :
  forall i w, fst (delete_obj_loop n i obj_path w) <> OutOfFuel.
Proof.
  induction n as [|n IH]; intros i w; [discriminate |].
  cbn [delete_obj_loop]. unfold try_except, delete_object, send.
  assert (Hhandler : forall status v,
            fst ((if (i =? 4)%Z then raise (ClientException status)
                  else sleep 400;;; delete_obj_loop n (i + 1) obj_path) v)
            <> OutOfFuel).
  { intros status v. destruct (i =? 4)%Z; [discriminate |]. unfold bind, sleep.
    match goal with |- context [delete_obj_loop n ?j obj_path ?u] =>
      pose proof (IH j u) as Hrest;
      destruct (delete_obj_loop n j obj_path u) as [[a | e |] w2] end;
      cbn [fst] in *; congruence. }
  destruct (faults w) as [|[status|] script];
    try destruct (lookup_object _ obj_path);
    first [discriminate | apply Hhandler].
Qed.

Lemma after_connection_ends {A : Type} (c : M A) (w : world) :
  (forall v, fst (c v) <> OutOfFuel) ->
  fst ((__get_connection ;;; c) w) <> OutOfFuel.
Proof.
  intros Hc. unfold bind.
  pose proof (get_connection_ends w) as Hconn.
  destruct (__get_connection w) as [[[] | e |] w1]; cbn [fst] in *;
    [apply Hc | discriminate | congruence].
Qed.

(** X16. [auto_delete_file_from_storage] never raises, whatever the storage
    does.  Over a connection that can be made and without fault, the object
    of the file is removed after one [head_object] and one [delete_object]
    request when it is there, and when it is not there the container is
    left as it is after the [head_object] request alone, without sleep. *)
Theorem auto_delete_file_from_storage_quiet (storage_path : string) (w : world) :
  let r := auto_delete_file_from_storage storage_path w in
  fst r = Returned tt /\
  (connected w -> faults w = [] ->
   if present storage_path w
   then objects (snd r)
        = List.filter (fun kv => negb (String.eqb (fst kv) storage_path))
            (objects w) /\
        requests (snd r)
        = requests w ++ [HeadObject storage_path; DeleteObject storage_path]
   else objects (snd r) = objects w /\
        requests (snd r) = requests w ++ [HeadObject storage_path] /\
        sleeps (snd r) = sleeps w).
Proof.
  intros r. subst r. split.
  - unfold auto_delete_file_from_storage, bind.
    pose proof (after_connection_ends (obj_exists_loop 5 0 storage_path) w
                  (obj_exists_loop_ends storage_path 5 0)) as Hfirst.
    fold (obj_exists storage_path) in Hfirst.
    destruct (obj_exists storage_path w) as [[found | e |] w1]; cbn [fst] in *;
      [| reflexivity | congruence].
    destruct found as [[] |]; try reflexivity.
    pose proof (after_connection_ends (delete_obj_loop 5 0 storage_path) w1
                  (delete_obj_loop_ends storage_path 5 0)) as Hsecond.
    fold (delete_obj storage_path) in Hsecond.
    destruct (delete_obj storage_path w1) as [[[] | e |] w2]; cbn [fst] in *;
      [reflexivity | reflexivity | congruence].
  - intros Hconn Hfaults.
    destruct (get_connection_connected w Hconn)
      as (w' & Hget & _ & Hobj & Hf & Hreq & Hsl & Hc).
    unfold auto_delete_file_from_storage, bind, obj_exists, bind. rewrite Hget.
    cbn [obj_exists_loop]. unfold try_except, head_object, send.
    rewrite Hf, Hfaults, Hreq. unfold present, lookup_object. cbn [objects].
    rewrite Hobj.
    destruct (List.find _ (objects w)) as [kv|] eqn:Hfind;
      cbn [fmap option_fmap option_map ret].
    + unfold delete_obj, bind, __get_connection. cbn [_conn]. rewrite Hc.
      cbn [delete_obj_loop]. unfold try_except, delete_object, send.
      cbn [faults tail]. unfold lookup_object. cbn [objects]. rewrite Hfind.
      cbn. rewrite <- app_assoc. now split.
    + cbn. now rewrite Hsl.
Qed.

Lemma auto_delete_file_from_storage_quiet_witness :
  objects (snd (auto_delete_file_from_storage "home/alice/f.txt" (faulty_world [])))
  = [] /\
  requests (snd (auto_delete_file_from_storage "home/bob" (faulty_world [])))
  = [HeadObject "home/bob"].
Proof.
  split.
  - destruct (auto_delete_file_from_storage_quiet "home/alice/f.txt"
                (faulty_world [])) as [_ H].
    destruct (H ltac:(now left) eq_refl) as [Hobj _]. exact Hobj.
  - destruct (auto_delete_file_from_storage_quiet "home/bob"
                (faulty_world [])) as [_ H].
    destruct (H ltac:(now left) eq_refl) as (_ & Hreq & _). exact Hreq.
Defined.

End SourceFileFacts.

(** ** The defaults a piping is saved with *)

Module PipingDefaultFacts.
Import Pipelines PipingDefaults PipingSamples.

Lemma rows_of_set_rows (c c' : model_class) (m : gmap (Z * Z) py_value)
  (db : default_rows) :
  rows_of c' (set_rows c m db) = if decide (c' = c) then m else rows_of c' db.
Proof. destruct c, c'; reflexivity. Qed.

Lemma set_rows_same (c : model_class) (db : default_rows) :
  set_rows c (rows_of c db) db = db.
Proof. destruct c, db; reflexivity. Qed.

Section Columns.
Variable prep : column.
Variable self : Z.
Variable param_defaults : list parameter_default.

(** The body of the loop for a parameter whose type has a table: it raises
    what the column raises, and otherwise leaves the value saved in the row
    of the parameter and every other row as it was. *)
Lemma save_parameter_spec (db : default_rows) (p : TypedParameter)
  (c : model_class) :
  DEFAULT_PIPING_PARAMETER_MODELS (parameter_type p) = Some c ->
  match saved_value prep self param_defaults db c p with
  | Returned v =>
      exists db',
        save_parameter prep self param_defaults db p = Returned db' /\
        rows_of c db' !! (self, param_pk p) = Some v /\
        (forall c' k, (c' <> c \/ k <> (self, param_pk p)) ->
           rows_of c' db' !! k = rows_of c' db !! k)
  | Raised e => save_parameter prep self param_defaults db p = Raised e
  | OutOfFuel => save_parameter prep self param_defaults db p = OutOfFuel
  end.
Proof.
  intros Hc. unfold save_parameter, saved_value. rewrite Hc.
  assert (Hsaved : forall value,
            match to_column prep c value with
            | Returned v =>
                exists db',
                  match to_column prep c value with
                  | Returned stored =>
                      Returned
                        (set_rows c
                           (<[(self, param_pk p) := stored]> (rows_of c db)) db)
                  | Raised e => Raised e
                  | OutOfFuel => OutOfFuel
                  end = Returned db' /\
                  rows_of c db' !! (self, param_pk p) = Some v /\
                  (forall c' k, (c' <> c \/ k <> (self, param_pk p)) ->
                     rows_of c' db' !! k = rows_of c' db !! k)
            | Raised e =>
                match to_column prep c value with
                | Returned stored =>
                    Returned
                      (set_rows c
                         (<[(self, param_pk p) := stored]> (rows_of c db)) db)
                | Raised e' => Raised e'
                | OutOfFuel => OutOfFuel
                end = Raised e
            | OutOfFuel =>
                match to_column prep c value with
                | Returned stored =>
                    Returned
                      (set_rows c
                         (<[(self, param_pk p) := stored]> (rows_of c db)) db)
                | Raised e' => Raised e'
                | OutOfFuel => OutOfFuel
                end = OutOfFuel
            end).
  { intros value. destruct (to_column prep c value) as [v | e |];
      [| reflexivity | reflexivity].
    eexists. split; [reflexivity |]. split.
    - rewrite rows_of_set_rows. destruct (decide (c = c)); [| contradiction].
      apply lookup_insert_eq.
    - intros c' k Hk. rewrite rows_of_set_rows.
      destruct (decide (c' = c)) as [-> | Hne]; [| reflexivity].
      destruct Hk as [Hk | Hk]; [contradiction |].
      now apply lookup_insert_ne. }
  destruct (rows_of c db !! (self, param_pk p)) as [v|] eqn:Hrow.
  - destruct (named param_defaults p) as [|d rest]; [| apply Hsaved].
    exists db. split; [reflexivity |]. split; [exact Hrow | reflexivity].
  - destruct (named param_defaults p) as [|d rest]; apply Hsaved.
Qed.

(** The value saved for a parameter reads the row of that parameter only. *)
Lemma saved_value_ext (db db' : default_rows) (c : model_class)
  (p : TypedParameter) :
  rows_of c db' !! (self, param_pk p) = rows_of c db !! (self, param_pk p) ->
  saved_value prep self param_defaults db' c p
  = saved_value prep self param_defaults db c p.
Proof. intros H. unfold saved_value. now rewrite H. Qed.

Lemma save_spec (parameters : list TypedParameter) :
  forall db,
    List.NoDup (map param_pk parameters) ->
    (forall p, In p parameters ->
       exists v, step_of prep self param_defaults db p = Returned v) ->
    exists db',
      save prep self param_defaults parameters db = Returned db' /\
      (forall p c v, In p parameters ->
         DEFAULT_PIPING_PARAMETER_MODELS (parameter_type p) = Some c ->
         saved_value prep self param_defaults db c p = Returned v ->
         rows_of c db' !! (self, param_pk p) = Some v) /\
      (forall c k,
         (forall p, In p parameters ->
            DEFAULT_PIPING_PARAMETER_MODELS (parameter_type p) = Some c ->
            k <> (self, param_pk p)) ->
         rows_of c db' !! k = rows_of c db !! k).
Proof.
  induction parameters as [|p ps IH]; intros db Hnd Hsteps.
  - exists db. split; [reflexivity |]. split; [intros ? ? ? [] | reflexivity].
  - cbn [map] in Hnd. apply List.NoDup_cons_iff in Hnd as [Hp Hnd].
    destruct (Hsteps p (or_introl eq_refl)) as [v Hv]. unfold step_of in Hv.
    destruct (DEFAULT_PIPING_PARAMETER_MODELS (parameter_type p)) as [c|] eqn:Hc;
      [| discriminate].
    pose proof (save_parameter_spec db p c Hc) as Hstep. rewrite Hv in Hstep.
    destruct Hstep as (db1 & Hstep & Hrow & Hframe).
    assert (Hagree : forall q cq, In q ps ->
              rows_of cq db1 !! (self, param_pk q)
              = rows_of cq db !! (self, param_pk q)).
    { intros q cq Hq. apply Hframe. right. intros [= Heq].
      apply Hp. rewrite <- Heq. now apply in_map. }
    destruct (IH db1 Hnd) as (db' & Hrun & Hrows & Hrest).
    { intros q Hq. destruct (Hsteps q (or_intror Hq)) as [vq Hvq].
      exists vq. unfold step_of in *.
      destruct (DEFAULT_PIPING_PARAMETER_MODELS (parameter_type q)) as [cq|];
        [| discriminate].
      now rewrite (saved_value_ext db db1 cq q (Hagree q cq Hq)). }
    exists db'. cbn [save]. rewrite Hstep. split; [exact Hrun |]. split.
    + intros q cq vq [<- | Hq] Hcq Hvq.
      * assert (cq = c) by congruence. subst cq.
        assert (vq = v) by congruence. subst vq.
        rewrite Hrest; [exact Hrow |].
        intros q Hq _ [= Heq]. apply Hp. rewrite Heq. now apply in_map.
      * apply (Hrows q cq vq Hq Hcq).
        now rewrite (saved_value_ext db db1 cq q (Hagree q cq Hq)).
    + intros c' k Hk. rewrite Hrest.
      * apply Hframe. destruct (decide (c' = c)) as [-> | Hne]; [| now left].
        right. apply Hk; [now left | exact Hc].
      * intros q Hq. apply Hk. now right.
Qed.

(** The loop raises what the body raises for the first parameter it does
    not save. *)
Lemma save_raises (before : list TypedParameter) :
  forall db p after e,
    List.NoDup (map param_pk (before ++ p :: after)) ->
    (forall q, In q before ->
       exists v, step_of prep self param_defaults db q = Returned v) ->
    step_of prep self param_defaults db p = Raised e ->
    save prep self param_defaults (before ++ p :: after) db = Raised e.
Proof.
  induction before as [|q before IH]; intros db p after e Hnd Hsteps Hp.
  - cbn [app save]. unfold step_of in Hp.
    destruct (DEFAULT_PIPING_PARAMETER_MODELS (parameter_type p)) as [c|] eqn:Hc.
    + pose proof (save_parameter_spec db p c Hc) as Hstep.
      rewrite Hp in Hstep. now rewrite Hstep.
    + injection Hp as <-. unfold save_parameter. now rewrite Hc.
  - cbn [app map] in Hnd |- *. apply List.NoDup_cons_iff in Hnd as [Hq Hnd].
    destruct (Hsteps q (or_introl eq_refl)) as [v Hv]. unfold step_of in Hv.
    destruct (DEFAULT_PIPING_PARAMETER_MODELS (parameter_type q)) as [c|] eqn:Hc;
      [| discriminate].
    pose proof (save_parameter_spec db q c Hc) as Hstep. rewrite Hv in Hstep.
    destruct Hstep as (db1 & Hstep & _ & Hframe).
    assert (Hagree : forall x cx, In x (before ++ p :: after) ->
              rows_of cx db1 !! (self, param_pk x)
              = rows_of cx db !! (self, param_pk x)).
    { intros x cx Hx. apply Hframe. right. intros [= Heq].
      apply Hq. rewrite <- Heq. now apply in_map. }
    assert (Hsame : forall x, In x (before ++ p :: after) ->
              step_of prep self param_defaults db1 x
              = step_of prep self param_defaults db x).
    { intros x Hx. unfold step_of.
      destruct (DEFAULT_PIPING_PARAMETER_MODELS (parameter_type x)) as [cx|];
        [| reflexivity].
      now apply saved_value_ext, Hagree. }
    cbn [save]. rewrite Hstep. apply IH; [exact Hnd | |].
    + intros x Hx. rewrite Hsame by (apply in_or_app; now left).
      apply Hsteps. now right.
    + rewrite Hsame by (apply in_or_app; right; now left). exact Hp.
Qed.

(** A saved state is a fixed point. *)
Lemma save_fixed (parameters : list TypedParameter) (db : default_rows) :
  (forall p, In p parameters ->
     exists c v,
       DEFAULT_PIPING_PARAMETER_MODELS (parameter_type p) = Some c /\
       rows_of c db !! (self, param_pk p) = Some v /\
       forall d rest, named param_defaults p = d :: rest ->
                      to_column prep c (default d) = Returned v) ->
  save prep self param_defaults parameters db = Returned db.
Proof.
  induction parameters as [|p ps IH]; intros Hall; [reflexivity |].
  cbn [save].
  destruct (Hall p (or_introl eq_refl)) as (c & v & Hc & Hrow & Hgiven).
  assert (Hstep : save_parameter prep self param_defaults db p = Returned db).
  { unfold save_parameter. rewrite Hc, Hrow.
    destruct (named param_defaults p) as [|d rest]; [reflexivity |].
    rewrite (Hgiven d rest eq_refl), insert_id by exact Hrow.
    now rewrite set_rows_same. }
  rewrite Hstep. apply IH. intros q Hq. apply Hall. now right.
Qed.

End Columns.

(** X17. [PluginPiping.save] for a plugin whose parameters have distinct
    keys, whatever the columns make of the values.  The value saved for a
    parameter is what the column of the table of its type makes of the
    value given for its name, else the value its row had, else what the
    column makes of the default of the plugin parameter, else [None].  When
    the type of every parameter has a table and no value is refused, the
    save returns, every parameter then has its row for this piping, which
    holds the value saved, and no other row of any table is changed.  When
    the parameters before one are saved and that one has a type without
    table, or a value the column refuses, the save raises [KeyError], or
    what the column raises. *)
Theorem save_sets_defaults (prep : column) (self : Z)
  (param_defaults : list parameter_default)
  (parameters : list TypedParameter) (db : default_rows) :
  List.NoDup (map param_pk parameters) ->
  ((forall p, In p parameters ->
      exists v, step_of prep self param_defaults db p = Returned v) ->
   exists db',
     save prep self param_defaults parameters db = Returned db' /\
     (forall p c v, In p parameters ->
        DEFAULT_PIPING_PARAMETER_MODELS (parameter_type p) = Some c ->
        saved_value prep self param_defaults db c p = Returned v ->
        rows_of c db' !! (self, param_pk p) = Some v) /\
     (forall c k,
        (forall p, In p parameters ->
           DEFAULT_PIPING_PARAMETER_MODELS (parameter_type p) = Some c ->
           k <> (self, param_pk p)) ->
        rows_of c db' !! k = rows_of c db !! k)) /\
  (forall before p after e,
     parameters = before ++ p :: after ->
     (forall q, In q before ->
        exists v, step_of prep self param_defaults db q = Returned v) ->
     step_of prep self param_defaults db p = Raised e ->
     save prep self param_defaults parameters db = Raised e) /\
  (forall p,
     DEFAULT_PIPING_PARAMETER_MODELS (parameter_type p) = None ->
     step_of prep self param_defaults db p = Raised KeyError).
Proof.
  intros Hnd. split; [| split].
  - intros Hsteps. now apply save_spec.
  - intros before p after e -> Hsteps Hp. now apply save_raises.
  - intros p Hnone. unfold step_of. now rewrite Hnone.
Qed.

Lemma save_returned_steps (prep : column) (self : Z)
  (param_defaults : list parameter_default) (parameters : list TypedParameter) :
  forall db db',
    List.NoDup (map param_pk parameters) ->
    save prep self param_defaults parameters db = Returned db' ->
    forall p, In p parameters ->
      exists v, step_of prep self param_defaults db p = Returned v.
Proof.
  induction parameters as [|q ps IH]; intros db db' Hnd Hrun p Hp;
    [destruct Hp |].
  cbn [map] in Hnd. apply List.NoDup_cons_iff in Hnd as [Hq Hnd].
  cbn [save] in Hrun.
  destruct (save_parameter prep self param_defaults db q) as [db1 | e |] eqn:Hstep;
    try discriminate.
  assert (Hfirst : exists c v,
            DEFAULT_PIPING_PARAMETER_MODELS (parameter_type q) = Some c /\
            saved_value prep self param_defaults db c q = Returned v /\
            forall c' k, (c' <> c \/ k <> (self, param_pk q)) ->
              rows_of c' db1 !! k = rows_of c' db !! k).
  { destruct (DEFAULT_PIPING_PARAMETER_MODELS (parameter_type q)) as [c|] eqn:Hc.
    - pose proof (save_parameter_spec prep self param_defaults db q c Hc) as Hspec.
      destruct (saved_value prep self param_defaults db c q) as [v | e |] eqn:Hv;
        [| congruence | congruence].
      destruct Hspec as (db2 & Hdb2 & _ & Hframe).
      assert (db2 = db1) by congruence. subst db2.
      exists c, v. split; [reflexivity |]. split; [exact Hv | exact Hframe].
    - unfold save_parameter in Hstep. rewrite Hc in Hstep. discriminate. }
  destruct Hfirst as (c & v & Hc & Hv & Hframe).
  destruct Hp as [<- | Hp].
  - exists v. unfold step_of. now rewrite Hc.
  - destruct (IH db1 db' Hnd Hrun p Hp) as [vp Hvp]. exists vp.
    unfold step_of in *.
    destruct (DEFAULT_PIPING_PARAMETER_MODELS (parameter_type p)) as [cp|];
      [| discriminate].
    rewrite <- Hvp. symmetry. apply saved_value_ext, Hframe.
    right. intros [= Heq]. apply Hq. rewrite <- Heq. now apply in_map.
Qed.

(** X18. Saving a piping a second time with the same arguments changes
    nothing, whatever the columns make of the values: the state a save
    returns is returned as it is by the same save. *)
Theorem save_idempotent (prep : column) (self : Z)
  (param_defaults : list parameter_default)
  (parameters : list TypedParameter) (db db' : default_rows) :
  List.NoDup (map param_pk parameters) ->
  save prep self param_defaults parameters db = Returned db' ->
  save prep self param_defaults parameters db' = Returned db'.
Proof.
  intros Hnd Hrun.
  pose proof (save_returned_steps prep self param_defaults parameters db db'
                Hnd Hrun) as Hsteps.
  destruct (save_spec prep self param_defaults parameters db Hnd Hsteps)
    as (db2 & Hrun2 & Hrows & _).
  assert (db2 = db') by congruence. subst db2.
  apply save_fixed. intros p Hp.
  destruct (Hsteps p Hp) as [v Hv]. unfold step_of in Hv.
  destruct (DEFAULT_PIPING_PARAMETER_MODELS (parameter_type p)) as [c|] eqn:Hc;
    [| discriminate].
  exists c, v. split; [reflexivity |]. split; [now apply (Hrows p c v) |].
  intros d rest Hnamed. unfold saved_value in Hv. now rewrite Hnamed in Hv.
Qed.

Lemma save_sets_defaults_witness :
  (exists db',
     save example_columns 7 n_given [dir_param; n_param] no_rows = Returned db' /\
     string_rows db' !! (7, 1) = Some (VStr "/") /\
     integer_rows db' !! (7, 2) = Some (VInt 3) /\
     boolean_rows db' !! (7, 1) = None) /\
  save example_columns 7 [ {| name := "n"; default := VInt (2 ^ 63) |} ]
    [dir_param; n_param] no_rows
  = Raised OverflowError.
Proof.
  split.
  - destruct (save_sets_defaults example_columns 7 n_given [dir_param; n_param]
                no_rows) as [Hok _].
    + cbn. repeat constructor; cbn; intuition discriminate.
    + destruct Hok as (db' & Hrun & Hrows & Hrest).
      * intros p [<- | [<- | []]]; eexists; reflexivity.
      * exists db'. split; [exact Hrun |]. split; [| split].
        -- exact (Hrows dir_param StrModel (VStr "/") (or_introl eq_refl)
                    eq_refl eq_refl).
        -- exact (Hrows n_param IntModel (VInt 3)
                    (or_intror (or_introl eq_refl)) eq_refl eq_refl).
        -- rewrite (Hrest BoolModel); [reflexivity |].
           intros p [<- | [<- | []]]; discriminate.
  - destruct (save_sets_defaults example_columns 7
                [ {| name := "n"; default := VInt (2 ^ 63) |} ]
                [dir_param; n_param] no_rows) as (_ & Hraise & _).
    + cbn. repeat constructor; cbn; intuition discriminate.
    + apply (Hraise [dir_param] n_param [] OverflowError eq_refl).
      * intros q [<- | []]. eexists. reflexivity.
      * reflexivity.
Defined.

Lemma save_idempotent_witness :
  let db' := {| string_rows := ∅; integer_rows := {[ (7, 2) := VInt 3 ]};
                float_rows := ∅; boolean_rows := ∅ |} in
  save example_columns 7 n_given [n_param] db' = Returned db'.
Proof.
  cbv zeta. apply (save_idempotent example_columns 7 n_given [n_param] no_rows).
  - cbn. repeat constructor. intros [].
  - reflexivity.
Defined.

End PipingDefaultFacts.

(** ** The rows [save] stores *)

Module SavedRowFacts.
Import PluginInstances TableInvariants DescendantFacts LineageSamples.

Lemma replace_row_ids (self : PluginInstance) (rows : table) :
  map id (map (fun r => if Z.eqb (id r) (id self) then self else r) rows)
  = map id rows.
Proof.
  induction rows as [|r rows IH]; [reflexivity |].
  cbn [map]. rewrite IH. f_equal.
  destruct (Z.eqb_spec (id r) (id self)); congruence.
Qed.

Lemma get_pk_replace_row (self : PluginInstance) (rows : table) (k : Z) :
  get_pk (map (fun r => if Z.eqb (id r) (id self) then self else r) rows) k
  = match get_pk rows k with
    | Some r => Some (if Z.eqb k (id self) then self else r)
    | None => None
    end.
Proof.
  unfold get_pk. induction rows as [|r rows IH]; [reflexivity |].
  cbn [map find].
  destruct (Z.eqb_spec (id r) (id self)) as [Heq | Hne].
  - rewrite <- Heq. destruct (Z.eqb_spec (id r) k) as [<- | Hk].
    + now rewrite Z.eqb_refl.
    + rewrite Heq. exact IH.
  - destruct (Z.eqb_spec (id r) k) as [<- | Hk]; [| exact IH].
    destruct (Z.eqb_spec (id r) (id self)); [contradiction | reflexivity].
Qed.

Lemma get_pk_append_row (self : PluginInstance) (rows : table) (k : Z) :
  get_pk (rows ++ [self]) k
  = match get_pk rows k with
    | Some r => Some r
    | None => if Z.eqb (id self) k then Some self else None
    end.
Proof.
  unfold get_pk. induction rows as [|r rows IH]; [reflexivity |].
  cbn [app find]. destruct (Z.eqb (id r) k); [reflexivity | exact IH].
Qed.

Lemma get_pk_none (rows : table) (k : Z) :
  get_pk rows k = None -> ~ In k (map id rows).
Proof.
  unfold get_pk. intros Hnone Hin. apply in_map_iff in Hin as (r & <- & Hr).
  apply (find_none _ _ Hnone) in Hr. now rewrite Z.eqb_refl in Hr.
Qed.

(** Storing a row that has a feed. *)
Lemma super_save_row (self : PluginInstance) (d : database) :
  feed self <> None -> keys_unique (instances d) ->
  fst (super_save self d) = Returned self /\
  keys_unique (instances (snd (super_save self d))) /\
  get_pk (instances (snd (super_save self d))) (id self) = Some self /\
  (forall k, k <> id self ->
     get_pk (instances (snd (super_save self d))) k = get_pk (instances d) k) /\
  feeds (snd (super_save self d)) = feeds d.
Proof.
  intros Hfeed Hkeys. unfold super_save.
  destruct (feed self) as [f|]; [| contradiction]. cbn [fst snd instances feeds].
  split; [reflexivity |].
  destruct (get_pk (instances d) (id self)) as [old|] eqn:Hold.
  - split; [unfold keys_unique; now rewrite replace_row_ids |].
    split; [| split; [| reflexivity]].
    + now rewrite get_pk_replace_row, Hold, Z.eqb_refl.
    + intros k Hk. rewrite get_pk_replace_row.
      destruct (get_pk (instances d) k); [| reflexivity].
      destruct (Z.eqb_spec k (id self)); [contradiction | reflexivity].
  - split; [| split; [| split; [| reflexivity]]].
    + unfold keys_unique. rewrite map_app. cbn [map].
      apply List.NoDup_app; [assumption | constructor; [intros [] | constructor] |].
      intros k Hk [<- | []]. now apply (get_pk_none _ _ Hold).
    + now rewrite get_pk_append_row, Hold, Z.eqb_refl.
    + intros k Hk. rewrite get_pk_append_row.
      destruct (get_pk (instances d) k); [reflexivity |].
      destruct (Z.eqb_spec (id self) k); [congruence | reflexivity].
Qed.

(** X19. [save] keeps the instance table keyed.  Whatever the node, the keys
    of the table stay unique and the rows with another key are as before;
    when it returns, the row with the key of the node is the object
    returned, which has a feed; and when it raises, the instance table is
    left as it was. *)
Theorem save_keeps_keys (self : PluginInstance) (d : database) :
  keys_unique (instances d) ->
  let r := save self d in
  keys_unique (instances (snd r)) /\
  (forall k, k <> id self ->
     get_pk (instances (snd r)) k = get_pk (instances d) k) /\
  (forall self', fst r = Returned self' ->
     id self' = id self /\ feed self' <> None /\
     get_pk (instances (snd r)) (id self) = Some self') /\
  (forall e, fst r = Raised e -> instances (snd r) = instances d).
Proof.
  intros Hkeys r. subst r. unfold save.
  assert (Hstored : forall x d0,
            feed x <> None -> id x = id self ->
            instances d0 = instances d ->
            keys_unique (instances (snd (super_save x d0))) /\
            (forall k, k <> id self ->
               get_pk (instances (snd (super_save x d0))) k
               = get_pk (instances d) k) /\
            (forall self', fst (super_save x d0) = Returned self' ->
               id self' = id self /\ feed self' <> None /\
               get_pk (instances (snd (super_save x d0))) (id self) = Some self') /\
            (forall e, fst (super_save x d0) = Raised e ->
               instances (snd (super_save x d0)) = instances d)).
  { intros x d0 Hfeed Hid Hinst.
    destruct (super_save_row x d0 Hfeed) as (Hret & Hk & Hrow & Hother & _);
      [now rewrite Hinst |].
    split; [exact Hk |]. split; [| split].
    - intros k Hne. rewrite Hother by congruence. now rewrite Hinst.
    - intros self' Hself'. rewrite Hret in Hself'. injection Hself' as <-.
      split; [exact Hid |]. split; [exact Hfeed | now rewrite <- Hid].
    - intros e He. rewrite Hret in He. discriminate. }
  assert (Hrefused : forall d0 e,
            instances d0 = instances d ->
            keys_unique (instances d0) /\
            (forall k, k <> id self ->
               get_pk (instances d0) k = get_pk (instances d) k) /\
            (forall self', @Raised PluginInstance e = Returned self' ->
               id self' = id self /\ feed self' <> None /\
               get_pk (instances d0) (id self) = Some self') /\
            (forall e', @Raised PluginInstance e = Raised e' ->
               instances d0 = instances d)).
  { intros d0 e Hinst. rewrite Hinst. split; [exact Hkeys |].
    split; [reflexivity |]. split; [discriminate | reflexivity]. }
  destruct (feed self) as [f|] eqn:Hfeed.
  - apply Hstored; [congruence | reflexivity | reflexivity].
  - destruct (String.eqb_spec (plugin_type (plugin self)) "fs") as [Hfs | Hfs].
    + rewrite Hfs. cbn [String.eqb Ascii.eqb Bool.eqb _save_feed].
      apply Hstored; [discriminate | reflexivity | reflexivity].
    + destruct (String.eqb (plugin_type (plugin self)) "ds").
      * destruct (previous_feed self d) as [f | e |] eqn:Hprev.
        -- apply Hstored; [discriminate | reflexivity | reflexivity].
        -- cbn [fst snd]. now apply Hrefused.
        -- exfalso. unfold previous_feed in Hprev.
           destruct (previous self); [| discriminate].
           destruct (get_pk (instances d) z) as [q|]; [| discriminate].
           destruct (feed q); discriminate.
      * unfold super_save. rewrite Hfeed. cbn [fst snd]. now apply Hrefused.
Qed.

Lemma save_keeps_keys_witness :
  let d := {| instances := feed_table; feeds := [feed7]; next_feed_id := 8 |} in
  let child := {| id := 5; previous := Some 3; plugin := simpledsapp;
                  feed := None; owner := alice |} in
  get_pk (instances (snd (save child d))) 5
  = Some {| id := 5; previous := Some 3; plugin := simpledsapp;
            feed := Some feed7; owner := alice |} /\
  get_pk (instances (snd (save child d))) 3 = Some n3.
Proof.
  cbv zeta.
  destruct (save_keeps_keys
              {| id := 5; previous := Some 3; plugin := simpledsapp;
                 feed := None; owner := alice |}
              {| instances := feed_table; feeds := [feed7]; next_feed_id := 8 |})
    as (_ & Hother & Hrow & _).
  - unfold keys_unique. cbn. repeat constructor; cbn; intuition discriminate.
  - split.
    + destruct (Hrow _ eq_refl) as (_ & _ & Hget). exact Hget.
    + rewrite Hother; [reflexivity | discriminate].
Defined.

(** A walk that returns reads only rows of the table: it returns the same
    in a table that agrees with it on its keys. *)
Lemma output_path_loop_stable (db db' : table) (fuel : nat) :
  (forall k, In k (map id db) -> get_pk db' k = get_pk db k) ->
  forall current path x,
    output_path_loop fuel db current path = Returned x ->
    output_path_loop fuel db' current path = Returned x.
Proof.
  intros Hagree.
  induction fuel as [|fuel IH]; intros current path x Hrun;
    cbn [output_path_loop] in Hrun |- *;
    destruct (is_fs current); try assumption; try discriminate.
  unfold follow_previous in *.
  destruct (previous current) as [k|]; [| discriminate].
  destruct (get_pk db k) as [q|] eqn:Hget; [| discriminate].
  rewrite Hagree, Hget; [now apply IH |].
  apply get_pk_some in Hget as [Hin <-]. now apply in_map.
Qed.

(** X20. [save] and [get_output_path] fit together.  A node of type "ds"
    without feed, whose key is new, is saved under a stored parent that has
    a feed and the same owner name: it is stored with the feed of the
    parent, and its output path is then the output path of the parent with
    the segment of the node put before the final [/data]. *)
Theorem saved_child_output_path (child parent : PluginInstance) (d : database)
  (f : Feed) (fuel : nat) (parent_path : string) :
  keys_unique (instances d) ->
  ~ In (id child) (map id (instances d)) ->
  feed child = None -> plugin_type (plugin child) = "ds" ->
  previous child = Some (id parent) ->
  get_pk (instances d) (id parent) = Some parent ->
  feed parent = Some f ->
  username (owner child) = username (owner parent) ->
  get_output_path fuel (instances d) parent = Returned parent_path ->
  exists base,
    parent_path = base +:+ "/data" /\
    fst (save child d) = Returned (set_feed child f) /\
    get_output_path (S fuel) (instances (snd (save child d))) (set_feed child f)
    = Returned (base +:+ segment child +:+ "/data").
Proof.
  intros Hkeys Hnew Hfeed Hds Hprev Hparent Hpf Howner Hpath.
  assert (Hsave : save child d = super_save (set_feed child f) d).
  { unfold save, previous_feed. rewrite Hfeed, Hds.
    cbn [String.eqb Ascii.eqb Bool.eqb]. now rewrite Hprev, Hparent, Hpf. }
  destruct (super_save_row (set_feed child f) d) as (Hret & _ & _ & Hother & _);
    [discriminate | exact Hkeys |].
  cbn [set_feed id] in Hother.
  assert (Hagree : forall k, In k (map id (instances d)) ->
            get_pk (instances (snd (save child d))) k = get_pk (instances d) k).
  { intros k Hk. rewrite Hsave. apply Hother. intros ->. contradiction. }
  unfold get_output_path in Hpath.
  destruct (output_path_loop fuel (instances d) parent (segment parent +:+ "/data"))
    as [[root q] | e |] eqn:Hloop; try discriminate.
  destruct (feed root) as [fr|] eqn:Hfr; [| discriminate].
  injection Hpath as <-.
  destruct (OutputPathFacts.output_path_loop_shape _ _ _ _ _ _ Hloop)
    as (pre & -> & Hall).
  exists (username (owner parent) +:+ "/feed_" +:+ py_str (feed_id fr) +:+ pre
          +:+ segment parent).
  split; [now rewrite !LineageFacts.append_assoc |].
  split; [now rewrite Hsave |].
  unfold get_output_path. cbn [output_path_loop].
  assert (Hnotfs : is_fs (set_feed child f) = false)
    by (unfold is_fs, set_feed; cbn [plugin]; now rewrite Hds).
  rewrite Hnotfs.
  assert (Hfollow : follow_previous (instances (snd (save child d)))
                      (set_feed child f) = Returned parent).
  { unfold follow_previous, set_feed. cbn [previous]. rewrite Hprev, Hagree.
    - now rewrite Hparent.
    - apply get_pk_some in Hparent as [Hin _]. now apply in_map. }
  rewrite Hfollow.
  rewrite (output_path_loop_stable (instances d) _ fuel Hagree parent _ _
             (Hall _)).
  rewrite Hfr. cbn [set_feed owner]. rewrite Howner.
  change (segment (set_feed child f)) with (segment child).
  now rewrite !LineageFacts.append_assoc.
Qed.

Lemma saved_child_output_path_witness :
  let d := {| instances := feed_table; feeds := [feed7]; next_feed_id := 8 |} in
  let child := {| id := 5; previous := Some 3; plugin := simpledsapp;
                  feed := None; owner := alice |} in
  get_output_path 3 (instances (snd (save child d))) (set_feed child feed7)
  = Returned
      "alice/feed_7/dircopy_1/simpledsapp_2/simpledsapp_3/simpledsapp_5/data".
Proof.
  cbv zeta.
  destruct (saved_child_output_path
              {| id := 5; previous := Some 3; plugin := simpledsapp;
                 feed := None; owner := alice |} n3
              {| instances := feed_table; feeds := [feed7]; next_feed_id := 8 |}
              feed7 2 "alice/feed_7/dircopy_1/simpledsapp_2/simpledsapp_3/data"
              RootFacts.feed_table_keys ltac:(cbn; intuition discriminate)
              eq_refl eq_refl eq_refl eq_refl eq_refl eq_refl eq_refl)
    as (base & Hbase & _ & Hrun).
  - rewrite Hrun. f_equal.
    assert (Hb : base = "alice/feed_7/dircopy_1/simpledsapp_2/simpledsapp_3").
    { apply OutputPathFacts.chars_inj.
      apply (f_equal list_ascii_of_string) in Hbase.
      rewrite OutputPathFacts.chars_append in Hbase.
      change (list_ascii_of_string
                "alice/feed_7/dircopy_1/simpledsapp_2/simpledsapp_3/data")
        with (list_ascii_of_string
                "alice/feed_7/dircopy_1/simpledsapp_2/simpledsapp_3"
              ++ list_ascii_of_string "/data") in Hbase.
      now apply app_inv_tail in Hbase. }
    rewrite Hb. reflexivity.
Defined.

(** *** The invariants of the table *)

Lemma get_pk_fresh (rows : table) (k : Z) :
  ~ In k (map id rows) -> get_pk rows k = None.
Proof.
  intros Hnew. destruct (get_pk rows k) as [q|] eqn:Hget; [| reflexivity].
  exfalso. apply get_pk_some in Hget as [Hin <-]. apply Hnew. now apply in_map.
Qed.

(** What [save] does to the instance table for a node whose key is new:
    nothing, or one row more, which is the node up to its feed. *)
Lemma save_new_row (self : PluginInstance) (d : database) :
  ~ In (id self) (map id (instances d)) ->
  instances (snd (save self d)) = instances d \/
  exists self',
    instances (snd (save self d)) = instances d ++ [self'] /\
    id self' = id self /\ previous self' = previous self /\
    plugin self' = plugin self.
Proof.
  intros Hnew. apply get_pk_fresh in Hnew.
  assert (Hstored : forall x d0,
            id x = id self -> previous x = previous self ->
            plugin x = plugin self -> instances d0 = instances d ->
            instances (snd (super_save x d0)) = instances d \/
            exists self',
              instances (snd (super_save x d0)) = instances d ++ [self'] /\
              id self' = id self /\ previous self' = previous self /\
              plugin self' = plugin self).
  { intros x d0 Hid Hprev Hplugin Hinst. unfold super_save.
    destruct (feed x); [| left; exact Hinst].
    right. exists x. cbn [snd instances]. rewrite Hinst, Hid, Hnew.
    now repeat split. }
  unfold save. destruct (feed self) as [f|] eqn:Hfeed.
  - now apply Hstored.
  - destruct (String.eqb (plugin_type (plugin self)) "fs").
    + destruct (String.eqb (plugin_type (plugin self)) "ds").
      * cbn [_save_feed].
        destruct (previous_feed _ _) as [f | e |]; [| now left | now left].
        now apply Hstored.
      * cbn [_save_feed]. now apply Hstored.
    + destruct (String.eqb (plugin_type (plugin self)) "ds").
      * destruct (previous_feed self d) as [f | e |]; [| now left | now left].
        now apply Hstored.
      * now apply Hstored.
Qed.

(** The rows above a stored row are the same after a row with a new key is
    appended. *)
Lemma ancestor_at_appended (db : table) (row : PluginInstance) :
  (forall y, In y db -> references_stored db y) ->
  ~ In (id row) (map id db) ->
  forall n y, In y db -> ancestor_at (db ++ [row]) n y = ancestor_at db n y.
Proof.
  intros Hrefs Hnew. induction n as [|n IH]; intros y Hy; [reflexivity |].
  cbn [ancestor_at]. pose proof (Hrefs y Hy) as Href.
  unfold references_stored in Href.
  destruct (previous y) as [k|]; [| reflexivity].
  rewrite get_pk_append_row.
  destruct (get_pk db k) as [p|] eqn:Hget.
  - apply IH. now apply get_pk_some in Hget.
  - destruct (Z.eqb_spec (id row) k) as [Heq | Hne]; [| reflexivity].
    exfalso. apply Hnew. now rewrite Heq.
Qed.

(** X22. [save] keeps the instance table well formed.  When the table has
    unique keys, no cycle and no dangling reference, and a node with a new
    key is saved whose [previous] is a stored key (or which has none and is
    of type "fs"), the table is well formed afterwards, whether the save
    returns or raises. *)
Theorem save_keeps_well_formed (self : PluginInstance) (d : database) :
  well_formed (instances d) ->
  ~ In (id self) (map id (instances d)) ->
  references_stored (instances d) self ->
  well_formed (instances (snd (save self d))).
Proof.
  intros (Hkeys & Hacyc & Hrefs) Hnew Hself.
  destruct (save_new_row self d Hnew)
    as [-> | (row & -> & Hid & Hprev & Hplugin)]; [now repeat split |].
  assert (Hnew' : ~ In (id row) (map id (instances d))) by now rewrite Hid.
  assert (Hrow : references_stored (instances d) row).
  { unfold references_stored, is_fs in *. now rewrite Hprev, Hplugin. }
  split; [| split].
  - unfold keys_unique. rewrite map_app. cbn [map].
    apply List.NoDup_app; [assumption | constructor; [intros [] | constructor] |].
    intros k Hk [<- | []]. contradiction.
  - intros x n Hx Hloop. apply in_app_or in Hx as [Hx | [<- | []]].
    + rewrite (ancestor_at_appended _ row Hrefs Hnew') in Hloop by assumption.
      now apply (Hacyc x n).
    + cbn [ancestor_at] in Hloop. unfold references_stored in Hrow.
      destruct (previous row) as [k|]; [| discriminate].
      rewrite get_pk_append_row in Hloop.
      destruct (get_pk (instances d) k) as [p|] eqn:Hget.
      * apply get_pk_some in Hget as [Hp _].
        rewrite (ancestor_at_appended _ row Hrefs Hnew') in Hloop by assumption.
        apply (ancestor_at_in _ _ _ _ Hp) in Hloop.
        apply Hnew'. now apply in_map.
      * apply Hnew'. destruct (Z.eqb_spec (id row) k) as [Heq | Hne];
          [now rewrite Heq | discriminate].
  - intros y Hy. unfold references_stored. rewrite map_app.
    apply in_app_or in Hy as [Hy | [<- | []]].
    + pose proof (Hrefs y Hy) as Href. unfold references_stored in Href.
      destruct (previous y); [apply in_or_app; now left | exact Href].
    + unfold references_stored in Hrow.
      destruct (previous row); [apply in_or_app; now left | exact Hrow].
Qed.

Lemma feed_table_well_formed : well_formed feed_table.
Proof.
  split; [exact RootFacts.feed_table_keys |].
  split; [exact RootFacts.feed_table_acyclic |].
  intros y [<- | [<- | [<- | [<- | []]]]]; cbn; tauto.
Qed.

Lemma save_keeps_well_formed_witness :
  well_formed
    (instances
       (snd (save {| id := 5; previous := Some 3; plugin := simpledsapp;
                     feed := None; owner := alice |}
               {| instances := feed_table; feeds := [feed7];
                  next_feed_id := 8 |}))).
Proof.
  apply save_keeps_well_formed.
  - exact feed_table_well_formed.
  - cbn. intuition discriminate.
  - cbn. tauto.
Defined.

End SavedRowFacts.

(** ** Sanitization of every object under a prefix *)

Module SanitizeLoopFacts.
Import Swift SwiftPaths SanitizePlan SwiftFacts SanitizeFacts PathFacts SwiftSamples.

(** Listing a path that is not empty over a connection that is there or can
    be made, without fault: one request, after which the connection is
    there. *)
Lemma ls_served (path : string) (w : world) :
  connected w -> faults w = [] -> path <> "" ->
  exists w',
    ls path w
    = (Returned (List.filter (String.prefix path) (object_names w)), w') /\
    calm w' /\ objects w' = objects w /\
    container_name w' = container_name w /\
    requests w' = requests w ++ [GetContainer path true].
Proof.
  intros Hconn Hfaults Hpath.
  destruct (get_connection_connected w Hconn)
    as (w1 & Hget & Hname & Hobj & Hf & Hreq & _ & Hc).
  apply String.eqb_neq in Hpath.
  unfold ls, _ls. rewrite Hpath. unfold bind. rewrite Hget.
  cbn [ls_loop]. unfold try_except, get_container, send.
  rewrite Hf, Hfaults. eexists. split.
  - unfold ret, object_names. rewrite Hobj. reflexivity.
  - unfold calm. cbn. rewrite Hreq. now repeat split.
Qed.

Lemma delete_obj_step (obj : string) (w : world) :
  calm w -> lookup_object w obj <> None ->
  exists w',
    delete_obj obj w = (Returned tt, w') /\ calm w' /\
    container_name w' = container_name w /\
    requests w' = requests w ++ [DeleteObject obj] /\
    (forall x, x <> obj -> lookup_object w x <> None ->
               lookup_object w' x <> None).
Proof.
  intros [Hconn Hfaults] Hthere.
  unfold delete_obj, bind, __get_connection. rewrite Hconn.
  cbn [delete_obj_loop]. unfold try_except, delete_object, send.
  rewrite Hfaults. unfold lookup_object in *. cbn [objects].
  destruct (List.find _ (objects w)); [| contradiction].
  cbn [fmap option_fmap option_map]. eexists. split; [reflexivity |].
  unfold calm. cbn. repeat split; try assumption.
  intros x Hx Hfound. now rewrite find_filter_other.
Qed.

Lemma copy_obj_step (obj new_obj_path : string) (w : world) :
  calm w -> lookup_object w obj <> None ->
  exists w',
    copy_obj obj new_obj_path w = (Returned tt, w') /\ calm w' /\
    container_name w' = container_name w /\
    requests w'
    = requests w
      ++ [CopyObject obj
            (os_path_join ("/" +:+ container_name w)
               (lstrip_slash new_obj_path))] /\
    (forall x, lookup_object w x <> None -> lookup_object w' x <> None).
Proof.
  intros [Hconn Hfaults] Hthere.
  unfold copy_obj, bind, __get_connection. rewrite Hconn.
  cbn [copy_obj_loop]. unfold try_except, copy_object, send.
  rewrite Hfaults. unfold lookup_object in *. cbn [objects].
  destruct (List.find _ (objects w)) as [[n c]|] eqn:Hfind; [| contradiction].
  cbn [fmap option_fmap option_map snd].
  destruct (dest_name _ _) as [name|]; eexists;
    (split; [reflexivity |]); unfold calm; cbn;
    repeat split; try assumption.
  - intros x Hx Hnone. apply (find_store name c x (objects w)).
    + intros Hnone'. apply Hx. now rewrite Hnone'.
    + now destruct (List.find _ (store name c (objects w))).
  - intros x Hx. exact Hx.
Qed.

(** The body of the loop for an object that is there. *)
Lemma sanitize_obj_step (p : Path) (new_obj_paths : gmap string string)
  (obj : string) (w : world) :
  calm w -> lookup_object w obj <> None -> fate_of p obj <> NotBelow ->
  exists w',
    sanitize_obj p new_obj_paths obj w
    = (Returned (match entry_of (fate_of p obj) with
                 | Some new_obj_path => <[obj := new_obj_path]> new_obj_paths
                 | None => new_obj_paths
                 end), w') /\
    calm w' /\ container_name w' = container_name w /\
    requests w'
    = requests w ++ requests_of (container_name w) obj (fate_of p obj) /\
    (forall x, x <> obj -> lookup_object w x <> None ->
               lookup_object w' x <> None).
Proof.
  intros Hcalm Hthere Hbelow. unfold sanitize_obj, fate_of in *.
  destruct (String.eqb _ "").
  - destruct (delete_obj_step obj w Hcalm Hthere)
      as (w1 & Hdel & Hcalm1 & Hname1 & Hreq1 & Hkeep1).
    exists w1. unfold bind. rewrite Hdel.
    split; [reflexivity |]. split; [exact Hcalm1 |].
    split; [exact Hname1 |]. split; [exact Hreq1 | exact Hkeep1].
  - destruct (relative_to (Path_of obj) p) as [rel|]; [| contradiction].
    destruct (negb _).
    + destruct (copy_obj_step obj
                  (Path_str (Path_div p (Path_of_args (new_parts (names rel)))))
                  w Hcalm Hthere)
        as (w1 & Hcopy & Hcalm1 & Hname1 & Hreq1 & Hkeep1).
      destruct (delete_obj_step obj w1 Hcalm1 (Hkeep1 obj Hthere))
        as (w2 & Hdel & Hcalm2 & Hname2 & Hreq2 & Hkeep2).
      exists w2. unfold bind. rewrite Hcopy, Hdel. cbn [entry_of requests_of].
      split; [reflexivity |]. split; [exact Hcalm2 |].
      split; [congruence |]. split.
      * rewrite Hreq2, Hreq1, <- app_assoc. reflexivity.
      * intros x Hx Hfound. apply Hkeep2; [exact Hx | now apply Hkeep1].
    + exists w. cbn [entry_of requests_of]. rewrite app_nil_r.
      split; [reflexivity |]. split; [exact Hcalm |].
      split; [reflexivity |]. split; [reflexivity |]. now intros.
Qed.

Lemma sanitize_obj_not_below (p : Path) (new_obj_paths : gmap string string)
  (obj : string) (w : world) :
  fate_of p obj = NotBelow ->
  sanitize_obj p new_obj_paths obj w = (Raised ValueError, w).
Proof.
  unfold sanitize_obj, fate_of.
  destruct (String.eqb _ ""); [discriminate |].
  destruct (relative_to (Path_of obj) p); [| reflexivity].
  destruct (negb _); discriminate.
Qed.

(** The loop over objects that are there and have distinct names: the
    entries and the requests of all of them, in their order. *)
Lemma sanitize_objs_steps (p : Path) (l_ls : list string) :
  forall new_obj_paths w,
    calm w -> List.NoDup l_ls ->
    (forall obj, In obj l_ls -> lookup_object w obj <> None) ->
    (forall obj, In obj l_ls -> fate_of p obj <> NotBelow) ->
    exists result w',
      sanitize_objs p new_obj_paths l_ls w = (Returned result, w') /\
      (forall obj, In obj l_ls ->
         result !! obj
         = match entry_of (fate_of p obj) with
           | Some new_obj_path => Some new_obj_path
           | None => new_obj_paths !! obj
           end) /\
      (forall obj, ~ In obj l_ls -> result !! obj = new_obj_paths !! obj) /\
      requests w'
      = requests w
        ++ flat_map (fun obj => requests_of (container_name w) obj (fate_of p obj))
             l_ls.
Proof.
  induction l_ls as [|obj l_ls IH]; intros m w Hcalm Hnd Hthere Hbelow.
  - exists m, w. cbn [sanitize_objs flat_map]. rewrite app_nil_r.
    split; [reflexivity |]. split; [intros ? [] | now split].
  - apply List.NoDup_cons_iff in Hnd as [Hnotin Hnd].
    destruct (sanitize_obj_step p m obj w Hcalm
                (Hthere obj (or_introl eq_refl)) (Hbelow obj (or_introl eq_refl)))
      as (w1 & Hstep & Hcalm1 & Hname1 & Hreq1 & Hkeep1).
    destruct (IH (match entry_of (fate_of p obj) with
                  | Some new_obj_path => <[obj := new_obj_path]> m
                  | None => m
                  end) w1 Hcalm1 Hnd)
      as (result & w2 & Hrest & Hin & Hout & Hreq2).
    { intros x Hx. apply Hkeep1; [intros ->; contradiction |].
      apply Hthere. now right. }
    { intros x Hx. apply Hbelow. now right. }
    exists result, w2. cbn [sanitize_objs]. unfold bind. rewrite Hstep.
    split; [exact Hrest |]. split; [| split].
    + intros x [<- | Hx].
      * rewrite (Hout _ Hnotin).
        destruct (entry_of (fate_of p obj)); [apply lookup_insert_eq | reflexivity].
      * rewrite (Hin x Hx). destruct (entry_of (fate_of p x)); [reflexivity |].
        destruct (entry_of (fate_of p obj)); [| reflexivity].
        apply lookup_insert_ne. intros ->. contradiction.
    + intros x Hx. rewrite Hout by (intros Hx'; apply Hx; now right).
      destruct (entry_of (fate_of p obj)); [| reflexivity].
      apply lookup_insert_ne. intros ->. apply Hx. now left.
    + cbn [flat_map]. rewrite Hreq2, Hreq1, Hname1, <- app_assoc. reflexivity.
Qed.

(** The loop stops at the first object that is not below the path. *)
Lemma sanitize_objs_not_below (p : Path) (before : list string) :
  forall new_obj_paths w obj after,
    calm w -> List.NoDup (before ++ obj :: after) ->
    (forall x, In x (before ++ obj :: after) -> lookup_object w x <> None) ->
    (forall x, In x before -> fate_of p x <> NotBelow) ->
    fate_of p obj = NotBelow ->
    exists w',
      sanitize_objs p new_obj_paths (before ++ obj :: after) w
      = (Raised ValueError, w') /\
      requests w'
      = requests w
        ++ flat_map (fun x => requests_of (container_name w) x (fate_of p x))
             before.
Proof.
  induction before as [|x before IH];
    intros m w obj after Hcalm Hnd Hthere Hbelow Hobj.
  - exists w. cbn [app sanitize_objs flat_map]. unfold bind.
    rewrite (sanitize_obj_not_below p m obj w Hobj). now rewrite app_nil_r.
  - cbn [app] in Hnd, Hthere |- *.
    apply List.NoDup_cons_iff in Hnd as [Hnotin Hnd].
    destruct (sanitize_obj_step p m x w Hcalm
                (Hthere x (or_introl eq_refl)) (Hbelow x (or_introl eq_refl)))
      as (w1 & Hstep & Hcalm1 & Hname1 & Hreq1 & Hkeep1).
    destruct (IH (match entry_of (fate_of p x) with
                  | Some new_obj_path => <[x := new_obj_path]> m
                  | None => m
                  end) w1 obj after Hcalm1 Hnd)
      as (w2 & Hrest & Hreq2); [| | exact Hobj |].
    { intros y Hy. apply Hkeep1; [intros ->; contradiction |].
      apply Hthere. now right. }
    { intros y Hy. apply Hbelow. now right. }
    exists w2. cbn [sanitize_objs]. unfold bind. rewrite Hstep.
    split; [exact Hrest |].
    cbn [flat_map]. rewrite Hreq2, Hreq1, Hname1, <- app_assoc. reflexivity.
Qed.

(** C5, as the code has it.  Over a connection that is there or can be made,
    without fault, in a container with distinct names, for a path that is
    not empty and whose listing is not the path alone:

    - when every object listed with a leaf name that is not left blank is
      below the path, the call returns, and for every object whose name
      starts with the path -- however many there are -- the mapping has
      the entry its fate gives: the empty string when it is deleted, the new
      path when it is renamed, none when its path does not change; it has
      no other key; and the requests sent are one listing followed, for
      each object in the order listed, by its delete, or by its copy to the
      new path and then its delete;
    - when an object listed is not below the path, the call raises
      [ValueError] after the requests of the objects listed before it;
    - an object is deleted exactly when its leaf name without its commas is
      blank; the new path of a renamed object is the path followed by the
      components of the object below it, each without its commas, those
      left blank being dropped; no comma remains in a component and blanks
      inside a name are kept;
    - in the example, sanitizing the prefix [PIPELINES] copies and deletes
      both objects: [PIPELINES/a,b/c, .txt] becomes [PIPELINES/ab/c .txt]
      and [PIPELINES/a,b/ ,,/x.txt] becomes [PIPELINES/ab/x.txt], and the
      mapping returned has exactly these two entries. *)
Theorem sanitize_obj_names_removes_commas :
  (forall path w,
     connected w -> faults w = [] -> List.NoDup (object_names w) ->
     path <> "" ->
     let p := Path_of path in
     let l_ls := List.filter (String.prefix path) (object_names w) in
     is_prefix_listing l_ls path = true ->
     (forall obj, In obj l_ls -> fate_of p obj <> NotBelow) ->
     exists new_obj_paths,
       fst (sanitize_obj_names path w) = Returned new_obj_paths /\
       (forall obj, In obj l_ls ->
          new_obj_paths !! obj = entry_of (fate_of p obj)) /\
       (forall obj, ~ In obj l_ls -> new_obj_paths !! obj = None) /\
       requests (snd (sanitize_obj_names path w))
       = requests w
         ++ GetContainer path true
            :: flat_map
                 (fun obj => requests_of (container_name w) obj (fate_of p obj))
                 l_ls) /\
  (forall path w before obj after,
     connected w -> faults w = [] -> List.NoDup (object_names w) ->
     path <> "" ->
     let p := Path_of path in
     List.filter (String.prefix path) (object_names w) = before ++ obj :: after ->
     is_prefix_listing (before ++ obj :: after) path = true ->
     (forall x, In x before -> fate_of p x <> NotBelow) ->
     fate_of p obj = NotBelow ->
     fst (sanitize_obj_names path w) = Raised ValueError /\
     requests (snd (sanitize_obj_names path w))
     = requests w
       ++ GetContainer path true
          :: flat_map
               (fun x => requests_of (container_name w) x (fate_of p x))
               before) /\
  (forall p obj,
     (fate_of p obj = Deleted <->
      py_strip (py_remove "," (Path_name (Path_of obj))) = "") /\
     (fate_of p obj = NotBelow <->
      py_strip (py_remove "," (Path_name (Path_of obj))) <> "" /\
      relative_to (Path_of obj) p = None) /\
     (forall new_obj_path,
        fate_of p obj = Renamed new_obj_path ->
        exists rel,
          relative_to (Path_of obj) p = Some rel /\
          new_obj_path
          = Path_str (Path_div p (Path_of_args (new_parts (names rel)))))) /\
  (forall parts part,
     In part (new_parts parts) <->
     exists orig, In orig parts /\ part = py_remove "," orig /\ py_strip part <> "") /\
  (forall s, ~ In ","%char (list_ascii_of_string (py_remove "," s))) /\
  (let r := sanitize_obj_names "PIPELINES" pipelines_world in
   fst r = Returned (<["PIPELINES/a,b/c, .txt" := "PIPELINES/ab/c .txt"]>
                       {["PIPELINES/a,b/ ,,/x.txt" := "PIPELINES/ab/x.txt"]}) /\
   requests (snd r)
   = [GetContainer "PIPELINES" true;
      CopyObject "PIPELINES/a,b/ ,,/x.txt" "/users/PIPELINES/ab/x.txt";
      DeleteObject "PIPELINES/a,b/ ,,/x.txt";
      CopyObject "PIPELINES/a,b/c, .txt" "/users/PIPELINES/ab/c .txt";
      DeleteObject "PIPELINES/a,b/c, .txt"] /\
   objects (snd r) = [("PIPELINES/ab/x.txt", "x"); ("PIPELINES/ab/c .txt", "c")]).
Proof.
  split; [| split; [| split; [| split; [exact new_parts_spec |
                                         split; [exact (py_remove_gone ",") |]]]]].
  - intros path w Hconn Hfaults Hnd Hpath p l_ls Hprefix Hbelow.
    destruct (ls_served path w Hconn Hfaults Hpath)
      as (w1 & Hls & Hcalm1 & Hobj1 & Hname1 & Hreq1).
    fold l_ls in Hls.
    destruct (sanitize_objs_steps p l_ls ∅ w1 Hcalm1)
      as (result & w2 & Hrun & Hin & Hout & Hreq2).
    { now apply List.NoDup_filter. }
    { intros obj Hobj. apply filter_In in Hobj as [Hobj _].
      apply lookup_listed. unfold object_names. now rewrite Hobj1. }
    { exact Hbelow. }
    exists result. unfold sanitize_obj_names, bind. rewrite Hls, Hprefix.
    fold p. rewrite Hrun. cbn [fst snd].
    split; [reflexivity |]. split; [| split].
    + intros obj Hobj. rewrite (Hin obj Hobj).
      now destruct (entry_of (fate_of p obj)).
    + intros obj Hobj. now rewrite (Hout obj Hobj).
    + rewrite Hreq2, Hreq1, Hname1, <- app_assoc. reflexivity.
  - intros path w before obj after Hconn Hfaults Hnd Hpath p Hlist Hprefix
      Hbelow Hobj.
    destruct (ls_served path w Hconn Hfaults Hpath)
      as (w1 & Hls & Hcalm1 & Hobj1 & Hname1 & Hreq1).
    rewrite Hlist in Hls.
    destruct (sanitize_objs_not_below p before ∅ w1 obj after Hcalm1)
      as (w2 & Hrun & Hreq2); try assumption.
    { rewrite <- Hlist. now apply List.NoDup_filter. }
    { intros x Hx. rewrite <- Hlist in Hx. apply filter_In in Hx as [Hx _].
      apply lookup_listed. unfold object_names. now rewrite Hobj1. }
    unfold sanitize_obj_names, bind. rewrite Hls, Hprefix.
    fold p. rewrite Hrun. cbn [fst snd].
    split; [reflexivity |].
    rewrite Hreq2, Hreq1, Hname1, <- app_assoc. reflexivity.
  - intros p obj. unfold fate_of.
    destruct (String.eqb_spec (py_strip (py_remove "," (Path_name (Path_of obj)))) "")
      as [Hblank | Hleaf].
    + split; [now split |]. split; [| discriminate].
      split; [discriminate | now intros [Hne _]].
    + destruct (relative_to (Path_of obj) p) as [rel|].
      * destruct (negb _).
        -- split; [split; [discriminate | contradiction] |].
           split; [split; [discriminate | now intros [_ ?]] |].
           intros n [= <-]. now exists rel.
        -- split; [split; [discriminate | contradiction] |].
           split; [split; [discriminate | now intros [_ ?]] | discriminate].
      * split; [split; [discriminate | contradiction] |].
        split; [now split | discriminate].
  - vm_compute. repeat split.
Qed.

Lemma sanitize_obj_names_removes_commas_witness :
  exists new_obj_paths,
    fst (sanitize_obj_names "SERVICES/PACS"
           (set_objects empty_world
              [("SERVICES/PACS/a,b/1.dcm", "1"); ("home/x,y", "h");
               ("SERVICES/PACS/ , /2.dcm", "2"); ("SERVICES/PACS/c/ ,", "3");
               ("SERVICES/PACS/c/4.dcm", "4")]))
    = Returned new_obj_paths /\
    new_obj_paths !! "SERVICES/PACS/a,b/1.dcm" = Some "SERVICES/PACS/ab/1.dcm" /\
    new_obj_paths !! "SERVICES/PACS/ , /2.dcm" = Some "SERVICES/PACS/2.dcm" /\
    new_obj_paths !! "SERVICES/PACS/c/ ," = Some "" /\
    new_obj_paths !! "SERVICES/PACS/c/4.dcm" = None /\
    new_obj_paths !! "home/x,y" = None.
Proof.
  destruct sanitize_obj_names_removes_commas as (Hall & _).
  destruct (Hall "SERVICES/PACS"
              (set_objects empty_world
                 [("SERVICES/PACS/a,b/1.dcm", "1"); ("home/x,y", "h");
                  ("SERVICES/PACS/ , /2.dcm", "2"); ("SERVICES/PACS/c/ ,", "3");
                  ("SERVICES/PACS/c/4.dcm", "4")]))
    as (new_obj_paths & Hrun & Hin & Hout & _).
  - right. exact I.
  - reflexivity.
  - unfold object_names. cbn. repeat constructor; cbn; intuition discriminate.
  - discriminate.
  - reflexivity.
  - intros obj Hobj. cbn in Hobj.
    destruct Hobj as [<- | [<- | [<- | [<- | []]]]]; vm_compute; discriminate.
  - exists new_obj_paths. split; [exact Hrun |].
    split; [| split; [| split; [| split]]].
    + rewrite Hin; [reflexivity | cbn; tauto].
    + rewrite Hin; [reflexivity | cbn; tauto].
    + rewrite Hin; [reflexivity | cbn; tauto].
    + rewrite Hin; [reflexivity | cbn; tauto].
    + apply Hout. cbn. intuition discriminate.
Defined.

(** C5 as stated fails on the code: blanks are not removed from a name, so
    the first object of the example is not renamed to [PIPELINES/ab/c.txt]:
    under the prefix [PIPELINES] it becomes [PIPELINES/ab/c .txt], under the
    prefix [PIPELINES/a,b] it becomes [PIPELINES/a,b/c .txt], and for the
    object's own name as the path nothing is renamed.  And not every object
    under a prefix is sanitized: the names that start with [PIPE] are not
    below the path [PIPE], and the call raises [ValueError] without a
    request but the listing. *)
Lemma sanitize_obj_names_keeps_blanks :
  let renamed path :=
    match fst (sanitize_obj_names path pipelines_world) with
    | Returned new_obj_paths => new_obj_paths !! "PIPELINES/a,b/c, .txt"
    | _ => None
    end in
  renamed "PIPELINES" = Some "PIPELINES/ab/c .txt" /\
  renamed "PIPELINES/a,b" = Some "PIPELINES/a,b/c .txt" /\
  renamed "PIPELINES/a,b/c, .txt" = None /\
  renamed "PIPELINES" <> Some "PIPELINES/ab/c.txt" /\
  fst (sanitize_obj_names "PIPE" pipelines_world) = Raised ValueError /\
  requests (snd (sanitize_obj_names "PIPE" pipelines_world))
  = [GetContainer "PIPE" true].
Proof.
  cbv zeta. repeat split; try (vm_compute; reflexivity).
  vm_compute. discriminate.
Qed.

End SanitizeLoopFacts.

(** ** What a failed copy and a sanitization leave alone *)

Module FrameFacts.
Import Swift SwiftPaths SwiftFacts SanitizeFacts PathFacts SwiftSamples.

(** Every attempt to copy an object that is not there fails. *)
Lemma copy_obj_loop_absent (obj dest : string) (n : nat) :
  forall i w,
    lookup_object w obj = None ->
    i + Z.of_nat n = 5 -> (1 <= n)%nat ->
    let r := copy_obj_loop n i obj dest w in
    (exists status, fst r = Raised (ClientException status)) /\
    (faults w = [] -> fst r = Raised (ClientException 404)) /\
    objects (snd r) = objects w /\
    requests (snd r) = requests w ++ repeat (CopyObject obj dest) n /\
    sleeps (snd r) = sleeps w ++ repeat 400 (pred n).
Proof.
  induction n as [|n IH]; intros i w Habsent Hi Hn r; subst r; [lia |].
  cbn [copy_obj_loop]. unfold try_except, copy_object, send.
  unfold lookup_object in *. cbn [objects]. rewrite Habsent.
  destruct (Z.eqb_spec i 4) as [Hi4 | Hi4].
  - assert (n = 0%nat) by lia. subst n.
    destruct (faults w) as [|[status|] script]; cbn; rewrite app_nil_r;
      (split; [now eexists | now repeat split]).
  - unfold bind, sleep.
    destruct (faults w) as [|[status|] script];
      match goal with |- context [copy_obj_loop n ?j obj dest ?v] =>
        destruct (IH j v) as ([st Hres] & Hcalm & Hobj & Hreq & Hsl) end;
      try assumption; try lia;
      cbn [fst snd objects requests sleeps faults tail repeat] in *;
      rewrite Hobj, Hreq, Hsl, <- !app_assoc;
      (destruct n as [|n]; [lia |]); cbn [pred repeat app];
      (split; [rewrite Hres; now eexists |]);
      (split; [| now repeat split]); try discriminate;
      intros _; now apply Hcalm.
Qed.

(** X25. [copy_obj] of a name the container does not hold never returns
    normally, whatever the faults and the destination: five copy requests
    are sent and four sleeps of 400 ms taken before the last failure is
    raised ("not found" itself when there is no fault), and the container
    is left as it is. *)
Theorem copy_obj_absent (obj dest_path : string) (w : world) :
  connected w -> lookup_object w obj = None ->
  let r := copy_obj obj dest_path w in
  (exists status, fst r = Raised (ClientException status)) /\
  (faults w = [] -> fst r = Raised (ClientException 404)) /\
  objects (snd r) = objects w /\
  length (requests (snd r)) = (length (requests w) + 5)%nat /\
  Forall (fun q => exists dest, q = CopyObject obj dest)
    (skipn (length (requests w)) (requests (snd r))) /\
  sleeps (snd r) = sleeps w ++ repeat 400 4.
Proof.
  intros Hconn Habsent r. subst r.
  destruct (get_connection_connected w Hconn)
    as (w' & Hget & _ & Hobj & Hf & Hreq & Hsl & _).
  assert (Habsent' : lookup_object w' obj = None)
    by (unfold lookup_object in *; now rewrite Hobj).
  unfold copy_obj, bind. rewrite Hget.
  match goal with |- context [copy_obj_loop 5 0 obj ?d w'] =>
    destruct (copy_obj_loop_absent obj d 5 0 w' Habsent' eq_refl ltac:(lia))
      as (Hres & Hcalm & Ho & Hr & Hs)
  end.
  rewrite Ho, Hr, Hs, Hobj, Hreq, Hsl, <- Hf.
  split; [exact Hres |]. split; [exact Hcalm |]. split; [reflexivity |].
  split; [rewrite length_app; reflexivity |]. split; [| reflexivity].
  rewrite skipn_app, Nat.sub_diag, skipn_all. cbn [app skipn repeat].
  repeat constructor; now eexists.
Qed.

Lemma copy_obj_absent_witness :
  fst (copy_obj "home/bob" "home/carol" (faulty_world []))
  = Raised (ClientException 404) /\
  objects (snd (copy_obj "home/bob" "home/carol" (faulty_world [])))
  = [("home/alice/f.txt", "f")].
Proof.
  destruct (copy_obj_absent "home/bob" "home/carol" (faulty_world [])
              ltac:(now left) eq_refl) as (_ & Hres & Hobj & _).
  split; [now apply Hres | exact Hobj].
Defined.

(** *** Sanitization stays under its prefix *)

Lemma keeps_outside_refl (path : string) (w : world) : keeps_outside path w w.
Proof. intros name Hin _. exact Hin. Qed.

Lemma keeps_outside_trans (path : string) (w1 w2 w3 : world) :
  keeps_outside path w1 w2 -> keeps_outside path w2 w3 ->
  keeps_outside path w1 w3.
Proof. intros H12 H23 name Hin Hp. apply H23; [now apply H12 | exact Hp]. Qed.

Lemma keeps_outside_same (path : string) (w w' : world) :
  objects w' = objects w -> keeps_outside path w w'.
Proof. intros Ho name Hin _. unfold object_names in *. now rewrite Ho. Qed.

Lemma extends_keeps_outside (path : string) (w w' : world) :
  extends w w' -> keeps_outside path w w'.
Proof. intros [Hincl _] name Hin _. now apply Hincl. Qed.

Lemma delete_object_keeps_outside (path obj : string) (w : world) :
  String.prefix path obj = true ->
  keeps_outside path w (snd (delete_object obj w)).
Proof.
  intros Hp name Hin Hout. unfold delete_object, send, object_names in *.
  destruct (faults w) as [|[status|] script];
    unfold lookup_object; cbn [objects];
    try destruct (snd <$> List.find _ (objects w));
    cbn [snd objects set_objects]; try exact Hin;
    apply in_map_iff in Hin as (kv & <- & Hkv);
    apply in_map, filter_In; (split; [exact Hkv |]);
    apply negb_true_iff, String.eqb_neq; intros Heq;
    rewrite Heq in Hout; congruence.
Qed.

Lemma delete_obj_loop_keeps_outside (path obj : string) (n : nat) :
  String.prefix path obj = true ->
  forall i w, keeps_outside path w (snd (delete_obj_loop n i obj w)).
Proof.
  intros Hp. induction n as [|n IH]; intros i w; [apply keeps_outside_refl |].
  cbn [delete_obj_loop]. unfold try_except.
  pose proof (delete_object_keeps_outside path obj w Hp) as Hstep.
  destruct (delete_object obj w) as [[[] | [] |] w1]; cbn [snd] in *;
    try exact Hstep.
  destruct (i =? 4)%Z; [exact Hstep |].
  unfold bind, sleep.
  match goal with |- context [delete_obj_loop n ?j obj ?v] =>
    pose proof (IH j v) as Hrest;
    destruct (delete_obj_loop n j obj v) as [[a | e |] w2] end;
    cbn [snd] in *;
    (apply keeps_outside_trans with w1; [exact Hstep |]);
    intros name Hin Hout; now apply Hrest.
Qed.

Lemma delete_obj_keeps_outside (path obj : string) (w : world) :
  String.prefix path obj = true ->
  keeps_outside path w (snd (delete_obj obj w)).
Proof.
  intros Hp. unfold delete_obj, bind.
  destruct (get_connection_quiet w) as [Ho _].
  destruct (__get_connection w) as [[[] | e |] w1]; cbn [snd] in *;
    try (now apply keeps_outside_same).
  apply keeps_outside_trans with w1; [now apply keeps_outside_same |].
  now apply delete_obj_loop_keeps_outside.
Qed.

Lemma sanitize_obj_keeps_outside (path : string) (p : Path)
  (new_obj_paths : gmap string string) (obj : string) (w : world) :
  String.prefix path obj = true ->
  keeps_outside path w (snd (sanitize_obj p new_obj_paths obj w)).
Proof.
  intros Hp. unfold sanitize_obj.
  destruct (String.eqb _ "").
  - unfold bind.
    pose proof (delete_obj_keeps_outside path obj w Hp) as Hdel.
    destruct (delete_obj obj w) as [[[] | e |] w1]; exact Hdel.
  - destruct (relative_to (Path_of obj) p) as [rel|]; [| apply keeps_outside_refl].
    destruct (negb _); [| apply keeps_outside_refl].
    unfold bind.
    match goal with |- context [copy_obj obj ?d w] =>
      pose proof (extends_keeps_outside path _ _ (copy_obj_extends obj d w))
        as Hcopy;
      destruct (copy_obj obj d w) as [[[] | e |] w1] end;
      cbn [snd] in *; try exact Hcopy.
    pose proof (delete_obj_keeps_outside path obj w1 Hp) as Hdel.
    destruct (delete_obj obj w1) as [[[] | e |] w2]; cbn [snd] in *;
      (apply keeps_outside_trans with w1; [exact Hcopy | exact Hdel]).
Qed.

Lemma sanitize_objs_keeps_outside (path : string) (p : Path) (l_ls : list string) :
  (forall obj, In obj l_ls -> String.prefix path obj = true) ->
  forall new_obj_paths w,
    keeps_outside path w (snd (sanitize_objs p new_obj_paths l_ls w)).
Proof.
  induction l_ls as [|obj l_ls IH]; intros Hall new_obj_paths w;
    [apply keeps_outside_refl |].
  cbn [sanitize_objs]. unfold bind.
  pose proof (sanitize_obj_keeps_outside path p new_obj_paths obj w
                (Hall obj (or_introl eq_refl))) as Hstep.
  destruct (sanitize_obj p new_obj_paths obj w) as [[m | e |] w1];
    cbn [snd] in *; try exact Hstep.
  apply keeps_outside_trans with w1; [exact Hstep |].
  apply IH. intros o Ho. apply Hall. now right.
Qed.

Lemma In_take {A : Type} (n : nat) (l : list A) (x : A) :
  In x (take n l) -> In x l.
Proof.
  revert l. induction n as [|n IH]; intros [|y l] Hin; try destruct Hin.
  - now left.
  - right. now apply IH.
Qed.

(** What [ls] returns are names that start with the path. *)
Lemma ls_loop_listed (path : string) (full : bool) (n : nat) :
  forall i w l,
    fst (ls_loop n i path full w) = Returned l ->
    forall obj, In obj l -> String.prefix path obj = true.
Proof.
  induction n as [|n IH]; intros i w l Hrun obj Hobj.
  - injection Hrun as <-. destruct Hobj.
  - cbn [ls_loop] in Hrun. unfold try_except, get_container, send in Hrun.
    assert (Hanswer : forall v,
              fst (ret (A := list string)
                     (if full
                      then List.filter (String.prefix path) (map fst (objects v))
                      else take page_size
                             (List.filter (String.prefix path) (map fst (objects v))))
                     v) = Returned l ->
              String.prefix path obj = true).
    { intros v [= <-]. destruct full.
      - now apply filter_In in Hobj as [_ Hobj].
      - apply In_take in Hobj. now apply filter_In in Hobj as [_ Hobj]. }
    destruct (faults w) as [|[status|] script]; try (now apply (Hanswer _ Hrun)).
    destruct (i =? 4)%Z; [discriminate |].
    unfold bind, sleep in Hrun.
    match type of Hrun with context [ls_loop n ?j path full ?v] =>
      pose proof (IH j v) as Hrest;
      destruct (ls_loop n j path full v) as [[a | e |] w2] end;
      cbn [fst] in *; try discriminate.
    injection Hrun as <-. now apply (Hrest a eq_refl).
Qed.

Lemma ls_listed (path : string) (w : world) (l : list string) :
  fst (ls path w) = Returned l ->
  forall obj, In obj l -> String.prefix path obj = true.
Proof.
  unfold ls, _ls. destruct (String.eqb path "").
  - intros [= <-] obj [].
  - unfold bind.
    destruct (__get_connection w) as [[[] | e |] w1]; try discriminate.
    apply ls_loop_listed.
Qed.

(** X26. [sanitize_obj_names] stays under its prefix when it removes: every
    object of the container whose name does not start with [path] is still
    there afterwards, for every state and fault script and whether the call
    returns or raises. *)
Theorem sanitize_obj_names_keeps_outside (path : string) (w : world) :
  keeps_outside path w (snd (sanitize_obj_names path w)).
Proof.
  unfold sanitize_obj_names, bind.
  pose proof (ls_quiet path w) as [Hobj _].
  pose proof (ls_listed path w) as Hlisted.
  destruct (ls path w) as [[l_ls | e |] w1]; cbn [fst snd] in *;
    try (now apply keeps_outside_same).
  apply keeps_outside_trans with w1; [now apply keeps_outside_same |].
  destruct (is_prefix_listing l_ls path); [| apply keeps_outside_refl].
  apply sanitize_objs_keeps_outside. now apply Hlisted.
Qed.

Lemma sanitize_obj_names_keeps_outside_witness :
  In "SERVICES/a,b"
    (object_names
       (snd (sanitize_obj_names "PIPELINES"
               (set_objects empty_world
                  [("PIPELINES/a,b/x.txt", "x"); ("SERVICES/a,b", "s")])))).
Proof.
  apply (sanitize_obj_names_keeps_outside "PIPELINES"
           (set_objects empty_world
              [("PIPELINES/a,b/x.txt", "x"); ("SERVICES/a,b", "s")])).
  - cbn. tauto.
  - reflexivity.
Defined.

End FrameFacts.
